(** * ErrorReportAngularSDK: a shallow embedding of the reporting pipeline

    The services of the SDK (retry manager, rate limiter, circuit breaker,
    quota manager, offline queue, batch manager, SDK monitor and security
    validator) are embedded as Rocq functions over explicit state.

    Conventions used throughout.
    - A JavaScript string is the list of its UTF-16 code units ([list N]);
      [js "..."] writes an ASCII literal.
    - A JavaScript number that the code uses as a counter, a timestamp or a
      limit is an integer ([Z]); the delays of the retry manager and the
      batch average, which the code computes by multiplication with
      fractions and by division, are exact rationals ([Q]).
    - Every [Date.now()] and [Math.random()] read is an argument of the
      function that performs it, in the order of the reads.
    - A [Map] is a [gmap]; an array is a [list]. *)

From Stdlib Require Import Strings.String Strings.Ascii.
From Stdlib Require Import ZArith QArith Qminmax Qpower Lia Lqa List Bool.
From stdpp Require Import base option list gmap.
Import ListNotations.

Local Open Scope Z_scope.
Set Warnings "-register-all".

(* ===================================================================== *)
(** * Part I: definitions *)
(* ===================================================================== *)

(** ** JavaScript strings *)

Module JsString.

Abbreviation jsstring := (list N).

(** An ASCII literal as code units. *)
Definition js (s : string) : jsstring :=
  List.map N_of_ascii (list_ascii_of_string s).

Definition unit_eqb (a b : N) : bool := N.eqb a b.

(** [s.startsWith(p)] *)
Fixpoint starts_with (p s : jsstring) : bool :=
  match p, s with
  | [], _ => true
  | a :: p', b :: s' => unit_eqb a b && starts_with p' s'
  | _ :: _, [] => false
  end.

(** [s.includes(needle)] *)
Fixpoint includes (s needle : jsstring) : bool :=
  starts_with needle s ||
  match s with
  | [] => false
  | _ :: s' => includes s' needle
  end.

(** The longest prefix whose units satisfy [p], and the rest. *)
Fixpoint span (p : N -> bool) (s : jsstring) : jsstring * jsstring :=
  match s with
  | [] => ([], [])
  | c :: s' =>
      if p c then let '(a, b) := span p s' in (c :: a, b) else ([], s)
  end.

(** [\d] *)
Definition is_digit (c : N) : bool := (48 <=? c)%N && (c <=? 57)%N.

(** [parseInt(ds, 10)] on a non-empty run of decimal digits. *)
Definition parseInt10 (ds : jsstring) : Z :=
  fold_left (fun acc d => 10 * acc + (Z.of_N d - 48)) ds 0.

End JsString.
Import JsString.

(** ** JavaScript numbers as strings *)

Module JsNumber.

(** The digit of value [d] in a radix up to 36: [0] to [9], then [a] to
    [z]. *)
Definition digit_unit (d : N) : N :=
  if (d <? 10)%N then (48 + d)%N else (87 + d)%N.

(** The digits of [n], most significant first, in front of [acc]; [fuel]
    bounds the number of digits. *)
Fixpoint digits_from (fuel : nat) (radix n : N) (acc : jsstring) : jsstring :=
  match fuel with
  | O => acc
  | S fuel' =>
      let acc' := digit_unit (n mod radix) :: acc in
      if (n <? radix)%N then acc'
      else digits_from fuel' radix (n / radix) acc'
  end.

(** [n.toString(radix)] for an integer [n >= 0].  A number has no more
    digits in a radix from 2 on than it has bits. *)
Definition toStringRadix (radix n : N) : jsstring :=
  digits_from (S (N.to_nat (N.log2 n))) radix n [].

(** [String(n)], also the text of [n] in a template literal, for an
    integer [n] with [|n| < 2^53]: every digit is printed.  (Larger
    numbers are printed with the digits that tell them from their
    neighbours, and from [1e21] on with an exponent; the properties
    stated of this function keep to the range.) *)
Definition numberToString (n : Z) : jsstring :=
  if n <? 0 then 45%N :: toStringRadix 10 (Z.to_N (- n))
  else toStringRadix 10 (Z.to_N n).

End JsNumber.

(** ** RetryManagerService *)

Module RetryManager.

Record RetryConfig := {
  maxRetries : Z;
  initialDelay : Q;
  maxDelay : Q
}.

(** The configuration set by the constructor. *)
Definition defaultConfig : RetryConfig :=
  {| maxRetries := 3; initialDelay := 1000; maxDelay := 30000 |}.

(** An [Error] object; only its message is inspected. *)
Record JsError := { message : jsstring }.

(** The regular expression [/HTTP (\d+):/] tried at the head of [s]: the
    literal, then the longest run of digits (at least one), then a
    colon.  A shorter run of digits would have to be followed by a colon
    where a digit stands, so backtracking never succeeds. *)
Definition http_at (s : jsstring) : option jsstring :=
  if starts_with (js "HTTP ") s then
    let '(ds, rest) := span is_digit (skipn 5 s) in
    match ds, rest with
    | _ :: _, c :: _ => if unit_eqb c 58 then Some ds else None
    | _, _ => None
    end
  else None.

(** [error.message.match(/HTTP (\d+):/)]: the capture group of the
    leftmost match. *)
Fixpoint httpMatch (s : jsstring) : option jsstring :=
  match http_at s with
  | Some ds => Some ds
  | None =>
      match s with
      | [] => None
      | _ :: s' => httpMatch s'
      end
  end.

(** What [executeWithRetry] settles to: the value returned by the
    operation or the thrown value ([None] is [undefined], the value of
    [lastError] when no attempt was made). *)
Inductive Outcome (T : Type) :=
| Returned (v : T)
| Threw (e : option JsError).
Arguments Returned {T} v.
Arguments Threw {T} e.

(** The operation is a function on the state of the outside world: each
    invocation yields a value or an error and a new world.  A run of
    [executeWithRetry] ends with an outcome, the world after the last
    invocation and the arguments of [this.delay], oldest first. *)
Record Run (W T : Type) := {
  outcome : Outcome T;
  world : W;
  delays : list Q
}.
Arguments outcome {W T} r.
Arguments world {W T} r.
Arguments delays {W T} r.

Section Service.
Variable config : RetryConfig.

Definition shouldRetry (error : JsError) (attempt : Z) : bool :=
  if attempt >=? maxRetries config - 1 then false
  else if includes (message error) (js "Rate limit exceeded by server")
  then true
  else if includes (message error) (js "Request timeout") then true
  else if includes (message error) (js "Network error")
          || includes (message error) (js "Failed to fetch") then true
  else
    match httpMatch (message error) with
    | Some ds =>
        let status := parseInt10 ds in
        if (status =? 401) || (status =? 403) then false
        else (status >=? 500) || (status =? 429) || (status =? 408)
    | None => false
    end.

(** [random] is the value of [Math.random()].  The numbers are exact
    rationals, which is the arithmetic of the code up to the rounding of
    doubles as long as [Math.pow(2, attempt)] is finite: for the
    attempts of the loop, from 0 on, up to 1023.  (From 1024 on the
    power is [Infinity], and with it the product is [NaN] when
    [initialDelay] is 0.) *)
Definition calculateDelay (attempt : Z) (random : Q) : Q :=
  let exponentialDelay := (initialDelay config * Qpower 2 attempt)%Q in
  let maxDelay := Qmin exponentialDelay (maxDelay config) in
  let jitter := (maxDelay * (1 # 4) * (random - (1 # 2)))%Q in
  Qmax 0 (maxDelay + jitter)%Q.

Section Execute.
Context {W T : Type}.
Variable operation : W -> (T + JsError) * W.
(** [random attempt] is the draw made by [calculateDelay attempt]. *)
Variable random : Z -> Q.

(** The [for] loop from [attempt] on; [fuel] counts the iterations that
    the loop condition [attempt < maxRetries] still admits. *)
Fixpoint attempts (fuel : nat) (attempt : Z) (lastError : option JsError)
         (w : W) (slept : list Q) : Run W T :=
  match fuel with
  | O => {| outcome := Threw lastError; world := w; delays := slept |}
  | S fuel' =>
      match operation w with
      | (inl v, w') =>
          {| outcome := Returned v; world := w'; delays := slept |}
      | (inr error, w') =>
          if attempt =? maxRetries config - 1 then
            {| outcome := Threw (Some error); world := w'; delays := slept |}
          else if negb (shouldRetry error attempt) then
            {| outcome := Threw (Some error); world := w'; delays := slept |}
          else
            let delay := calculateDelay attempt (random attempt) in
            attempts fuel' (attempt + 1) (Some error) w' (slept ++ [delay])
      end
  end.

Definition executeWithRetry (w : W) : Run W T :=
  attempts (Z.to_nat (maxRetries config)) 0 None w [].
End Execute.
End Service.

(** The status carried by an error message, as [shouldRetry] reads it. *)
Definition httpStatus (m : jsstring) : option Z :=
  match httpMatch m with
  | Some ds => Some (parseInt10 ds)
  | None => None
  end.

(** The phrases that [shouldRetry] accepts before it looks at a status. *)
Definition hasRetryablePhrase (m : jsstring) : bool :=
  includes m (js "Rate limit exceeded by server")
  || includes m (js "Request timeout")
  || includes m (js "Network error")
  || includes m (js "Failed to fetch").

(** An operation that replays a script of results; the world is the
    number of invocations made so far. *)
Definition scripted {T} (script : list (T + JsError)) (dflt : T + JsError)
  : nat -> (T + JsError) * nat :=
  fun calls => (nth calls script dflt, S calls).

Definition httpError (s : string) : JsError := {| message := js s |}.

(** Errors as the transport layer words them. *)
Definition unauthorized : JsError := httpError "HTTP 401: Unauthorized".
Definition serviceUnavailable : JsError :=
  httpError "HTTP 503: Service Unavailable".

(** A status 401 whose message also carries a retryable phrase. *)
Definition unauthorizedNetwork : JsError :=
  httpError "HTTP 401: Network error".


(** The arguments of [this.delay] in a run that sleeps after each of the
    attempts [0] to [n - 1]. *)
Definition backoff (config : RetryConfig) (random : Z -> Q) (n : nat)
  : list Q :=
  List.map (fun i => calculateDelay config (Z.of_nat i) (random (Z.of_nat i)))
    (seq 0 n).

(** What ends a run: a value, or an error that [shouldRetry] refuses at
    the attempt where it occurs; and how the run settles then. *)
Definition ends {T} (config : RetryConfig) (final : T + JsError)
           (attempt : Z) : Prop :=
  match final with
  | inl _ => True
  | inr e => shouldRetry config e attempt = false
  end.

Definition settled {T} (final : T + JsError) : Outcome T :=
  match final with
  | inl v => Returned v
  | inr e => Threw (Some e)
  end.

(** A timeout as the transport layer words it. *)
Definition requestTimeout : JsError := httpError "HTTP 408: Request Timeout".

End RetryManager.

(** ** RateLimiterService *)

Module RateLimiter.

Record RequestLog := {
  timestamp : Z;
  fingerprint : option jsstring
}.

Record RateLimiterConfig := {
  maxRequests : Z;
  windowMs : Z;
  duplicateErrorWindow : Z
}.

Record RateLimiterService := {
  requests : list RequestLog;
  errorFingerprints : gmap jsstring Z;
  config : RateLimiterConfig
}.

(** The state set up by the field initialisers and the constructor. *)
Definition create : RateLimiterService :=
  {| requests := [];
     errorFingerprints := ∅;
     config := {| maxRequests := 10; windowMs := 60000;
                  duplicateErrorWindow := 5000 |} |}.

Definition configure (c : RateLimiterConfig) (s : RateLimiterService)
  : RateLimiterService :=
  {| requests := requests s; errorFingerprints := errorFingerprints s;
     config := c |}.

Definition cleanupOldRequests (now : Z) (s : RateLimiterService)
  : RateLimiterService :=
  let cutoff := now - windowMs (config s) in
  {| requests := filter (fun req => cutoff < timestamp req) (requests s);
     errorFingerprints := errorFingerprints s;
     config := config s |}.

(** The loop deletes every entry with [timestamp <= cutoff]; what stays is
    the entries with [cutoff < timestamp]. *)
Definition cleanupOldFingerprints (now : Z) (s : RateLimiterService)
  : RateLimiterService :=
  let cutoff := now - duplicateErrorWindow (config s) in
  {| requests := requests s;
     errorFingerprints :=
       filter (fun kv : jsstring * Z => cutoff < kv.2) (errorFingerprints s);
     config := config s |}.

Definition canMakeRequest (now : Z) (s : RateLimiterService)
  : bool * RateLimiterService :=
  let s' := cleanupOldRequests now s in
  (Z.of_nat (length (requests s')) <? maxRequests (config s'), s').

(** [!lastReported] holds for [undefined] and for the number 0. *)
Definition canReportError (now : Z) (fingerprint : jsstring)
           (s : RateLimiterService) : bool :=
  match errorFingerprints s !! fingerprint with
  | None => true
  | Some lastReported =>
      if lastReported =? 0 then true
      else now - lastReported >? duplicateErrorWindow (config s)
  end.

(** Truth value of an optional string: [undefined] and [""] are falsy. *)
Definition truthy (fingerprint : option jsstring) : option jsstring :=
  match fingerprint with
  | Some (c :: f) => Some (c :: f)
  | _ => None
  end.

Definition recordRequest (now : Z) (fingerprint : option jsstring)
           (s : RateLimiterService) : RateLimiterService :=
  let log := {| timestamp := now; fingerprint := fingerprint |} in
  {| requests := requests s ++ [log];
     errorFingerprints :=
       match truthy fingerprint with
       | Some f => <[f := now]> (errorFingerprints s)
       | None => errorFingerprints s
       end;
     config := config s |}.

Definition getRemainingRequests (now : Z) (s : RateLimiterService)
  : Z * RateLimiterService :=
  let s' := cleanupOldRequests now s in
  (Z.max 0 (maxRequests (config s') - Z.of_nat (length (requests s'))), s').

Definition cleanup (now : Z) (s : RateLimiterService) : RateLimiterService :=
  cleanupOldFingerprints now (cleanupOldRequests now s).

(** A call of a public method that can change the state of the service
    (the configuration stays as it is). *)
Inductive Call :=
| CanMakeRequest
| CanReportError (fingerprint : jsstring)
| RecordRequest (fingerprint : option jsstring)
| GetRemainingRequests
| Cleanup.

(** One call, made when the clock reads [now]. *)
Definition step (s : RateLimiterService) (c : Z * Call) : RateLimiterService :=
  let '(now, call) := c in
  match call with
  | CanMakeRequest => (canMakeRequest now s).2
  | CanReportError _ => s
  | RecordRequest f => recordRequest now f s
  | GetRemainingRequests => (getRemainingRequests now s).2
  | Cleanup => cleanup now s
  end.

Definition run (calls : list (Z * Call)) (s : RateLimiterService)
  : RateLimiterService :=
  fold_left step calls s.

(** The calls never record the fingerprint [f]. *)
Definition neverRecords (f : jsstring) (calls : list (Z * Call)) : Prop :=
  Forall (fun c => c.2 <> RecordRequest (Some f)) calls.

(** Every [cleanup] among the calls runs before the clock reads [t]. *)
Definition cleanupsBefore (t : Z) (calls : list (Z * Call)) : Prop :=
  Forall (fun c => c.2 = Cleanup -> c.1 < t) calls.

(** [Math.min(...this.requests.map(r => r.timestamp))] on a list that is
    not empty. *)
Definition oldestRequest (r : RequestLog) (rs : list RequestLog) : Z :=
  fold_left Z.min (List.map timestamp rs) (timestamp r).

Definition getResetTime (now : Z) (s : RateLimiterService) : Z :=
  match requests s with
  | [] => now
  | r :: rs => oldestRequest r rs + windowMs (config s)
  end.

Definition isRecordRequest (c : Call) : bool :=
  match c with
  | RecordRequest _ => true
  | _ => false
  end.

(** The calls of [recordRequest] made after the clock read [cutoff]. *)
Definition recordedAfter (cutoff : Z) (calls : list (Z * Call))
  : list (Z * Call) :=
  List.filter (fun c => isRecordRequest c.2 && (cutoff <? c.1)) calls.

(** All the calls are made by the time the clock reads [now]. *)
Definition madeBy (now : Z) (calls : list (Z * Call)) : Prop :=
  Forall (fun c => c.1 <= now) calls.

End RateLimiter.

(** ** CircuitBreakerService *)

Module CircuitBreaker.

Inductive CircuitState := CLOSED | OPEN | HALF_OPEN.

Record CircuitBreakerConfig := {
  failureThreshold : Z;
  timeout : Z;
  resetTimeout : Z
}.

Record CircuitBreakerService := {
  config : CircuitBreakerConfig;
  state : CircuitState;
  failureCount : Z;
  successCount : Z;
  lastFailureTime : option Z;
  nextRetryTime : option Z
}.

Definition defaultConfig : CircuitBreakerConfig :=
  {| failureThreshold := 5; timeout := 30000; resetTimeout := 60000 |}.

(** The state set up by the field initialisers, under configuration [c]. *)
Definition create (c : CircuitBreakerConfig) : CircuitBreakerService :=
  {| config := c; state := CLOSED; failureCount := 0; successCount := 0;
     lastFailureTime := None; nextRetryTime := None |}.

Definition setState (st : CircuitState) (b : CircuitBreakerService)
  : CircuitBreakerService :=
  {| config := config b; state := st; failureCount := failureCount b;
     successCount := successCount b; lastFailureTime := lastFailureTime b;
     nextRetryTime := nextRetryTime b |}.

(** [this.nextRetryTime && now >= this.nextRetryTime]: [null] and 0 are
    falsy. *)
Definition isCallAllowed (now : Z) (b : CircuitBreakerService)
  : bool * CircuitBreakerService :=
  match state b with
  | CLOSED => (true, b)
  | OPEN =>
      match nextRetryTime b with
      | Some t =>
          if negb (t =? 0) && (now >=? t) then (true, setState HALF_OPEN b)
          else (false, b)
      | None => (false, b)
      end
  | HALF_OPEN => (true, b)
  end.

Definition reset (b : CircuitBreakerService) : CircuitBreakerService :=
  {| config := config b; state := CLOSED; failureCount := 0;
     successCount := 0; lastFailureTime := None; nextRetryTime := None |}.

Definition onSuccess (b : CircuitBreakerService) : CircuitBreakerService :=
  let b1 :=
    {| config := config b; state := state b; failureCount := failureCount b;
       successCount := successCount b + 1;
       lastFailureTime := lastFailureTime b;
       nextRetryTime := nextRetryTime b |} in
  match state b1 with
  | HALF_OPEN => reset b1
  | _ => b1
  end.

Definition tripCircuit (now : Z) (b : CircuitBreakerService)
  : CircuitBreakerService :=
  {| config := config b; state := OPEN; failureCount := failureCount b;
     successCount := successCount b; lastFailureTime := lastFailureTime b;
     nextRetryTime := Some (now + timeout (config b)) |}.

(** [nowFailure] is the clock read by [onFailure] itself, [nowTrip] the one
    read by [tripCircuit] when it is called. *)
Definition onFailure (nowFailure nowTrip : Z) (b : CircuitBreakerService)
  : CircuitBreakerService :=
  let b1 :=
    {| config := config b; state := state b;
       failureCount := failureCount b + 1;
       successCount := successCount b;
       lastFailureTime := Some nowFailure;
       nextRetryTime := nextRetryTime b |} in
  match state b1 with
  | HALF_OPEN => tripCircuit nowTrip b1
  | _ =>
      if failureCount b1 >=? failureThreshold (config b1)
      then tripCircuit nowTrip b1
      else b1
  end.

(** How a call of [execute] ends: with the value of the operation, with
    the error thrown by the operation, or with the error of the breaker
    itself, raised before the operation is called. *)
Inductive Result (T E : Type) :=
| Value (v : T)
| OperationError (e : E)
| CircuitOpenError (msg : jsstring).
Arguments Value {T E} v.
Arguments OperationError {T E} e.
Arguments CircuitOpenError {T E} msg.

(** The message of the error that [execute] throws itself. *)
Definition circuitOpenMessage : jsstring :=
  js "Circuit breaker is OPEN - calls are not allowed".

(** The three clock reads that one call of [execute] can make. *)
Record Clock := {
  now : Z;         (* isCallAllowed *)
  nowFailure : Z;  (* onFailure *)
  nowTrip : Z      (* tripCircuit *)
}.

Section Execute.
Context {W T E : Type}.

(** The wrapped operation acts on the outside world [W].  A call of
    [execute] is taken in one piece, from the admission test to the
    record of the outcome: calls do not overlap. *)
Definition execute (operation : W -> (T + E) * W) (clk : Clock)
           (b : CircuitBreakerService) (w : W)
  : Result T E * CircuitBreakerService * W :=
  let '(allowed, b1) := isCallAllowed (now clk) b in
  if negb allowed then
    (CircuitOpenError circuitOpenMessage, b1, w)
  else
    match operation w with
    | (inl result, w') => (Value result, onSuccess b1, w')
    | (inr error, w') =>
        (OperationError error, onFailure (nowFailure clk) (nowTrip clk) b1, w')
    end.

(** Successive calls of [execute] with the same operation. *)
Fixpoint executeAll (operation : W -> (T + E) * W) (clks : list Clock)
         (b : CircuitBreakerService) (w : W)
  : list (Result T E) * CircuitBreakerService * W :=
  match clks with
  | [] => ([], b, w)
  | clk :: clks' =>
      let '(r, b1, w1) := execute operation clk b w in
      let '(rs, b2, w2) := executeAll operation clks' b1 w1 in
      (r :: rs, b2, w2)
  end.
End Execute.

(** Sample operations on a world that counts the invocations, and a
    clock whose reads after the operation come 10 ms after the first. *)
Definition alwaysFails (w : nat) : (Z + jsstring) * nat :=
  (inr (js "HTTP 503: Service Unavailable"), S w).

Definition succeeds (w : nat) : (Z + jsstring) * nat := (inl 1, S w).

Definition tick (t : Z) : Clock :=
  {| now := t; nowFailure := t + 10; nowTrip := t + 10 |}.

Definition forceOpen (now : Z) (b : CircuitBreakerService)
  : CircuitBreakerService :=
  {| config := config b; state := OPEN; failureCount := failureCount b;
     successCount := successCount b; lastFailureTime := lastFailureTime b;
     nextRetryTime := Some (now + timeout (config b)) |}.

Definition forceClose (b : CircuitBreakerService) : CircuitBreakerService :=
  reset b.

(** [this.state === CircuitState.OPEN && !this.isCallAllowed()]: the
    admission test, which can move the breaker to [HALF_OPEN], runs only
    in the open state. *)
Definition isCircuitOpen (now : Z) (b : CircuitBreakerService)
  : bool * CircuitBreakerService :=
  match state b with
  | OPEN => let '(allowed, b') := isCallAllowed now b in (negb allowed, b')
  | _ => (false, b)
  end.

(** [this.nextRetryTime] is tested for truth: [null] and 0 are falsy. *)
Definition getTimeUntilRetry (now : Z) (b : CircuitBreakerService) : Z :=
  match state b, nextRetryTime b with
  | OPEN, Some t => if t =? 0 then 0 else Z.max 0 (t - now)
  | _, _ => 0
  end.

Definition getFailureRate (b : CircuitBreakerService) : Q :=
  let totalCalls := successCount b + failureCount b in
  if totalCalls >? 0
  then (inject_Z (failureCount b) / inject_Z totalCalls)%Q
  else 0%Q.

(** How the calls of a run ended. *)
Definition isFailure {T E} (r : Result T E) : bool :=
  match r with
  | OperationError _ => true
  | _ => false
  end.

Definition isSuccess {T E} (r : Result T E) : bool :=
  match r with
  | Value _ => true
  | _ => false
  end.

Definition isRejection {T E} (r : Result T E) : bool :=
  match r with
  | CircuitOpenError _ => true
  | _ => false
  end.

Definition failures {T E} (rs : list (Result T E)) : Z :=
  Z.of_nat (length (List.filter isFailure rs)).

Definition successes {T E} (rs : list (Result T E)) : Z :=
  Z.of_nat (length (List.filter isSuccess rs)).

(** An operation that replays a script of results, then fails; the world
    is the number of invocations made so far. *)
Definition replay (script : list (Z + jsstring)) (w : nat)
  : (Z + jsstring) * nat :=
  (nth w script (inr (js "HTTP 500: Internal Server Error")), S w).

End CircuitBreaker.

(** ** QuotaManagerService *)

Module QuotaManager.

Record Counter := {
  used : Z;
  resetTime : Z
}.

Record QuotaState := {
  daily : Counter;
  monthly : Counter;
  burst : Counter
}.

Record QuotaConfig := {
  dailyLimit : Z;
  monthlyLimit : Z;
  payloadSizeLimit : Z;
  burstLimit : Z;
  burstWindowMs : Z
}.

Definition defaultConfig : QuotaConfig :=
  {| dailyLimit := 1000; monthlyLimit := 10000;
     payloadSizeLimit := 1024 * 1024; burstLimit := 50;
     burstWindowMs := 60000 |}.

Record QuotaManagerService := {
  config : QuotaConfig;
  state : QuotaState
}.

(** The answer of [canSendError]. *)
Record Verdict := {
  allowed : bool;
  reason : option jsstring
}.

(** The answer of [getRemainingQuota] and of [getTimeUntilReset]: one
    number for each counter (the fields [daily], [monthly] and [burst]
    of the object returned). *)
Record Amounts := {
  dailyAmount : Z;
  monthlyAmount : Z;
  burstAmount : Z
}.

Section Calendar.
(** [getNextDayReset] and [getNextMonthReset] compute the next local
    midnight and the next first of the month from a clock read of their
    own ([new Date()]), which the embedding identifies with the read of
    [checkAndResetQuotas]; the calendar of the host is taken as given. *)
Variable getNextDayReset : Z -> Z.
Variable getNextMonthReset : Z -> Z.

(** [saveState] writes the state to [localStorage] and leaves the service
    as it is; it is not part of the embedding. *)
Definition checkAndResetQuotas (now : Z) (s : QuotaManagerService)
  : QuotaManagerService :=
  let st := state s in
  let burst' :=
    if now >=? resetTime (burst st)
    then {| used := 0; resetTime := now + burstWindowMs (config s) |}
    else burst st in
  let daily' :=
    if now >=? resetTime (daily st)
    then {| used := 0; resetTime := getNextDayReset now |}
    else daily st in
  let monthly' :=
    if now >=? resetTime (monthly st)
    then {| used := 0; resetTime := getNextMonthReset now |}
    else monthly st in
  {| config := config s;
     state := {| daily := daily'; monthly := monthly'; burst := burst' |} |}.

Definition canSendError (now : Z) (estimatedSize : Z) (s : QuotaManagerService)
  : Verdict * QuotaManagerService :=
  let s' := checkAndResetQuotas now s in
  let st := state s' in
  let cfg := config s' in
  if used (burst st) >=? burstLimit cfg then
    ({| allowed := false; reason := Some (js "Burst limit exceeded") |}, s')
  else if used (daily st) >=? dailyLimit cfg then
    ({| allowed := false; reason := Some (js "Daily limit exceeded") |}, s')
  else if used (monthly st) >=? monthlyLimit cfg then
    ({| allowed := false; reason := Some (js "Monthly limit exceeded") |}, s')
  else if estimatedSize >? payloadSizeLimit cfg then
    ({| allowed := false; reason := Some (js "Payload size limit exceeded") |}, s')
  else
    ({| allowed := true; reason := None |}, s').

Definition increment (c : Counter) : Counter :=
  {| used := used c + 1; resetTime := resetTime c |}.

Definition recordErrorSent (now : Z) (payloadSize : Z) (s : QuotaManagerService)
  : QuotaManagerService :=
  let s' := checkAndResetQuotas now s in
  let st := state s' in
  {| config := config s';
     state := {| daily := increment (daily st);
                 monthly := increment (monthly st);
                 burst := increment (burst st) |} |}.

(** Successive calls of [recordErrorSent]; each entry is the clock read
    and the payload size of one call. *)
Definition recordAll (calls : list (Z * Z)) (s : QuotaManagerService)
  : QuotaManagerService :=
  fold_left (fun s c => recordErrorSent c.1 c.2 s) calls s.

(** The clock reads [nows] fall into one burst window of [s]: none of
    them reaches the reset time of the burst counter. *)
Definition withinBurstWindow (s : QuotaManagerService) (nows : list Z) : Prop :=
  Forall (fun now => now < resetTime (burst (state s))) nows.

Definition getRemainingQuota (now : Z) (s : QuotaManagerService)
  : Amounts * QuotaManagerService :=
  let s' := checkAndResetQuotas now s in
  let st := state s' in
  let cfg := config s' in
  ({| dailyAmount := Z.max 0 (dailyLimit cfg - used (daily st));
      monthlyAmount := Z.max 0 (monthlyLimit cfg - used (monthly st));
      burstAmount := Z.max 0 (burstLimit cfg - used (burst st)) |}, s').

(** [getTimeUntilReset] reads the counters as they are, without the
    resets of [checkAndResetQuotas]. *)
Definition getTimeUntilReset (now : Z) (s : QuotaManagerService) : Amounts :=
  let st := state s in
  {| dailyAmount := Z.max 0 (resetTime (daily st) - now);
     monthlyAmount := Z.max 0 (resetTime (monthly st) - now);
     burstAmount := Z.max 0 (resetTime (burst st) - now) |}.

(** No counter is negative or past its limit. *)
Definition withinLimits (s : QuotaManagerService) : Prop :=
  let st := state s in
  let cfg := config s in
  0 <= used (daily st) <= dailyLimit cfg
  /\ 0 <= used (monthly st) <= monthlyLimit cfg
  /\ 0 <= used (burst st) <= burstLimit cfg.

End Calendar.

Definition deny (why : string) : Verdict :=
  {| allowed := false; reason := Some (js why) |}.

Definition allow : Verdict := {| allowed := true; reason := None |}.

(** A sample calendar (days of 86400000 ms, months of 30 days, counted
    from the clock) and a sample service created while the clock reads 0
    under the default configuration. *)
Definition sampleNextDay (now : Z) : Z := now + 86400000.
Definition sampleNextMonth (now : Z) : Z := now + 2592000000.

Definition sampleService : QuotaManagerService :=
  {| config := defaultConfig;
     state := {| daily := {| used := 0; resetTime := 86400000 |};
                 monthly := {| used := 0; resetTime := 2592000000 |};
                 burst := {| used := 0; resetTime := 60000 |} |} |}.

End QuotaManager.

(** ** OfflineManagerService *)

Module OfflineManager.

Section Service.
(** [ErrorReport] is opaque to the queue; the send function acts on the
    outside world [W] and either resolves ([true]) or rejects ([false]). *)
Variable ErrorReport : Type.
Variable W : Type.

Record QueuedReport := {
  report : ErrorReport;
  timestamp : Z;
  attempts : Z
}.

(** The answer of [getQueueStats]. *)
Record QueueStats := {
  size : Z;
  oldestTimestamp : Z;
  newestTimestamp : Z
}.

Record OfflineManagerService := {
  queue : list QueuedReport;
  maxQueueSize : Z;
  maxAge : Z;
  sendReportFunction : option (ErrorReport -> W -> bool * W);
  isProcessing : bool
}.

Definition setQueue (q : list QueuedReport) (s : OfflineManagerService)
  : OfflineManagerService :=
  {| queue := q; maxQueueSize := maxQueueSize s; maxAge := maxAge s;
     sendReportFunction := sendReportFunction s;
     isProcessing := isProcessing s |}.

Definition cleanupQueue (now : Z) (s : OfflineManagerService)
  : OfflineManagerService :=
  let cutoff := now - maxAge s in
  setQueue (filter (fun item => cutoff < timestamp item) (queue s)) s.

(** [nowQueued] is the clock read for the time stamp of the record,
    [nowCleanup] the one read by [cleanupQueue]. *)
Definition queueReport (nowQueued nowCleanup : Z) (r : ErrorReport)
           (s : OfflineManagerService) : OfflineManagerService :=
  let queuedReport :=
    {| report := r; timestamp := nowQueued; attempts := 0 |} in
  let q1 := queue s ++ [queuedReport] in
  let q2 := if Z.of_nat (length q1) >? maxQueueSize s then tail q1 else q1 in
  cleanupQueue nowCleanup (setQueue q2 s).

(** [queuedReport.attempts++] *)
Definition bump (q : QueuedReport) : QueuedReport :=
  {| report := report q; timestamp := timestamp q;
     attempts := attempts q + 1 |}.

(** The body of the [for] loop for one spliced record: the queue is
    touched only when the send rejects and the incremented count is
    below 3, by [unshift]. *)
Definition processOne (send : ErrorReport -> W -> bool * W)
           (acc : list QueuedReport * W) (queuedReport : QueuedReport)
  : list QueuedReport * W :=
  let '(q, w) := acc in
  match send (report queuedReport) w with
  | (true, w') => (q, w')
  | (false, w') =>
      let queuedReport' := bump queuedReport in
      if attempts queuedReport' <? 3
      then (queuedReport' :: q, w')
      else (q, w')
  end.

(** [processQueue]; [onlineAtStart] and [onlineAtEnd] are the two reads of
    [isOnlineNow()].  The result carries whether another pass was
    scheduled with [setTimeout].  The calls of the send function are
    taken in one piece: no other method of the service runs between
    them. *)
Definition processQueue (onlineAtStart onlineAtEnd : bool)
           (s : OfflineManagerService) (w : W)
  : OfflineManagerService * W * bool :=
  match sendReportFunction s with
  | None => (s, w, false)
  | Some send =>
      if isProcessing s || negb onlineAtStart then (s, w, false)
      else
        let batchSize := 5%nat in
        let reportsToProcess := take batchSize (queue s) in
        let remaining := drop batchSize (queue s) in
        let '(q, w') :=
          fold_left (processOne send) reportsToProcess (remaining, w) in
        (setQueue q s, w', (0 <? Z.of_nat (length q)) && onlineAtEnd)
  end.

(** The records of a spliced batch that [processQueue] puts back, in the
    order of the batch: those whose send rejects with fewer than 3
    attempts after the increment.  The world after the batch comes
    second. *)
Fixpoint retried (send : ErrorReport -> W -> bool * W)
         (batch : list QueuedReport) (w : W) : list QueuedReport * W :=
  match batch with
  | [] => ([], w)
  | queuedReport :: batch' =>
      let '(ok, w1) := send (report queuedReport) w in
      let '(rest, w2) := retried send batch' w1 in
      if negb ok && (attempts queuedReport + 1 <? 3)
      then (bump queuedReport :: rest, w2)
      else (rest, w2)
  end.

Definition configure (newMaxQueueSize newMaxAge : Z)
           (s : OfflineManagerService) : OfflineManagerService :=
  {| queue := queue s; maxQueueSize := newMaxQueueSize; maxAge := newMaxAge;
     sendReportFunction := sendReportFunction s;
     isProcessing := isProcessing s |}.

Definition getQueueSize (s : OfflineManagerService) : Z :=
  Z.of_nat (length (queue s)).

Definition clearQueue (s : OfflineManagerService) : OfflineManagerService :=
  setQueue [] s.

Definition getQueueStats (s : OfflineManagerService) : QueueStats :=
  match queue s with
  | [] => {| size := 0; oldestTimestamp := 0; newestTimestamp := 0 |}
  | item :: items =>
      {| size := Z.of_nat (length (queue s));
         oldestTimestamp :=
           fold_left Z.min (List.map timestamp items) (timestamp item);
         newestTimestamp :=
           fold_left Z.max (List.map timestamp items) (timestamp item) |}
  end.

(** A pass of [processQueue] made online, followed by the passes that it
    schedules with [setTimeout] while the queue is not empty; [n] bounds
    the number of passes. *)
Fixpoint passes (n : nat) (s : OfflineManagerService) (w : W)
  : OfflineManagerService * W :=
  match n with
  | O => (s, w)
  | S n' =>
      let '(s', w', again) := processQueue true true s w in
      if again then passes n' s' w' else (s', w')
  end.

(** The sends that a record can still take before it leaves the queue
    for good, one at least; and their sum over a queue. *)
Definition sendsLeft (queuedReport : QueuedReport) : Z :=
  Z.max 1 (3 - attempts queuedReport).

Definition budget (q : list QueuedReport) : Z :=
  fold_right (fun queuedReport acc => sendsLeft queuedReport + acc) 0 q.

End Service.

Arguments report {_} _.
Arguments timestamp {_} _.
Arguments attempts {_} _.
Arguments queue {_ _} _.
Arguments maxQueueSize {_ _} _.
Arguments maxAge {_ _} _.
Arguments sendReportFunction {_ _} _.
Arguments isProcessing {_ _} _.
Arguments setQueue {_ _} _ _.
Arguments bump {_} _.
Arguments processOne {_ _} _ _ _.
Arguments processQueue {_ _} _ _ _ _.
Arguments retried {_ _} _ _ _.
Arguments queueReport {_ _} _ _ _ _.
Arguments Build_QueuedReport {_} _ _ _.
Arguments Build_OfflineManagerService {_ _} _ _ _ _ _.
Arguments configure {_ _} _ _ _.
Arguments getQueueSize {_ _} _.
Arguments clearQueue {_ _} _.
Arguments getQueueStats {_ _} _.
Arguments passes {_ _} _ _ _.
Arguments sendsLeft {_} _.
Arguments budget {_} _.

(** A sample send function on numbered reports, in a world that counts
    the sends: even reports are accepted, odd ones rejected. *)
Definition sampleSend (r : Z) (w : nat) : bool * nat := (Z.even r, S w).

Definition sampleQueued (r attempts : Z) : QueuedReport Z :=
  Build_QueuedReport r 0 attempts.

Definition sampleService : OfflineManagerService Z nat :=
  Build_OfflineManagerService
    [sampleQueued 1 0; sampleQueued 2 0; sampleQueued 3 2; sampleQueued 5 3;
     sampleQueued 7 1; sampleQueued 9 0]
    50 86400000 (Some sampleSend) false.

End OfflineManager.

(** ** BatchManagerService *)

Module BatchManager.

(** [batchTimeoutMs] is the field [batchTimeout] of the configuration;
    the service has a field of the same name for the timer handle. *)
Record BatchConfig := {
  batchSize : Z;
  batchTimeoutMs : Z;
  maxPayloadSize : Z
}.

Definition defaultConfig : BatchConfig :=
  {| batchSize := 10; batchTimeoutMs := 5000; maxPayloadSize := 1048576 |}.

Record BatchStats := {
  currentSize : Z;
  totalBatches : Z;
  totalErrors : Z;
  averageBatchSize : Q;
  lastSentAt : option Z
}.

Section Service.
(** [ErrorData] is opaque to the batch manager.  [payloadSize] is the
    byte length of the serialised batch, [calculatePayloadSize]. *)
Variable ErrorData : Type.
Variable payloadSize : list ErrorData -> Z.

(** [batchTimeout] tells whether a timer handle is stored;
    [hasSendFunction] whether [setSendFunction] was called; [inFlight]
    holds the batches handed to the send function whose promise has not
    settled yet, oldest first. *)
Record BatchManagerService := {
  config : BatchConfig;
  currentBatch : list ErrorData;
  batchTimeout : bool;
  stats : BatchStats;
  hasSendFunction : bool;
  inFlight : list (list ErrorData)
}.

Definition create (c : BatchConfig) (hasSend : bool) : BatchManagerService :=
  {| config := c; currentBatch := []; batchTimeout := false;
     stats := {| currentSize := 0; totalBatches := 0; totalErrors := 0;
                 averageBatchSize := 0; lastSentAt := None |};
     hasSendFunction := hasSend; inFlight := [] |}.

Definition shouldSendBatch (s : BatchManagerService) : bool :=
  if Z.of_nat (length (currentBatch s)) >=? batchSize (config s) then true
  else payloadSize (currentBatch s) >=? maxPayloadSize (config s).

(** [sendBatch] up to its [await]: the current batch is swapped out, the
    timer is cleared and the batch is handed to the send function. *)
Definition sendBatch (s : BatchManagerService) : BatchManagerService :=
  match currentBatch s with
  | [] => s
  | _ :: _ =>
      let batch := currentBatch s in
      {| config := config s;
         currentBatch := [];
         batchTimeout := false;
         stats := {| currentSize := 0;
                     totalBatches := totalBatches (stats s);
                     totalErrors := totalErrors (stats s);
                     averageBatchSize := averageBatchSize (stats s);
                     lastSentAt := lastSentAt (stats s) |};
         hasSendFunction := hasSendFunction s;
         inFlight := if hasSendFunction s then inFlight s ++ [batch]
                     else inFlight s |}
  end.

Definition startBatchTimeout (s : BatchManagerService) : BatchManagerService :=
  {| config := config s; currentBatch := currentBatch s;
     batchTimeout := true; stats := stats s;
     hasSendFunction := hasSendFunction s; inFlight := inFlight s |}.

Definition addToBatch (error : ErrorData) (s : BatchManagerService)
  : BatchManagerService :=
  let batch := currentBatch s ++ [error] in
  let s1 :=
    {| config := config s; currentBatch := batch;
       batchTimeout := batchTimeout s;
       stats := {| currentSize := Z.of_nat (length batch);
                   totalBatches := totalBatches (stats s);
                   totalErrors := totalErrors (stats s) + 1;
                   averageBatchSize := averageBatchSize (stats s);
                   lastSentAt := lastSentAt (stats s) |};
       hasSendFunction := hasSendFunction s; inFlight := inFlight s |} in
  if shouldSendBatch s1 then sendBatch s1
  else if negb (batchTimeout s1) then startBatchTimeout s1
  else s1.

Definition flush (s : BatchManagerService) : BatchManagerService :=
  if 0 <? Z.of_nat (length (currentBatch s)) then sendBatch s else s.

(** The callback of the timer.  It can run whenever a handle is stored,
    which covers every run of the source (there the callback runs once
    per timer that was started and not cleared). *)
Definition timeoutFires (s : BatchManagerService) : BatchManagerService :=
  if batchTimeout s then
    if 0 <? Z.of_nat (length (currentBatch s)) then sendBatch s else s
  else s.

(** The argument is not used by the source either. *)
Definition updateAverageBatchSize (batchSize : Z) (st : BatchStats)
  : BatchStats :=
  let totalErrors := totalErrors st in
  let totalBatches := totalBatches st in
  if totalBatches >? 0 then
    {| currentSize := currentSize st; totalBatches := totalBatches;
       totalErrors := totalErrors;
       averageBatchSize := (inject_Z totalErrors / inject_Z totalBatches)%Q;
       lastSentAt := lastSentAt st |}
  else st.

(** [sendBatch] after its [await], when the promise of the in-flight
    batch number [i] settles: a resolved send updates the statistics, a
    rejected one only rethrows. *)
Definition settle (i : nat) (ok : bool) (now : Z) (s : BatchManagerService)
  : BatchManagerService :=
  match inFlight s !! i with
  | None => s
  | Some batch =>
      let st := stats s in
      let st' :=
        if ok then
          updateAverageBatchSize (Z.of_nat (length batch))
            {| currentSize := currentSize st;
               totalBatches := totalBatches st + 1;
               totalErrors := totalErrors st;
               averageBatchSize := averageBatchSize st;
               lastSentAt := Some now |}
        else st in
      {| config := config s; currentBatch := currentBatch s;
         batchTimeout := batchTimeout s; stats := st';
         hasSendFunction := hasSendFunction s;
         inFlight := delete i (inFlight s) |}
  end.

(** What can happen to the service. *)
Inductive Event :=
| AddToBatch (error : ErrorData)
| Flush
| TimeoutFires
| Settle (i : nat) (ok : bool) (now : Z).

Definition step (s : BatchManagerService) (e : Event) : BatchManagerService :=
  match e with
  | AddToBatch error => addToBatch error s
  | Flush => flush s
  | TimeoutFires => timeoutFires s
  | Settle i ok now => settle i ok now s
  end.

Definition run (events : list Event) (s : BatchManagerService)
  : BatchManagerService :=
  fold_left step events s.

(** The event is a send that succeeded: the promise of an in-flight
    batch resolves. *)
Definition isSuccessfulSend (s : BatchManagerService) (e : Event) : bool :=
  match e with
  | Settle i true _ => bool_decide (is_Some (inFlight s !! i))
  | _ => false
  end.

(** The number of successful sends in a run that starts in [s]. *)
Fixpoint successfulSends (events : list Event) (s : BatchManagerService) : Z :=
  match events with
  | [] => 0
  | e :: events' =>
      (if isSuccessfulSend s e then 1 else 0) + successfulSends events' (step s e)
  end.

(** The items that the events add, oldest first. *)
Definition added (events : list Event) : list ErrorData :=
  flat_map (fun e => match e with AddToBatch error => [error] | _ => [] end)
    events.

Definition isSettle (e : Event) : bool :=
  match e with
  | Settle _ _ _ => true
  | _ => false
  end.

(** What holds of the service between two events: the size shown is
    the length of the batch; a timer is pending exactly while the batch
    is not empty; and a batch that waits is below both bounds. *)
Definition wellFormed (s : BatchManagerService) : Prop :=
  currentSize (stats s) = Z.of_nat (length (currentBatch s))
  /\ (batchTimeout s = true <-> currentBatch s <> [])
  /\ (currentBatch s <> [] ->
      Z.of_nat (length (currentBatch s)) < batchSize (config s)
      /\ payloadSize (currentBatch s) < maxPayloadSize (config s)).

End Service.

Arguments config {_} _.
Arguments currentBatch {_} _.
Arguments batchTimeout {_} _.
Arguments stats {_} _.
Arguments hasSendFunction {_} _.
Arguments inFlight {_} _.
Arguments create {_} _ _.
Arguments AddToBatch {_} _.
Arguments Flush {_}.
Arguments TimeoutFires {_}.
Arguments Settle {_} _ _ _.
Arguments step {_} _ _ _.
Arguments run {_} _ _ _.
Arguments settle {_} _ _ _ _.
Arguments addToBatch {_} _ _ _.
Arguments isSuccessfulSend {_} _ _.
Arguments successfulSends {_} _ _ _.
Arguments added {_} _.
Arguments isSettle {_} _.
Arguments wellFormed {_} _ _.

(** A sample run under the default configuration, with items that
    weigh nothing: ten items fill a batch, its send succeeds, and one
    more item is added. *)
Definition sampleSize (batch : list unit) : Z := 0.

Definition sampleEvents : list (Event unit) :=
  repeat (AddToBatch tt) 10 ++ [Settle 0 true 1000; AddToBatch tt].

Definition sampleRun : BatchManagerService unit :=
  run sampleSize sampleEvents (create defaultConfig true).

End BatchManager.

(** ** SDKMonitorService *)

Module SDKMonitor.

Record SDKMetrics := {
  errorsReported : Z;
  errorsDropped : Z;
  requestsSuccessful : Z;
  requestsFailed : Z;
  averageResponseTime : Z;
  queueSize : Z;
  bytesTransmitted : Z
}.

Record RequestMetrics := {
  id : jsstring;
  startTime : Z;
  endTime : option Z;
  success : option bool;
  error : option jsstring;
  payloadSize : option Z
}.

(** [serviceStartTime] is the field [startTime] of the service. *)
Record SDKMonitorService := {
  metrics : SDKMetrics;
  requests : gmap jsstring RequestMetrics;
  responseTimes : list Z;
  serviceStartTime : Z
}.

Definition MAX_RESPONSE_TIMES : Z := 100.

Definition create (now : Z) : SDKMonitorService :=
  {| metrics := {| errorsReported := 0; errorsDropped := 0;
                   requestsSuccessful := 0; requestsFailed := 0;
                   averageResponseTime := 0; queueSize := 0;
                   bytesTransmitted := 0 |};
     requests := ∅; responseTimes := []; serviceStartTime := now |}.

(** [requestId] is the string made by [generateRequestId]. *)
Definition recordRequestStart (now : Z) (requestId : jsstring)
           (s : SDKMonitorService) : SDKMonitorService :=
  let request :=
    {| id := requestId; startTime := now; endTime := None; success := None;
       error := None; payloadSize := None |} in
  {| metrics := metrics s;
     requests := <[requestId := request]> (requests s);
     responseTimes := responseTimes s;
     serviceStartTime := serviceStartTime s |}.

(** [Math.round(sum / n)] for integers [sum] and [n > 0]: the floor of
    [sum / n + 1/2]. *)
Definition roundDiv (sum n : Z) : Z := (2 * sum + n) / (2 * n).

Definition updateAverageResponseTime (times : list Z) (m : SDKMetrics)
  : SDKMetrics :=
  let average :=
    match times with
    | [] => 0
    | _ :: _ => roundDiv (fold_left Z.add times 0) (Z.of_nat (length times))
    end in
  {| errorsReported := errorsReported m; errorsDropped := errorsDropped m;
     requestsSuccessful := requestsSuccessful m;
     requestsFailed := requestsFailed m;
     averageResponseTime := average;
     queueSize := queueSize m; bytesTransmitted := bytesTransmitted m |}.

(** [push] followed by [shift] when the window is over its bound. *)
Definition pushResponseTime (responseTime : Z) (times : list Z) : list Z :=
  let times' := times ++ [responseTime] in
  if Z.of_nat (length times') >? MAX_RESPONSE_TIMES then tail times'
  else times'.

(** The record of the request is updated in place and then deleted from
    the map; the update is not visible in the state of the service. *)
Definition recordRequestSuccess (now : Z) (requestId : jsstring) (size : Z)
           (s : SDKMonitorService) : SDKMonitorService :=
  match requests s !! requestId with
  | None => s
  | Some request =>
      let m := metrics s in
      let m1 :=
        {| errorsReported := errorsReported m;
           errorsDropped := errorsDropped m;
           requestsSuccessful := requestsSuccessful m + 1;
           requestsFailed := requestsFailed m;
           averageResponseTime := averageResponseTime m;
           queueSize := queueSize m;
           bytesTransmitted := bytesTransmitted m |} in
      let responseTime := now - startTime request in
      let times := pushResponseTime responseTime (responseTimes s) in
      {| metrics := updateAverageResponseTime times m1;
         requests := delete requestId (requests s);
         responseTimes := times;
         serviceStartTime := serviceStartTime s |}
  end.

Definition recordRequestFailure (now : Z) (requestId : jsstring)
           (err : jsstring) (s : SDKMonitorService) : SDKMonitorService :=
  match requests s !! requestId with
  | None => s
  | Some request =>
      let m := metrics s in
      let m1 :=
        {| errorsReported := errorsReported m;
           errorsDropped := errorsDropped m;
           requestsSuccessful := requestsSuccessful m;
           requestsFailed := requestsFailed m + 1;
           averageResponseTime := averageResponseTime m;
           queueSize := queueSize m;
           bytesTransmitted := bytesTransmitted m |} in
      let responseTime := now - startTime request in
      let times := pushResponseTime responseTime (responseTimes s) in
      {| metrics := updateAverageResponseTime times m1;
         requests := delete requestId (requests s);
         responseTimes := times;
         serviceStartTime := serviceStartTime s |}
  end.

(** The calls that start and complete requests. *)
Inductive Call :=
| RecordRequestStart (now : Z) (requestId : jsstring)
| RecordRequestSuccess (now : Z) (requestId : jsstring) (size : Z)
| RecordRequestFailure (now : Z) (requestId : jsstring) (err : jsstring).

Definition step (s : SDKMonitorService) (c : Call) : SDKMonitorService :=
  match c with
  | RecordRequestStart now i => recordRequestStart now i s
  | RecordRequestSuccess now i size => recordRequestSuccess now i size s
  | RecordRequestFailure now i err => recordRequestFailure now i err s
  end.

Definition setMetrics (m : SDKMetrics) (s : SDKMonitorService)
  : SDKMonitorService :=
  {| metrics := m; requests := requests s; responseTimes := responseTimes s;
     serviceStartTime := serviceStartTime s |}.

Definition recordErrorReported (size : Z) (s : SDKMonitorService)
  : SDKMonitorService :=
  let m := metrics s in
  setMetrics
    {| errorsReported := errorsReported m + 1;
       errorsDropped := errorsDropped m;
       requestsSuccessful := requestsSuccessful m;
       requestsFailed := requestsFailed m;
       averageResponseTime := averageResponseTime m;
       queueSize := queueSize m;
       bytesTransmitted := bytesTransmitted m + size |} s.

(** The reason given by the caller is not used. *)
Definition recordErrorDropped (s : SDKMonitorService) : SDKMonitorService :=
  let m := metrics s in
  setMetrics
    {| errorsReported := errorsReported m;
       errorsDropped := errorsDropped m + 1;
       requestsSuccessful := requestsSuccessful m;
       requestsFailed := requestsFailed m;
       averageResponseTime := averageResponseTime m;
       queueSize := queueSize m;
       bytesTransmitted := bytesTransmitted m |} s.

Definition recordQueueSize (size : Z) (s : SDKMonitorService)
  : SDKMonitorService :=
  let m := metrics s in
  setMetrics
    {| errorsReported := errorsReported m;
       errorsDropped := errorsDropped m;
       requestsSuccessful := requestsSuccessful m;
       requestsFailed := requestsFailed m;
       averageResponseTime := averageResponseTime m;
       queueSize := size;
       bytesTransmitted := bytesTransmitted m |} s.

(** [reset] sets every field as the constructor does. *)
Definition reset (now : Z) (s : SDKMonitorService) : SDKMonitorService :=
  create now.

(** *** Health *)

Inductive Status := healthy | degraded | unhealthy.

(** The entries of [issues].  Each stands for the message that the
    source pushes; the figures quoted in the message are left out. *)
Inductive Issue :=
| HighErrorRate
| ElevatedErrorRate
| VerySlowResponseTime
| SlowResponseTime
| LargeQueueSize
| QueueBackingUp
| HighDropRate
| SomeErrorsDropped.

Record HealthStatus := {
  status : Status;
  issues : list Issue;
  uptime : Z
}.

(** [x > y] on rationals. *)
Definition Qgtb (x y : Q) : bool := negb (Qle_bool x y).

(** [if (status === 'healthy') status = 'degraded'] *)
Definition degrade (st : Status) : Status :=
  match st with
  | healthy => degraded
  | _ => st
  end.

(** The rates are quotients of counters; they are compared as exact
    rationals, which is what the comparison of the rounded quotients
    with the rounded constants gives for counters below [2^50]. *)
Definition getHealthStatus (now : Z) (s : SDKMonitorService) : HealthStatus :=
  let m := metrics s in
  let status0 := healthy in
  let issues0 : list Issue := [] in
  let totalRequests := requestsSuccessful m + requestsFailed m in
  let '(status1, issues1) :=
    if totalRequests >? 0 then
      let errorRate := (inject_Z (requestsFailed m) / inject_Z totalRequests)%Q in
      if Qgtb errorRate (1 # 2) then (unhealthy, issues0 ++ [HighErrorRate])
      else if Qgtb errorRate (1 # 5)
           then (degraded, issues0 ++ [ElevatedErrorRate])
           else (status0, issues0)
    else (status0, issues0) in
  let '(status2, issues2) :=
    if averageResponseTime m >? 10000
    then (unhealthy, issues1 ++ [VerySlowResponseTime])
    else if averageResponseTime m >? 5000
         then (degrade status1, issues1 ++ [SlowResponseTime])
         else (status1, issues1) in
  let '(status3, issues3) :=
    if queueSize m >? 100 then (unhealthy, issues2 ++ [LargeQueueSize])
    else if queueSize m >? 50
         then (degrade status2, issues2 ++ [QueueBackingUp])
         else (status2, issues2) in
  let '(status4, issues4) :=
    if errorsDropped m >? 0 then
      let dropRate :=
        (inject_Z (errorsDropped m)
         / inject_Z (errorsReported m + errorsDropped m))%Q in
      if Qgtb dropRate (3 # 10) then (unhealthy, issues3 ++ [HighDropRate])
      else if Qgtb dropRate (1 # 10)
           then (degrade status3, issues3 ++ [SomeErrorsDropped])
           else (status3, issues3)
    else (status3, issues3) in
  {| status := status4; issues := issues4;
     uptime := now - serviceStartTime s |}.

(** How bad an issue is, and the worst of a list of issues. *)
Definition severity (i : Issue) : Status :=
  match i with
  | HighErrorRate | VerySlowResponseTime | LargeQueueSize | HighDropRate =>
      unhealthy
  | _ => degraded
  end.

Definition worse (a b : Status) : Status :=
  match a, b with
  | unhealthy, _ | _, unhealthy => unhealthy
  | degraded, _ | _, degraded => degraded
  | healthy, healthy => healthy
  end.

Definition worst (l : list Issue) : Status :=
  fold_left (fun st i => worse st (severity i)) l healthy.

(** *** Every method that changes the monitor *)

Inductive Method :=
| RecordErrorReported (size : Z)
| RecordErrorDropped
| Request (c : Call)
| RecordQueueSize (size : Z)
| Reset (now : Z).

Definition perform (s : SDKMonitorService) (m : Method) : SDKMonitorService :=
  match m with
  | RecordErrorReported size => recordErrorReported size s
  | RecordErrorDropped => recordErrorDropped s
  | Request c => step s c
  | RecordQueueSize size => recordQueueSize size s
  | Reset now => reset now s
  end.

Definition performAll (ms : list Method) (s : SDKMonitorService)
  : SDKMonitorService :=
  fold_left perform ms s.

(** Whether [requestId] is issued and not yet completed after the method
    [m], given whether it was so before it: [recordRequestStart] issues
    its identifier, the two completion methods complete theirs, [reset]
    forgets every request, and the other methods keep the requests. *)
Definition pendingStep (requestId : jsstring) (before : bool) (m : Method)
  : bool :=
  match m with
  | Request (RecordRequestStart _ i) => bool_decide (i = requestId) || before
  | Request (RecordRequestSuccess _ i _)
  | Request (RecordRequestFailure _ i _) =>
      negb (bool_decide (i = requestId)) && before
  | Reset _ => false
  | RecordErrorReported _ | RecordErrorDropped | RecordQueueSize _ => before
  end.

(** The same after the methods [ms], in their order. *)
Definition pending (requestId : jsstring) (ms : list Method) (before : bool)
  : bool :=
  fold_left (pendingStep requestId) ms before.

End SDKMonitor.

(** ** SecurityValidatorService *)

Module SecurityValidator.

(** *** Character classes of the regular expressions *)

(** Upper-case image of an ASCII letter; every other code unit is its
    own image.  Under the flag [i] (without [u]) a code unit outside
    ASCII never matches an ASCII character of the pattern. *)
Definition upper (c : N) : N :=
  if (97 <=? c)%N && (c <=? 122)%N then (c - 32)%N else c.

Definition ci_eqb (p c : N) : bool := N.eqb (upper p) (upper c).

(** The pattern [p], all of it literal, matches at the head of [s]
    regardless of case. *)
Fixpoint starts_with_ci (p s : jsstring) : bool :=
  match p, s with
  | [], _ => true
  | a :: p', b :: s' => ci_eqb a b && starts_with_ci p' s'
  | _ :: _, [] => false
  end.

(** [\w]: ASCII letters, digits and the underscore. *)
Definition is_word (c : N) : bool :=
  ((48 <=? c) && (c <=? 57) || (65 <=? c) && (c <=? 90)
   || (97 <=? c) && (c <=? 122) || (c =? 95))%N.

(** Line terminators, which [.] does not match. *)
Definition is_line_terminator (c : N) : bool :=
  ((c =? 10) || (c =? 13) || (c =? 8232) || (c =? 8233))%N.

(** [\s]: white space and line terminators. *)
Definition is_space (c : N) : bool :=
  ((c =? 9) || (c =? 10) || (c =? 11) || (c =? 12) || (c =? 13) || (c =? 32)
   || (c =? 160) || (c =? 5760) || (8192 <=? c) && (c <=? 8202)
   || (c =? 8232) || (c =? 8233) || (c =? 8239) || (c =? 8287)
   || (c =? 12288) || (c =? 65279))%N.

(** [[^>]] *)
Definition not_gt (c : N) : bool := negb (c =? 62)%N.

(** *** The four patterns, tried at the head of a string

    Each function returns the length of the match.  None of the patterns
    needs backtracking: a greedy run that stops before its end would
    leave, as the next unit to match, a unit of the run itself, which the
    next piece of the pattern does not accept. *)

(** [.*?<\/script>] : the units up to the first closing tag, none of them
    a line terminator, and the tag.  The result counts them. *)
Fixpoint lazy_close (s : jsstring) : option nat :=
  if starts_with_ci (js "</script>") s then Some 9%nat
  else
    match s with
    | [] => None
    | c :: s' =>
        if is_line_terminator c then None
        else
          match lazy_close s' with
          | Some n => Some (S n)
          | None => None
          end
    end.

(** [/<script[^>]*>.*?<\/script>/i] *)
Definition script_at (s : jsstring) : option nat :=
  if starts_with_ci (js "<script") s then
    let '(attrs, r1) := span not_gt (drop 7 s) in
    match r1 with
    | [] => None
    | _ :: r2 =>
        match lazy_close r2 with
        | Some n => Some (7 + length attrs + 1 + n)%nat
        | None => None
        end
    end
  else None.

(** A literal pattern under the flag [i]. *)
Definition literal_at (p : jsstring) (s : jsstring) : option nat :=
  if starts_with_ci p s then Some (length p) else None.

(** [/on\w+\s*=/i] *)
Definition event_at (s : jsstring) : option nat :=
  if starts_with_ci (js "on") s then
    let '(name, r1) := span is_word (drop 2 s) in
    let '(blank, r2) := span is_space r1 in
    match name, r2 with
    | _ :: _, c :: _ =>
        if (c =? 61)%N then Some (2 + length name + length blank + 1)%nat
        else None
    | _, _ => None
    end
  else None.

(** [str.replace(/.../g, replacement)] for a pattern given by its matcher
    [at_head]: the string is scanned from the left; where the pattern
    matches, the replacement is emitted and the scan goes on behind the
    match; elsewhere the unit is copied.  [skip] counts the units of the
    current match that are still to be passed over. *)
Fixpoint replace_from (at_head : jsstring -> option nat)
         (replacement : jsstring) (skip : nat) (s : jsstring) : jsstring :=
  match s with
  | [] => []
  | c :: s' =>
      match skip with
      | S k => replace_from at_head replacement k s'
      | O =>
          match at_head s with
          | Some (S n) => replacement ++ replace_from at_head replacement n s'
          | _ => c :: replace_from at_head replacement 0%nat s'
          end
      end
  end.

Definition replaceAll (at_head : jsstring -> option nat)
           (replacement : jsstring) (s : jsstring) : jsstring :=
  replace_from at_head replacement 0%nat s.

(** The bound of [slice(0, 10000)]. *)
Definition MAX_STRING_LENGTH : nat := Z.to_nat 10000.

Definition sanitizeString (str : jsstring) : jsstring :=
  take MAX_STRING_LENGTH
    (replaceAll event_at (js "event_removed=")
       (replaceAll (literal_at (js "vbscript:")) (js "vbscript_removed:")
          (replaceAll (literal_at (js "javascript:")) (js "javascript_removed:")
             (replaceAll script_at (js "[script removed]") str)))).

(** *** Sensitive keys *)

Definition sensitiveKeys : list jsstring :=
  List.map js
    [ "password"; "passwd"; "pwd"; "secret"; "token"; "key"; "api_key";
      "apikey"; "auth"; "authorization"; "cookie"; "session"; "csrf"; "ssn";
      "social_security"; "credit_card"; "card_number"; "cvv"; "pin" ]%string.

(** [toLowerCase] on one code unit.  ASCII capitals, the Kelvin sign
    (U+212A, lower case [k]) and the dotted capital I (U+0130, lower case
    [i] followed by U+0307) are the only code units whose lower case
    contains an ASCII unit.  Every other unit is kept: its lower case
    lies outside ASCII as the unit itself does, so that the searches of
    [isSensitiveKey], all for ASCII words, give the same answer. *)
Definition lower_unit (c : N) : jsstring :=
  if (65 <=? c)%N && (c <=? 90)%N then [(c + 32)%N]
  else if (c =? 8490)%N then [107%N]
  else if (c =? 304)%N then [105%N; 775%N]
  else [c].

Definition toLowerCase (s : jsstring) : jsstring := flat_map lower_unit s.

Definition isSensitiveKey (key : jsstring) : bool :=
  let lowerKey := toLowerCase key in
  existsb (fun sensitive => includes lowerKey sensitive) sensitiveKeys.

(** *** Values *)

(** The values that [sanitizeData] walks.  An object is the list of its
    own enumerable entries in the order of [Object.entries]. *)
Inductive Value :=
| VNull
| VUndefined
| VString (s : jsstring)
| VNumber (n : Q)
| VBoolean (b : bool)
| VArray (items : list Value)
| VObject (entries : list (jsstring * Value)).

(** [sanitized[key] = value] on a plain object: an entry with that key
    is overwritten where it stands, a new key is added at the end.  The
    key [__proto__] names the accessor of [Object.prototype]; assigning
    to it adds no entry. *)
Fixpoint assign (key : jsstring) (value : Value)
         (entries : list (jsstring * Value)) : list (jsstring * Value) :=
  match entries with
  | [] => [(key, value)]
  | (k, v) :: entries' =>
      if bool_decide (k = key) then (key, value) :: entries'
      else (k, v) :: assign key value entries'
  end.

Definition setProperty (key : jsstring) (value : Value)
           (entries : list (jsstring * Value)) : list (jsstring * Value) :=
  if bool_decide (key = js "__proto__") then entries
  else assign key value entries.

(** The values of the remaining types (functions, symbols, big
    integers), which the source turns into strings, are not part of
    [Value]. *)
Fixpoint sanitizeData (data : Value) : Value :=
  match data with
  | VNull => VNull
  | VUndefined => VUndefined
  | VString s => VString (sanitizeString s)
  | VNumber n => VNumber n
  | VBoolean b => VBoolean b
  | VArray items => VArray (List.map sanitizeData items)
  | VObject entries =>
      VObject
        (fold_left
           (fun sanitized (entry : jsstring * Value) =>
              let '(key, value) := entry in
              if isSensitiveKey key then sanitized
              else setProperty (sanitizeString key) (sanitizeData value)
                     sanitized)
           entries [])
  end.

(** The body of the loop of [sanitizeData] over the entries of an
    object, by name. *)
Definition keep (sanitized : list (jsstring * Value))
           (entry : jsstring * Value) : list (jsstring * Value) :=
  let '(key, value) := entry in
  if isSensitiveKey key then sanitized
  else setProperty (sanitizeString key) (sanitizeData value) sanitized.

(** *** Notions used to state the properties of the sanitizer *)

(** The keys of all objects in a value, at any depth. *)
Fixpoint allKeys (data : Value) : list jsstring :=
  match data with
  | VArray items => flat_map allKeys items
  | VObject entries =>
      flat_map (fun entry : jsstring * Value => entry.1 :: allKeys entry.2)
        entries
  | _ => []
  end.

(** The value without the entries whose key is sensitive, at any depth. *)
Fixpoint dropSensitive (data : Value) : Value :=
  match data with
  | VArray items => VArray (List.map dropSensitive items)
  | VObject entries =>
      VObject
        (flat_map
           (fun entry : jsstring * Value =>
              if isSensitiveKey entry.1 then []
              else [(entry.1, dropSensitive entry.2)])
           entries)
  | _ => data
  end.

Definition noLineTerminator (s : jsstring) : bool :=
  forallb (fun c => negb (is_line_terminator c)) s.

(** Sample values. *)
Definition lineFeed : jsstring := [10%N].


Definition cookieLikeKey : Value :=
  VObject [(js "cookionx=", VNumber 1)].

Definition samplePayload : Value :=
  VObject
    [ (js "message", VString (js "<script src=x>alert(1)</script> failed"));
      (js "PassWord", VString (js "hunter2"));
      (js "onload =", VArray [VString (js "javascript:void(0)"); VNull]);
      (js "user",
       VObject [(js "apiKey", VString (js "k")); (js "name", VBoolean true)]) ].

(** A payload as [sendReportDirectly] builds it, with a stack trace of
    several lines and a script element that is open across a line
    feed. *)
Definition stackTrace : jsstring :=
  js "TypeError: x is undefined" ++ lineFeed
  ++ js "    at UserService.load (user.service.ts:10:5)" ++ lineFeed
  ++ js "    at <script>" ++ lineFeed ++ js "render</script> (main.js:1:2)".


(** *** Validation *)

Record SecurityConfig := {
  requireHttps : bool;
  validateToken : bool;
  maxPayloadSize : Z
}.

Record ValidationResult := {
  isValid : bool;
  error : option jsstring
}.

Definition valid : ValidationResult := {| isValid := true; error := None |}.

Definition invalid (why : jsstring) : ValidationResult :=
  {| isValid := false; error := Some why |}.

Definition is_high_surrogate (c : N) : bool :=
  ((55296 <=? c) && (c <=? 56319))%N.

Definition is_low_surrogate (c : N) : bool :=
  ((56320 <=? c) && (c <=? 57343))%N.

(** [new Blob([payload]).size]: the number of bytes of the string in
    UTF-8.  A surrogate pair is one character of four bytes; a surrogate
    without its partner is written as U+FFFD, three bytes. *)
Fixpoint utf8Size (s : jsstring) : Z :=
  match s with
  | [] => 0
  | c :: s' =>
      if (c <? 128)%N then 1 + utf8Size s'
      else if (c <? 2048)%N then 2 + utf8Size s'
      else if is_high_surrogate c then
        match s' with
        | d :: s'' =>
            if is_low_surrogate d then 4 + utf8Size s'' else 3 + utf8Size s'
        | [] => 3
        end
      else 3 + utf8Size s'
  end.

Definition validatePayloadSize (config : SecurityConfig) (payload : jsstring)
  : ValidationResult :=
  let size := utf8Size payload in
  if size >? maxPayloadSize config then
    invalid (js "Payload size (" ++ JsNumber.numberToString size
             ++ js " bytes) exceeds maximum allowed ("
             ++ JsNumber.numberToString (maxPayloadSize config)
             ++ js " bytes)")
  else valid.

(** The patterns of [containsSuspiciousPatterns], tried at the head of a
    string. *)

(** [/on\w+=/i] *)
Definition handler_at (s : jsstring) : bool :=
  starts_with_ci (js "on") s &&
  let '(name, r1) := span is_word (drop 2 s) in
  match name, r1 with
  | _ :: _, c :: _ => (c =? 61)%N
  | _, _ => false
  end.

Definition suspiciousPatterns : list (jsstring -> bool) :=
  [ starts_with_ci (js "<script");
    starts_with_ci (js "javascript:");
    starts_with_ci (js "vbscript:");
    handler_at;
    starts_with_ci (js "eval(");
    starts_with_ci (js "exec(") ].

(** [pattern.test(s)] for a pattern without anchors: it matches at the
    head of [s] or of one of its suffixes, the empty one included. *)
Fixpoint test (at_head : jsstring -> bool) (s : jsstring) : bool :=
  at_head s ||
  match s with
  | [] => false
  | _ :: s' => test at_head s'
  end.

Definition containsSuspiciousPatterns (token : jsstring) : bool :=
  existsb (fun pattern => test pattern token) suspiciousPatterns.

(** The test [typeof token !== 'string'] never holds of a string. *)
Definition validateProjectToken (token : jsstring) : ValidationResult :=
  match token with
  | [] => invalid (js "Project token is required")
  | _ :: _ =>
      if Z.of_nat (length token) <? 10
      then invalid (js "Project token is too short")
      else if Z.of_nat (length token) >? 1000
      then invalid (js "Project token is too long")
      else if containsSuspiciousPatterns token
      then invalid (js "Project token contains suspicious patterns")
      else valid
  end.

(** The four expressions of [privateRanges], all anchored at the start
    of the host name. *)

(** [[lo-hi]] *)
Definition in_range (lo hi c : N) : bool := ((lo <=? c) && (c <=? hi))%N.

(** [/^172\.(1[6-9]|2[0-9]|3[0-1])\./] *)
Definition range172 (hostname : jsstring) : bool :=
  starts_with (js "172.") hostname &&
  match drop 4 hostname with
  | c1 :: c2 :: c3 :: _ =>
      ((c1 =? 49)%N && in_range 54 57 c2
       || (c1 =? 50)%N && in_range 48 57 c2
       || (c1 =? 51)%N && in_range 48 49 c2)
      && (c3 =? 46)%N
  | _ => false
  end.

Definition privateRanges : list (jsstring -> bool) :=
  [ starts_with (js "10.");
    range172;
    starts_with (js "192.168.");
    starts_with (js "169.254.") ].

Definition isPrivateOrLocalhost (hostname : jsstring) : bool :=
  if bool_decide (hostname = js "localhost")
     || bool_decide (hostname = js "127.0.0.1")
     || bool_decide (hostname = js "::1")
  then true
  else existsb (fun range => range hostname) privateRanges.

(** An IPv4 address in dotted decimal notation. *)
Definition dottedQuad (a b c d : N) : jsstring :=
  JsNumber.toStringRadix 10 a ++ js "." ++ JsNumber.toStringRadix 10 b
  ++ js "." ++ JsNumber.toStringRadix 10 c ++ js "."
  ++ JsNumber.toStringRadix 10 d.

(** The units that one of the suspicious patterns needs: [<], [:], [=]
    and [(]. *)
Definition is_plain (c : N) : bool :=
  negb ((c =? 60) || (c =? 58) || (c =? 61) || (c =? 40))%N.

End SecurityValidator.

(** ** Scanning: notions for the proofs about [replaceAll] *)

Module Scan.
Import SecurityValidator.

(** A matcher found a match (of positive length). *)
Definition hit (r : option nat) : bool :=
  match r with
  | Some (S _) => true
  | _ => false
  end.

(** [Q] holds of every non-empty suffix of [s]. *)
Fixpoint everywhere (Q : jsstring -> bool) (s : jsstring) : bool :=
  match s with
  | [] => true
  | _ :: s' => Q s && everywhere Q s'
  end.

(** The pattern of [at_head] matches nowhere in [s]. *)
Definition free (at_head : jsstring -> option nat) (s : jsstring) : bool :=
  everywhere (fun x => negb (hit (at_head x))) s.

(** The non-empty suffixes of a string. *)
Fixpoint tails (s : jsstring) : list jsstring :=
  match s with
  | [] => []
  | _ :: s' => s :: tails s'
  end.

(** [p] and [t] differ, case apart, at a position that both have: [p]
    matches at the head of no string that starts with [t]. *)
Fixpoint mismatch (p t : jsstring) : bool :=
  match p, t with
  | a :: p', b :: t' => negb (ci_eqb a b) || mismatch p' t'
  | _, _ => false
  end.

(** The literal pattern [p] can neither start inside the replacement
    text nor run into it. *)
Definition compatible (p replacement : jsstring) : bool :=
  forallb (mismatch p) (tails replacement)
  && forallb (fun q => mismatch q replacement) (tails p).

(** What follows the first [>]. *)
Definition after_first_gt (s : jsstring) : jsstring :=
  match (span not_gt s).2 with
  | [] => []
  | _ :: r => r
  end.

Definition closer : jsstring := js "</script>".
Definition opener : jsstring := js "<script".

(** The closing tag occurs in [s]. *)
Definition has_closer (s : jsstring) : bool :=
  negb (free (literal_at closer) s).

(** The part of [/on\w+\s*=/] after the two letters. *)
Definition event_rest (s : jsstring) : bool :=
  let '(name, r1) := span is_word s in
  let '(blank, r2) := span is_space r1 in
  match name, r2 with
  | _ :: _, c :: _ => (c =? 61)%N
  | _, _ => false
  end.

(** The texts of [sanitizeString] by name. *)
Definition scriptReplacement : jsstring := js "[script removed]".

Definition javascriptPattern : jsstring := js "javascript:".
Definition javascriptReplacement : jsstring := js "javascript_removed:".
Definition vbscriptPattern : jsstring := js "vbscript:".
Definition vbscriptReplacement : jsstring := js "vbscript_removed:".

Definition eventReplacement : jsstring := js "event_removed=".

(** The first unit is the equals sign. *)
Definition starts_with_equals (s : jsstring) : bool :=
  match s with
  | c :: _ => (c =? 61)%N
  | [] => false
  end.

(** The first pass of [sanitizeString] leaves no match of the script
    pattern in the string. *)
Definition leftClean (s : jsstring) : bool :=
  free script_at (sanitizeString s).


(** The number of [<] in a string. *)
Definition opens (s : jsstring) : nat :=
  length (List.filter (fun c => (c =? 60)%N) s).

Definition protoKey : jsstring := js "__proto__".

(** What holds of the entries built from [source]: the keys are distinct,
    [__proto__] is not among them, and every entry is the sanitized form
    of an entry of [source] whose key is not sensitive. *)
Definition built (source sanitized : list (jsstring * Value)) : Prop :=
  NoDup (List.map fst sanitized)
  /\ (protoKey ∉ List.map fst sanitized)
  /\ Forall (fun e' =>
               exists e, e ∈ source /\ isSensitiveKey e.1 = false
                         /\ e'.1 = sanitizeString e.1
                         /\ e'.2 = sanitizeData e.2)
            sanitized.

End Scan.

(** ** RateLimiterService: error fingerprints *)

Module ErrorFingerprint.
Import SecurityValidator.

(** An [Error] object as [createErrorFingerprint] reads it:
    [error.constructor.name], [error.message] and [error.stack], which
    can be missing. *)
Record ErrorObject := {
  constructorName : jsstring;
  message : jsstring;
  stack : option jsstring
}.

(** [s.split('\n')]: the parts between the line feeds, at least one. *)
Fixpoint split_lines (s : jsstring) : list jsstring :=
  match s with
  | [] => [[]]
  | c :: s' =>
      if (c =? 10)%N then [] :: split_lines s'
      else
        match split_lines s' with
        | line :: lines => (c :: line) :: lines
        | [] => [[c]]
        end
  end.

(** [s.trim()]: white space and line terminators go from both ends. *)
Fixpoint trimStart (s : jsstring) : jsstring :=
  match s with
  | [] => []
  | c :: s' => if is_space c then trimStart s' else s
  end.

Definition trimEnd (s : jsstring) : jsstring := rev (trimStart (rev s)).

Definition trim (s : jsstring) : jsstring := trimEnd (trimStart s).

(** [/:\d+:\d+/] at the head of a string.  Both runs of digits are
    greedy; a shorter first run would have a digit where the second
    colon must stand. *)
Definition line_column_at (s : jsstring) : option nat :=
  match s with
  | [] => None
  | c :: s1 =>
      if (c =? 58)%N then
        let '(line, r1) := span is_digit s1 in
        match line, r1 with
        | _ :: _, c2 :: s2 =>
            if (c2 =? 58)%N then
              match (span is_digit s2).1 with
              | [] => None
              | column => Some (1 + length line + 1 + length column)%nat
              end
            else None
        | _, _ => None
        end
      else None
  end.

(** [/:\d+/] at the head of a string. *)
Definition line_at (s : jsstring) : option nat :=
  match s with
  | [] => None
  | c :: s1 =>
      if (c =? 58)%N then
        match (span is_digit s1).1 with
        | [] => None
        | line => Some (1 + length line)%nat
        end
      else None
  end.

Definition normalizeFrame (frame : jsstring) : jsstring :=
  replaceAll line_at (js ":XX")
    (replaceAll line_column_at (js ":XX:XX") frame).

(** The test of the filter on one line; an empty string is falsy. *)
Definition isMeaningfulFrame (line : jsstring) : bool :=
  let trimmed := trim line in
  match trimmed with
  | [] => false
  | _ :: _ =>
      includes trimmed (js "at ")
      && negb (includes trimmed (js "chrome-extension://"))
      && negb (includes trimmed (js "webpack://"))
      && negb (includes trimmed (js "node_modules/@angular"))
      && (includes trimmed (js ".ts") || includes trimmed (js ".js")
          || includes trimmed (js ".component"))
  end.

(** [parts.join(separator)] *)
Fixpoint join (separator : jsstring) (parts : list jsstring) : jsstring :=
  match parts with
  | [] => []
  | [part] => part
  | part :: parts' => part ++ separator ++ join separator parts'
  end.

Definition extractStackSignature (stackTrace : jsstring) (depth : nat)
  : jsstring :=
  match stackTrace with
  | [] => []
  | _ :: _ =>
      let lines := split_lines stackTrace in
      let meaningfulFrames := List.filter isMeaningfulFrame lines in
      let frames := take depth meaningfulFrames in
      let normalizedFrames := List.map normalizeFrame frames in
      join (js "|") normalizedFrames
  end.

(** The integer in [[-2^31, 2^31)] that is congruent to [z] modulo
    [2^32]: what the bit operators make of a number. *)
Definition toInt32 (z : Z) : Z := (z + 2 ^ 31) mod 2 ^ 32 - 2 ^ 31.

(** [hash = ((hash << 5) - hash) + char; hash = hash & hash] *)
Definition hashStep (hash : Z) (char : N) : Z :=
  let shifted := toInt32 (hash * 2 ^ 5) in
  toInt32 (shifted - hash + Z.of_N char).

Definition createErrorFingerprint (error : ErrorObject) : jsstring :=
  let stackSignature := extractStackSignature (default [] (stack error)) 3 in
  let messageSignature := take 100 (message error) in
  let errorType := constructorName error in
  let combined :=
    stackSignature ++ js "|" ++ messageSignature ++ js "|" ++ errorType in
  let hash := fold_left hashStep combined 0 in
  take 32 (JsNumber.toStringRadix 36 (Z.to_N (Z.abs hash))).

(** The digits of radix 36. *)
Definition is_base36 (c : N) : bool :=
  is_digit c || ((97 <=? c) && (c <=? 122))%N.

(** The first unit is a digit. *)
Definition starts_with_digit (s : jsstring) : bool :=
  match s with
  | c :: _ => is_digit c
  | [] => false
  end.

(** Sample errors: the same failure seen in two builds, whose lines and
    columns differ. *)
Definition sampleStack (position : string) : jsstring :=
  js "TypeError: x is undefined" ++ [10%N]
  ++ js "    at UserService.load (user.service.ts:" ++ js position ++ js ")"
  ++ [10%N]
  ++ js "    at ZoneDelegate.invoke (node_modules/@angular/core/zone.js:1:2)".

Definition sampleError (position : string) : ErrorObject :=
  {| constructorName := js "TypeError"; message := js "x is undefined";
     stack := Some (sampleStack position) |}.

End ErrorFingerprint.

(** ** ErrorExplorerService: the errors of the transport *)

Module ErrorExplorer.
Import RetryManager.

(** What the [catch] block of [sendReportDirectly] reads of the value
    that it caught: [error.status] and [error.message], either of which
    can be missing. *)
Record Caught := {
  status : option Z;
  caughtMessage : option jsstring
}.

(** [error.status || 'unknown']: a missing status and the status 0 are
    falsy. *)
Definition statusText (c : Caught) : jsstring :=
  match status c with
  | Some n => if n =? 0 then js "unknown" else JsNumber.numberToString n
  | None => js "unknown"
  end.

(** [error.message || 'Request failed'] *)
Definition messageText (c : Caught) : jsstring :=
  match caughtMessage c with
  | Some (u :: m) => u :: m
  | _ => js "Request failed"
  end.

(** The error that the [catch] block of [sendReportDirectly] throws in
    place of the one that it caught. *)
Definition rethrown (c : Caught) : JsError :=
  match status c with
  | Some 429 => {| message := js "Rate limit exceeded by server" |}
  | Some 413 => {| message := js "Payload too large" |}
  | _ => {| message := js "HTTP " ++ statusText c ++ js ": " ++ messageText c |}
  end.

End ErrorExplorer.

(** ** BreadcrumbManager *)

Module BreadcrumbManager.

Section Service.
(** [Data] is the type of the free-form field [data]. *)
Variable Data : Type.

(** A breadcrumb as the caller gives it, without its time stamp. *)
Record Crumb := {
  message : jsstring;
  category : jsstring;
  level : jsstring;
  data : option Data
}.

Record Breadcrumb := {
  crumb : Crumb;
  timestamp : Z
}.

Record BreadcrumbManager := {
  breadcrumbs : list Breadcrumb;
  maxBreadcrumbs : Z
}.

Definition create (max : Z) : BreadcrumbManager :=
  {| breadcrumbs := []; maxBreadcrumbs := max |}.

Definition addBreadcrumb (now : Z) (breadcrumb : Crumb) (s : BreadcrumbManager)
  : BreadcrumbManager :=
  let fullBreadcrumb := {| crumb := breadcrumb; timestamp := now |} in
  let pushed := breadcrumbs s ++ [fullBreadcrumb] in
  {| breadcrumbs :=
       if Z.of_nat (length pushed) >? maxBreadcrumbs s then tail pushed
       else pushed;
     maxBreadcrumbs := maxBreadcrumbs s |}.

Definition getBreadcrumbs (s : BreadcrumbManager) : list Breadcrumb :=
  breadcrumbs s.

Definition clear (s : BreadcrumbManager) : BreadcrumbManager :=
  {| breadcrumbs := []; maxBreadcrumbs := maxBreadcrumbs s |}.

(** Successive calls of [addBreadcrumb]; each entry is the clock read
    and the breadcrumb of one call. *)
Definition addAll (calls : list (Z * Crumb)) (s : BreadcrumbManager)
  : BreadcrumbManager :=
  fold_left (fun s c => addBreadcrumb c.1 c.2 s) calls s.

(** The breadcrumbs that the calls make. *)
Definition stamped (calls : list (Z * Crumb)) : list Breadcrumb :=
  List.map (fun c => {| crumb := c.2; timestamp := c.1 |}) calls.

End Service.

Arguments message {_} _.
Arguments category {_} _.
Arguments level {_} _.
Arguments data {_} _.
Arguments crumb {_} _.
Arguments timestamp {_} _.
Arguments breadcrumbs {_} _.
Arguments maxBreadcrumbs {_} _.
Arguments create {_} _.
Arguments addBreadcrumb {_} _ _ _.
Arguments getBreadcrumbs {_} _.
Arguments clear {_} _.
Arguments addAll {_} _ _.
Arguments stamped {_} _.
Arguments Build_Crumb {_} _ _ _ _.
Arguments Build_Breadcrumb {_} _ _.

End BreadcrumbManager.

(* ===================================================================== *)
(** * Part II: properties *)
(* ===================================================================== *)

(** ** RetryManagerService *)

Module RetryManagerSpec.
Import RetryManager.

Lemma shouldRetry_server_error (cfg : RetryConfig) (e : JsError)
      (attempt status : Z) :
  attempt < maxRetries cfg - 1 ->
  httpStatus (message e) = Some status ->
  500 <= status ->
  shouldRetry cfg e attempt = true.
Proof.
  intros Hlt Hst Hge. unfold shouldRetry, httpStatus in *.
  destruct (Z.geb_spec attempt (maxRetries cfg - 1)) as [?|_]; [lia|].
  repeat match goal with
         | |- (if ?b then true else _) = true => destruct b; [reflexivity|]
         end.
  destruct (httpMatch (message e)) as [ds|]; [|discriminate].
  injection Hst as ->.
  destruct (Z.eqb_spec status 401); [lia|].
  destruct (Z.eqb_spec status 403); [lia|].
  destruct (Z.geb_spec status 500); [reflexivity|lia].
Qed.

Lemma shouldRetry_authentication (cfg : RetryConfig) (e : JsError)
      (attempt status : Z) :
  httpStatus (message e) = Some status ->
  status = 401 \/ status = 403 ->
  hasRetryablePhrase (message e) = false ->
  shouldRetry cfg e attempt = false.
Proof.
  intros Hst Hauth Hph. unfold shouldRetry, httpStatus, hasRetryablePhrase in *.
  destruct (attempt >=? maxRetries cfg - 1); [reflexivity|].
  apply orb_false_iff in Hph as [Hph H4].
  apply orb_false_iff in Hph as [Hph H3].
  apply orb_false_iff in Hph as [H1 H2].
  rewrite H1, H2, H3, H4. cbn [orb].
  destruct (httpMatch (message e)) as [ds|]; [|reflexivity].
  injection Hst as ->.
  destruct Hauth as [-> | ->]; reflexivity.
Qed.

(** The jitter term of [calculateDelay] is a quarter of the capped delay
    times a number in [-1/2, 1/2): the delay is within one eighth of the
    capped delay. *)
Lemma calculateDelay_within_an_eighth (cfg : RetryConfig) (attempt : Z)
      (random : Q) :
  let cap := Qmin (initialDelay cfg * Qpower 2 attempt) (maxDelay cfg) in
  (0 <= random)%Q -> (random < 1)%Q -> (0 <= cap)%Q ->
  ((7 # 8) * cap <= calculateDelay cfg attempt random)%Q /\
  (calculateDelay cfg attempt random <= (9 # 8) * cap)%Q.
Proof.
  intros cap H0 H1 Hcap. unfold calculateDelay. fold cap.
  set (d := (cap + cap * (1 # 4) * (random - (1 # 2)))%Q).
  assert (Hr : (0 <= cap * random)%Q) by (apply Qmult_le_0_compat; assumption).
  assert (Hr' : (cap * random <= cap)%Q).
  { rewrite <- (Qmult_1_r cap) at 2. rewrite !(Qmult_comm cap).
    apply Qmult_le_compat_r; [apply Qlt_le_weak|]; assumption. }
  assert (Hlo : ((7 # 8) * cap <= d)%Q) by (unfold d; lra).
  assert (Hhi : (d <= (9 # 8) * cap)%Q) by (unfold d; lra).
  assert (Hd : (0 <= d)%Q) by lra.
  rewrite (Q.max_r 0 d Hd). split; assumption.
Qed.

(** C7.  With the default configuration, at attempt 0 and with the random
    draw 0, the delay is 875 ms, that is 0.875 times the capped delay of
    1000 ms: the jitter of the code reaches one eighth of the capped
    delay, not the quarter that the comment in the source announces. *)
Theorem calculateDelay_lowest_draw :
  (calculateDelay defaultConfig 0 0 == 875)%Q /\
  ~ (calculateDelay defaultConfig 0 0 == 750)%Q.
Proof.
  split.
  - vm_compute. reflexivity.
  - vm_compute. discriminate.
Qed.

Section DefaultConfig.
Context {W T : Type}.
Variable operation : W -> (T + JsError) * W.
Variable random : Z -> Q.

(** C1 (as amended).  Under the default configuration [maxRetries] bounds
    the number of attempts: an operation whose first attempt fails with an
    error that [shouldRetry] reads as HTTP 401 is invoked once and the
    error is thrown with no delay; an operation that fails with HTTP 503
    twice and then succeeds returns the value after exactly two delays;
    an operation that fails three times, the first two with HTTP 503, is
    invoked three times and the third error is thrown after exactly two
    delays. *)
Theorem executeWithRetry_default_config (w0 : W) :
  let run := executeWithRetry defaultConfig operation random w0 in
  (forall e w1,
      operation w0 = (inr e, w1) ->
      httpStatus (message e) = Some 401 ->
      hasRetryablePhrase (message e) = false ->
      run = {| outcome := Threw (Some e); world := w1; delays := [] |})
  /\ (forall e1 e2 v w1 w2 w3,
      operation w0 = (inr e1, w1) ->
      operation w1 = (inr e2, w2) ->
      operation w2 = (inl v, w3) ->
      httpStatus (message e1) = Some 503 ->
      httpStatus (message e2) = Some 503 ->
      outcome run = Returned v /\ world run = w3 /\
      length (delays run) = 2%nat)
  /\ (forall e1 e2 e3 w1 w2 w3,
      operation w0 = (inr e1, w1) ->
      operation w1 = (inr e2, w2) ->
      operation w2 = (inr e3, w3) ->
      httpStatus (message e1) = Some 503 ->
      httpStatus (message e2) = Some 503 ->
      outcome run = Threw (Some e3) /\ world run = w3 /\
      length (delays run) = 2%nat).
Proof.
  intros run. subst run. unfold executeWithRetry.
  change (Z.to_nat (maxRetries defaultConfig)) with 3%nat.
  split; [|split].
  - intros e w1 Hop Hst Hph. cbn [attempts]. rewrite Hop.
    change (0 =? maxRetries defaultConfig - 1) with false. cbv iota.
    rewrite (shouldRetry_authentication defaultConfig e 0 401 Hst (or_introl eq_refl) Hph).
    reflexivity.
  - intros e1 e2 v w1 w2 w3 H1 H2 H3 S1 S2. cbn [attempts]. rewrite H1.
    change (0 =? maxRetries defaultConfig - 1) with false. cbv iota.
    rewrite (shouldRetry_server_error defaultConfig e1 0 503 eq_refl S1 ltac:(lia)).
    cbn [negb]. cbv iota. rewrite H2.
    change (0 + 1 =? maxRetries defaultConfig - 1) with false. cbv iota.
    rewrite (shouldRetry_server_error defaultConfig e2 (0 + 1) 503 eq_refl S2 ltac:(lia)).
    cbn [negb]. cbv iota. rewrite H3. cbn. auto.
  - intros e1 e2 e3 w1 w2 w3 H1 H2 H3 S1 S2. cbn [attempts]. rewrite H1.
    change (0 =? maxRetries defaultConfig - 1) with false. cbv iota.
    rewrite (shouldRetry_server_error defaultConfig e1 0 503 eq_refl S1 ltac:(lia)).
    cbn [negb]. cbv iota. rewrite H2.
    change (0 + 1 =? maxRetries defaultConfig - 1) with false. cbv iota.
    rewrite (shouldRetry_server_error defaultConfig e2 (0 + 1) 503 eq_refl S2 ltac:(lia)).
    cbn [negb]. cbv iota. rewrite H3.
    change (0 + 1 + 1 =? maxRetries defaultConfig - 1) with true. cbn. auto.
Qed.
End DefaultConfig.

Lemma executeWithRetry_default_config_witness :
  executeWithRetry defaultConfig
    (scripted [inr unauthorized; inl 1] (inl 0)) (fun _ => 0%Q) 0%nat
  = {| outcome := Threw (Some unauthorized); world := 1%nat; delays := [] |}
  /\ (let run :=
        executeWithRetry defaultConfig
          (scripted [inr serviceUnavailable; inr serviceUnavailable; inl 1]
             (inl 0)) (fun _ => 0%Q) 0%nat in
      outcome run = Returned 1 /\ world run = 3%nat /\
      length (delays run) = 2%nat)
  /\ (let run :=
        executeWithRetry defaultConfig
          (scripted [inr serviceUnavailable; inr serviceUnavailable;
                     inr serviceUnavailable; inl 1] (inl 0))
          (fun _ => 0%Q) 0%nat in
      outcome run = Threw (Some serviceUnavailable) /\ world run = 3%nat /\
      length (delays run) = 2%nat).
Proof.
  split; [|split].
  - apply (proj1 (executeWithRetry_default_config
                    (scripted [inr unauthorized; inl 1] (inl 0))
                    (fun _ => 0%Q) 0%nat));
      reflexivity.
  - apply (proj1 (proj2 (executeWithRetry_default_config
                    (scripted [inr serviceUnavailable; inr serviceUnavailable;
                               inl 1] (inl 0))
                    (fun _ => 0%Q) 0%nat))
             serviceUnavailable serviceUnavailable 1 1%nat 2%nat 3%nat);
      reflexivity.
  - apply (proj2 (proj2 (executeWithRetry_default_config
                    (scripted [inr serviceUnavailable; inr serviceUnavailable;
                               inr serviceUnavailable; inl 1] (inl 0))
                    (fun _ => 0%Q) 0%nat))
             serviceUnavailable serviceUnavailable serviceUnavailable
             1%nat 2%nat 3%nat);
      reflexivity.
Defined.

(** C1 (as stated) fails.  With the default configuration an operation
    that fails with HTTP 503 on its first three attempts and would
    succeed on the fourth is invoked three times, twice after a delay,
    and the third error is thrown: the success is never returned and no
    third delay is made. *)
Lemma executeWithRetry_three_failures_exhaust :
  let run :=
    executeWithRetry defaultConfig
      (scripted [inr serviceUnavailable; inr serviceUnavailable;
                 inr serviceUnavailable; inl 1] (inl 0))
      (fun _ => 0%Q) 0%nat in
  outcome run = Threw (Some serviceUnavailable)
  /\ world run = 3%nat
  /\ length (delays run) = 2%nat
  /\ ~ (outcome run = Returned 1 /\ length (delays run) = 3%nat).
Proof.
  vm_compute. repeat split; try reflexivity. intros [H _]. discriminate H.
Qed.

(** A status 401 does not stop the retries when the message also holds
    one of the phrases that [shouldRetry] tests first. *)
Example shouldRetry_phrase_before_status :
  httpStatus (message unauthorizedNetwork) = Some 401 /\
  shouldRetry defaultConfig unauthorizedNetwork 0 = true.
Proof. split; reflexivity. Qed.


(** *** The number of attempts *)

Section Budget.
Context {W T : Type}.
Variable config : RetryConfig.
Variable operation : W -> (T + JsError) * W.
Variable random : Z -> Q.



End Budget.


(** *** Runs against a script of results *)

Section Script.
Context {T : Type}.
Variable config : RetryConfig.
Variable random : Z -> Q.

Lemma attempts_script (errors : list JsError) (final dflt : T + JsError) :
  forall (pre : list (T + JsError)) (fuel : nat) (lastError : option JsError)
         (slept : list Q),
    Z.of_nat (length pre) + Z.of_nat fuel = maxRetries config ->
    (length errors < fuel)%nat ->
    (forall i e, errors !! i = Some e ->
                 shouldRetry config e (Z.of_nat (length pre + i)) = true) ->
    ends config final (Z.of_nat (length pre + length errors)) ->
    attempts config
      (scripted (pre ++ List.map inr errors ++ [final]) dflt) random fuel
      (Z.of_nat (length pre)) lastError (length pre) slept
    = {| outcome := settled final;
         world := S (length pre + length errors);
         delays :=
           slept
           ++ List.map
                (fun i => calculateDelay config (Z.of_nat i)
                            (random (Z.of_nat i)))
                (seq (length pre) (length errors)) |}.
Proof.
  induction errors as [|e errors IH];
    intros pre fuel lastError slept Hsum Hfuel Hretry Hend;
    (destruct fuel as [|fuel]; [cbn in Hfuel; lia|]).
  - cbn [List.map app length seq]. rewrite Nat.add_0_r in *.
    cbn [attempts]. unfold scripted at 1. rewrite nth_middle.
    rewrite app_nil_r.
    destruct final as [v|err]; cbn [settled]; [reflexivity|].
    cbn [ends] in Hend. rewrite Hend. cbn [negb].
    destruct (Z.of_nat (length pre) =? maxRetries config - 1); reflexivity.
  - cbn [List.map app length seq] in *.
    cbn [attempts]. unfold scripted at 1. rewrite nth_middle.
    destruct (Z.eqb_spec (Z.of_nat (length pre)) (maxRetries config - 1));
      [lia|].
    pose proof (Hretry 0%nat e eq_refl) as Hfirst.
    rewrite Nat.add_0_r in Hfirst. rewrite Hfirst. cbn [negb].
    specialize (IH (pre ++ [inr e]) fuel (Some e)
                  (slept
                   ++ [calculateDelay config (Z.of_nat (length pre))
                         (random (Z.of_nat (length pre)))])).
    rewrite length_app in IH. cbn [length] in IH.
    rewrite <- app_assoc in IH. cbn [app] in IH.
    replace (length pre + 1)%nat with (S (length pre)) in IH by lia.
    replace (Z.of_nat (length pre) + 1) with (Z.of_nat (S (length pre)))
      by lia.
    rewrite IH.
    + f_equal; [f_equal; lia|]. rewrite <- app_assoc. reflexivity.
    + lia.
    + lia.
    + intros i e' Hi. specialize (Hretry (S i) e' Hi).
      replace (S (length pre) + i)%nat with (length pre + S i)%nat by lia.
      exact Hretry.
    + replace (S (length pre) + length errors)%nat
        with (length pre + S (length errors))%nat by lia.
      exact Hend.
Qed.

(** X2.  Against an operation that fails with [errors], one after the
    other, and then gives [final], when every error of [errors] is one
    that [shouldRetry] accepts at its attempt and [final] is a value or
    an error that [shouldRetry] refuses: [executeWithRetry] invokes the
    operation once per error and once more, settles with [final] (the
    value returned, or the last error thrown, not the first), and has
    slept once after each error of [errors], for the delay that
    [calculateDelay] gives for that attempt. *)
Theorem executeWithRetry_follows_script (errors : list JsError)
        (final dflt : T + JsError) :
  Z.of_nat (length errors) < maxRetries config ->
  (forall i e, errors !! i = Some e ->
               shouldRetry config e (Z.of_nat i) = true) ->
  ends config final (Z.of_nat (length errors)) ->
  executeWithRetry config (scripted (List.map inr errors ++ [final]) dflt)
    random 0%nat
  = {| outcome := settled final;
       world := S (length errors);
       delays := backoff config random (length errors) |}.
Proof.
  intros Hlen Hretry Hend. unfold executeWithRetry, backoff.
  apply (attempts_script errors final dflt [] (Z.to_nat (maxRetries config))
           None []); cbn [length]; try lia; assumption.
Qed.
End Script.

Lemma executeWithRetry_follows_script_witness :
  executeWithRetry defaultConfig
    (scripted (List.map inr [serviceUnavailable; requestTimeout] ++ [inl 7])
       (inl 0))
    (fun _ => 0%Q) 0%nat
  = {| outcome := Returned 7; world := 3%nat;
       delays := backoff defaultConfig (fun _ => 0%Q) 2 |}.
Proof.
  apply (executeWithRetry_follows_script defaultConfig (fun _ => 0%Q)
           [serviceUnavailable; requestTimeout] (inl 7) (inl 0)).
  - cbn. lia.
  - intros [|[|i]] e H; cbn in H; try discriminate H;
      injection H as <-; reflexivity.
  - exact I.
Defined.

(** *** The delays *)

(** X3.  For a configuration with delays that are not negative, a
    draw in [[0, 1]] and attempts from 0 to 1023, for which
    [Math.pow(2, attempt)] is finite: the delay is not negative, it does
    not shrink from one attempt to a later one, and it never exceeds the
    greatest delay of the configuration by more than an eighth. *)
Theorem calculateDelay_grows_to_cap (config : RetryConfig) (a b : Z)
        (random : Q) :
  (0 <= initialDelay config)%Q -> (0 <= maxDelay config)%Q ->
  (0 <= random)%Q -> (random <= 1)%Q ->
  0 <= a -> a <= b -> b < 1024 ->
  (0 <= calculateDelay config a random)%Q
  /\ (calculateDelay config a random <= calculateDelay config b random)%Q
  /\ (calculateDelay config b random <= (9 # 8) * maxDelay config)%Q.
Proof.
  intros Hinit Hmax H0 H1 _ Hab _. unfold calculateDelay.
  set (capa := Qmin (initialDelay config * Qpower 2 a) (maxDelay config)).
  set (capb := Qmin (initialDelay config * Qpower 2 b) (maxDelay config)).
  assert (Hpow : (Qpower 2 a <= Qpower 2 b)%Q)
    by (apply Qpower_le_compat_l; [exact Hab|discriminate]).
  assert (Hcap : (capa <= capb)%Q).
  { apply Q.min_le_compat_r. rewrite !(Qmult_comm (initialDelay config)).
    apply Qmult_le_compat_r; assumption. }
  assert (Hcapa : (0 <= capa)%Q).
  { apply Q.min_glb; [|exact Hmax].
    apply Qmult_le_0_compat; [exact Hinit|].
    apply Qpower_0_le. discriminate. }
  assert (Hcapb : (capb <= maxDelay config)%Q) by apply Q.le_min_r.
  assert (Hd : (0 <= (capb - capa) * random)%Q)
    by (apply Qmult_le_0_compat; [lra|exact H0]).
  assert (Hb : (0 <= capb * (1 - random))%Q)
    by (apply Qmult_le_0_compat; lra).
  split; [apply Q.le_max_l|split].
  - apply Q.max_le_compat_l. lra.
  - apply Q.max_lub; lra.
Qed.

Lemma calculateDelay_grows_to_cap_witness :
  (0 <= calculateDelay defaultConfig 0 (1 # 2))%Q
  /\ (calculateDelay defaultConfig 0 (1 # 2)
      <= calculateDelay defaultConfig 6 (1 # 2))%Q
  /\ (calculateDelay defaultConfig 6 (1 # 2)
      <= (9 # 8) * maxDelay defaultConfig)%Q.
Proof.
  apply (calculateDelay_grows_to_cap defaultConfig 0 6 (1 # 2));
    try (cbn; lia); cbn; unfold Qle; cbn; lia.
Defined.

End RetryManagerSpec.

(** ** RateLimiterService *)

Module RateLimiterSpec.
Import RateLimiter.

Lemma step_config (s : RateLimiterService) (c : Z * Call) :
  config (step s c) = config s.
Proof. destruct c as [now []]; reflexivity. Qed.

Lemma run_config (calls : list (Z * Call)) (s : RateLimiterService) :
  config (run calls s) = config s.
Proof.
  revert s. induction calls as [|c calls IH]; intros s; [reflexivity|].
  unfold run in *. cbn [fold_left]. rewrite IH. apply step_config.
Qed.

Lemma truthy_Some (f : option jsstring) (g : jsstring) :
  truthy f = Some g -> f = Some g /\ g <> [].
Proof.
  destruct f as [[|c f]|]; cbn; intros H; try discriminate.
  injection H as <-. split; [reflexivity|discriminate].
Qed.

(** The last-seen time of [f] under a call that does not record [f]:
    only [cleanup] can touch it, and only by removing it. *)
Lemma step_lookup (s : RateLimiterService) (c : Z * Call) (f : jsstring) :
  c.2 <> RecordRequest (Some f) ->
  errorFingerprints (step s c) !! f =
  match c.2 with
  | Cleanup =>
      match errorFingerprints s !! f with
      | Some t =>
          if bool_decide (c.1 - duplicateErrorWindow (config s) < t)
          then Some t else None
      | None => None
      end
  | _ => errorFingerprints s !! f
  end.
Proof.
  destruct c as [now call]. cbn [fst snd]. intros Hne.
  destruct call as [| g | g | |]; cbn [step]; try reflexivity.
  - cbn. destruct (truthy g) as [g'|] eqn:Hg; [|reflexivity].
    apply truthy_Some in Hg as [-> _].
    apply lookup_insert_ne. congruence.
  - cbn. destruct (errorFingerprints s !! f) as [t|] eqn:Hf.
    + case_bool_decide as Hlt.
      * apply map_lookup_filter_Some. split; [exact Hf|exact Hlt].
      * apply map_lookup_filter_None. right. intros t' Ht'.
        rewrite Hf in Ht'. injection Ht' as <-. exact Hlt.
    + apply map_lookup_filter_None. left. exact Hf.
Qed.

Lemma run_cons (c : Z * Call) (calls : list (Z * Call))
      (s : RateLimiterService) :
  run (c :: calls) s = run calls (step s c).
Proof. reflexivity. Qed.

Lemma run_lookup_absent (calls : list (Z * Call)) (s : RateLimiterService)
      (f : jsstring) :
  neverRecords f calls ->
  errorFingerprints s !! f = None ->
  errorFingerprints (run calls s) !! f = None.
Proof.
  revert s. induction calls as [|c calls IH]; intros s Hnr Hf; [exact Hf|].
  apply Forall_cons in Hnr as [Hc Hnr]. rewrite run_cons. apply IH; [exact Hnr|].
  rewrite (step_lookup s c f Hc), Hf. destruct (c.2); reflexivity.
Qed.

Lemma run_lookup_fades (calls : list (Z * Call)) (s : RateLimiterService)
      (f : jsstring) (t : Z) :
  neverRecords f calls ->
  errorFingerprints s !! f = Some t ->
  errorFingerprints (run calls s) !! f = Some t \/
  errorFingerprints (run calls s) !! f = None.
Proof.
  revert s. induction calls as [|c calls IH]; intros s Hnr Hf; [left; exact Hf|].
  apply Forall_cons in Hnr as [Hc Hnr]. rewrite run_cons.
  pose proof (step_lookup s c f Hc) as Hstep. rewrite Hf in Hstep.
  destruct (errorFingerprints (step s c) !! f) as [t'|] eqn:Hf'.
  - assert (t' = t) as ->.
    { destruct (c.2); try congruence. case_bool_decide; congruence. }
    apply IH; assumption.
  - right. apply run_lookup_absent; assumption.
Qed.

Lemma run_lookup_kept (calls : list (Z * Call)) (s : RateLimiterService)
      (f : jsstring) (t : Z) :
  neverRecords f calls ->
  cleanupsBefore (t + duplicateErrorWindow (config s)) calls ->
  errorFingerprints s !! f = Some t ->
  errorFingerprints (run calls s) !! f = Some t.
Proof.
  revert s. induction calls as [|c calls IH]; intros s Hnr Hcl Hf; [exact Hf|].
  apply Forall_cons in Hnr as [Hc Hnr]. apply Forall_cons in Hcl as [Hb Hcl].
  rewrite run_cons. apply IH; [exact Hnr| |].
  - rewrite step_config. exact Hcl.
  - rewrite (step_lookup s c f Hc), Hf.
    destruct (c.2) eqn:Hcall; try reflexivity.
    specialize (Hb eq_refl). rewrite bool_decide_eq_true_2; [reflexivity|lia].
Qed.

(** C2 (as amended).  Let a non-empty fingerprint [f] be recorded while
    the clock reads [t], [t] not 0, and let any calls follow that do not
    record [f] again.  Then [canReportError f] is false at every time
    [t'] with [t' - t <= duplicateErrorWindow], provided no [cleanup]
    ran at [t + duplicateErrorWindow] or later, and it is true at every
    time [t'] with [t' - t > duplicateErrorWindow].  A fingerprint that
    was never recorded since the service was created yields true. *)
Theorem canReportError_duplicate_window (s0 : RateLimiterService)
        (f : jsstring) (t t' : Z) (calls : list (Z * Call)) :
  f <> [] ->
  t <> 0 ->
  neverRecords f calls ->
  let window := duplicateErrorWindow (config s0) in
  let s := run calls (recordRequest t (Some f) s0) in
  (t' - t <= window -> cleanupsBefore (t + window) calls ->
   canReportError t' f s = false)
  /\ (t' - t > window -> canReportError t' f s = true)
  /\ (forall (c : RateLimiterConfig) (g : jsstring) (calls' : list (Z * Call)),
         neverRecords g calls' ->
         canReportError t' g (run calls' (configure c create)) = true).
Proof.
  intros Hf Ht Hnr window s.
  assert (Hrec : errorFingerprints (recordRequest t (Some f) s0) !! f = Some t).
  { destruct f as [|c f]; [congruence|]. cbn. apply lookup_insert_eq. }
  assert (Hcfg : duplicateErrorWindow (config s) = window).
  { unfold s. rewrite run_config. reflexivity. }
  split; [|split].
  - intros Hle Hcl. unfold canReportError.
    unfold s at 1. rewrite (run_lookup_kept calls (recordRequest t (Some f) s0) f t Hnr Hcl Hrec).
    destruct (Z.eqb_spec t 0); [congruence|]. rewrite Hcfg.
    rewrite Z.gtb_ltb. apply Z.ltb_ge. lia.
  - intros Hgt. unfold canReportError.
    destruct (run_lookup_fades calls (recordRequest t (Some f) s0) f t Hnr Hrec) as [H|H];
      unfold s at 1; rewrite H; [|reflexivity].
    destruct (Z.eqb_spec t 0); [reflexivity|]. rewrite Hcfg.
    rewrite Z.gtb_ltb. apply Z.ltb_lt. lia.
  - intros c g calls' Hnr'. unfold canReportError.
    rewrite (run_lookup_absent calls' _ g Hnr'); [reflexivity|].
    cbn. apply lookup_empty.
Qed.

Lemma canReportError_duplicate_window_witness :
  canReportError 6000 (js "a1b2")
    (run [(2000, Cleanup); (3000, RecordRequest (Some (js "zz")))]
       (recordRequest 1000 (Some (js "a1b2")) create)) = false
  /\ canReportError 6001 (js "a1b2")
       (run [(2000, Cleanup); (3000, RecordRequest (Some (js "zz")))]
          (recordRequest 1000 (Some (js "a1b2")) create)) = true
  /\ canReportError 6001 (js "a1b2")
       (run [(3000, RecordRequest (Some (js "zz")))] (configure (config create) create))
     = true.
Proof.
  assert (Hf : js "a1b2" <> []) by discriminate.
  assert (Ht : 1000 <> 0) by discriminate.
  assert (Hnr : neverRecords (js "a1b2")
                  [(2000, Cleanup); (3000, RecordRequest (Some (js "zz")))]).
  { repeat constructor; discriminate. }
  split; [|split].
  - apply (proj1 (canReportError_duplicate_window create (js "a1b2") 1000 6000
                    [(2000, Cleanup); (3000, RecordRequest (Some (js "zz")))]
                    Hf Ht Hnr)).
    + vm_compute. discriminate.
    + repeat constructor; cbn; intros; try discriminate; reflexivity.
  - apply (proj1 (proj2 (canReportError_duplicate_window create (js "a1b2")
                    1000 6001
                    [(2000, Cleanup); (3000, RecordRequest (Some (js "zz")))]
                    Hf Ht Hnr))).
    reflexivity.
  - apply (proj2 (proj2 (canReportError_duplicate_window create (js "a1b2")
                    1000 6001
                    [(2000, Cleanup); (3000, RecordRequest (Some (js "zz")))]
                    Hf Ht Hnr))).
    repeat constructor; discriminate.
Defined.

(** C2 (as stated) fails in three places, each within the window of the
    default configuration (5000 ms).  The empty fingerprint is not stored
    by [recordRequest], so it is reportable at once.  A fingerprint
    recorded 5000 ms ago is evicted by a [cleanup] that runs at that
    instant, and is reportable from then on.  A fingerprint recorded
    while the clock reads 0 is taken for one never seen. *)
Lemma canReportError_inside_window_true :
  canReportError 1000 [] (recordRequest 1000 (Some []) create) = true
  /\ canReportError 6000 (js "a1b2")
       (run [(6000, Cleanup)] (recordRequest 1000 (Some (js "a1b2")) create))
     = true
  /\ canReportError 1 (js "a1b2") (recordRequest 0 (Some (js "a1b2")) create)
     = true.
Proof. repeat split; vm_compute; reflexivity. Qed.


(** *** The sliding window of requests *)

Section Window.
Variable now : Z.

(** The requests of [s] that count when the clock reads [now]. *)
Abbreviation recent s :=
  (filter (fun req : RequestLog => now - windowMs (config s) < timestamp req)
     (requests s)).

Lemma cleanupOldRequests_recent (u : Z) (s : RateLimiterService) :
  u <= now ->
  recent (cleanupOldRequests u s) = recent s.
Proof.
  intros Hu. cbn [cleanupOldRequests requests config].
  apply list_filter_filter_l. intros req Hreq. lia.
Qed.

(** A call made by the time [now] adds a request to those that count at
    [now] when it is a [recordRequest] inside the window, and leaves
    them alone otherwise. *)
Lemma step_recent (s : RateLimiterService) (c : Z * Call) :
  c.1 <= now ->
  length (recent (step s c))
  = (length (recent s)
     + length (recordedAfter (now - windowMs (config s)) [c]))%nat.
Proof.
  destruct c as [u call]. cbn [fst]. intros Hu.
  unfold recordedAfter. cbn [List.filter fst snd].
  destruct call as [| g | f | |]; cbn [step isRecordRequest andb length];
    unfold canMakeRequest, getRemainingRequests; cbn [snd];
    rewrite ?Nat.add_0_r.
  - rewrite cleanupOldRequests_recent by exact Hu. reflexivity.
  - reflexivity.
  - cbn [recordRequest requests config]. rewrite filter_app, length_app.
    f_equal. rewrite filter_cons, filter_nil. cbn [timestamp].
    destruct (Z.ltb_spec (now - windowMs (config s)) u);
      [rewrite decide_True by assumption|rewrite decide_False by lia];
      reflexivity.
  - rewrite cleanupOldRequests_recent by exact Hu. reflexivity.
  - unfold cleanup.
    change (recent (cleanupOldFingerprints u (cleanupOldRequests u s)))
      with (recent (cleanupOldRequests u s)).
    rewrite cleanupOldRequests_recent by exact Hu. reflexivity.
Qed.

Lemma recordedAfter_cons (cutoff : Z) (c : Z * Call)
      (calls : list (Z * Call)) :
  recordedAfter cutoff (c :: calls)
  = recordedAfter cutoff [c] ++ recordedAfter cutoff calls.
Proof.
  unfold recordedAfter. cbn [List.filter].
  destruct (isRecordRequest c.2 && (cutoff <? c.1)); reflexivity.
Qed.

Lemma run_recent (calls : list (Z * Call)) (s : RateLimiterService) :
  madeBy now calls ->
  length (recent (run calls s))
  = (length (recent s)
     + length (recordedAfter (now - windowMs (config s)) calls))%nat.
Proof.
  revert s. induction calls as [|c calls IH]; intros s Hby.
  - cbn. lia.
  - apply Forall_cons in Hby as [Hc Hby]. rewrite run_cons, IH by exact Hby.
    rewrite step_recent by exact Hc. rewrite step_config.
    rewrite (recordedAfter_cons _ c calls), length_app. lia.
Qed.
End Window.

(** X4.  On a limiter that starts empty, after any calls made by the
    time [now]: the requests that count at [now] are the calls of
    [recordRequest] made less than [windowMs] before [now], each one
    once, whatever was asked or cleaned up in between.  [canMakeRequest]
    compares their number with [maxRequests], and [getRemainingRequests]
    is what is left of [maxRequests], never less than 0. *)
Theorem window_counts_recorded_requests (c : RateLimiterConfig)
        (calls : list (Z * Call)) (now : Z) :
  madeBy now calls ->
  let s := run calls (configure c create) in
  let recorded :=
    Z.of_nat (length (recordedAfter (now - windowMs c) calls)) in
  (canMakeRequest now s).1 = (recorded <? maxRequests c)
  /\ (getRemainingRequests now s).1 = Z.max 0 (maxRequests c - recorded).
Proof.
  intros Hby s recorded.
  pose proof (run_recent now calls (configure c create) Hby) as H.
  cbn [configure create requests config filter length] in H.
  rewrite filter_nil in H. cbn [length Nat.add] in H. fold s in H.
  assert (Hcfg : config s = c) by apply run_config.
  rewrite Hcfg in H.
  unfold canMakeRequest, getRemainingRequests.
  cbn [fst cleanupOldRequests requests config].
  rewrite Hcfg, H. split; reflexivity.
Qed.

Lemma window_counts_recorded_requests_witness :
  let calls :=
    [(1000, RecordRequest None); (2000, CanMakeRequest);
     (30000, RecordRequest (Some (js "a1b2"))); (61500, Cleanup);
     (62000, RecordRequest None)] in
  let s := run calls (configure (config create) create) in
  let recorded :=
    Z.of_nat (length (recordedAfter (70000 - windowMs (config create)) calls)) in
  (canMakeRequest 70000 s).1 = (recorded <? maxRequests (config create))
  /\ (getRemainingRequests 70000 s).1
     = Z.max 0 (maxRequests (config create) - recorded).
Proof.
  apply (window_counts_recorded_requests (config create)
           [(1000, RecordRequest None); (2000, CanMakeRequest);
            (30000, RecordRequest (Some (js "a1b2"))); (61500, Cleanup);
            (62000, RecordRequest None)] 70000).
  repeat constructor; cbn; lia.
Defined.

(** *** The reset time *)

Lemma fold_min_le (l : list Z) (a : Z) :
  fold_left Z.min l a <= a /\ Forall (fun x => fold_left Z.min l a <= x) l.
Proof.
  revert a. induction l as [|x l IH]; intros a; cbn [fold_left].
  - split; [lia|constructor].
  - destruct (IH (Z.min a x)) as [H1 H2]. split; [lia|].
    constructor; [lia|exact H2].
Qed.

Lemma fold_min_in (l : list Z) (a : Z) :
  fold_left Z.min l a = a \/ fold_left Z.min l a ∈ l.
Proof.
  revert a. induction l as [|x l IH]; intros a; cbn [fold_left]; [auto|].
  destruct (IH (Z.min a x)) as [H|H].
  - rewrite H. destruct (Z.min_spec a x) as [[_ ->]|[_ ->]];
      [left; reflexivity|right; left].
  - right. right. exact H.
Qed.

Lemma filter_all {A} (P : A -> Prop) `{!forall x, Decision (P x)}
      (l : list A) :
  Forall P l -> filter P l = l.
Proof.
  induction 1 as [|x l Hx _ IH]; [reflexivity|].
  rewrite filter_cons_True by exact Hx. f_equal. exact IH.
Qed.

Lemma Forall_of_map {A B} (f : A -> B) (P : B -> Prop) (l : list A) :
  Forall P (List.map f l) -> Forall (fun x => P (f x)) l.
Proof.
  induction l as [|x l IH]; intros H; [constructor|].
  cbn [List.map] in H. apply Forall_cons in H as [Hx H].
  constructor; [exact Hx|apply IH; exact H].
Qed.

(** X5.  While requests are stored, [getResetTime] is the first instant
    at which the window lets one of them go: before it, the clean-up of
    [canMakeRequest] keeps every stored request, so that the answer of
    [canMakeRequest] is settled by their number alone; from it on, the
    clean-up removes at least one. *)
Theorem getResetTime_frees_first_slot (s : RateLimiterService) (now0 : Z) :
  requests s <> [] ->
  let resetTime := getResetTime now0 s in
  (forall now, now < resetTime ->
               requests (cleanupOldRequests now s) = requests s
               /\ (canMakeRequest now s).1
                  = (Z.of_nat (length (requests s)) <? maxRequests (config s)))
  /\ (forall now, resetTime <= now ->
                  (length (requests (cleanupOldRequests now s))
                   < length (requests s))%nat).
Proof.
  intros Hne resetTime. subst resetTime. unfold getResetTime.
  destruct (requests s) as [|r rs] eqn:Hreq; [congruence|]. clear Hne.
  unfold oldestRequest.
  destruct (fold_min_le (List.map timestamp rs) (timestamp r)) as [Hr Hrs].
  set (oldest := fold_left Z.min (List.map timestamp rs) (timestamp r)) in *.
  assert (Hall : Forall (fun req => oldest <= timestamp req) (r :: rs)).
  { constructor; [exact Hr|]. apply Forall_of_map. exact Hrs. }
  split.
  - intros now Hnow.
    assert (Hkeep : requests (cleanupOldRequests now s) = r :: rs).
    { cbn [cleanupOldRequests requests]. rewrite Hreq. apply filter_all.
      eapply Forall_impl; [exact Hall|]. cbn beta. intros req Hle. lia. }
    split; [exact Hkeep|]. unfold canMakeRequest. cbn [fst].
    rewrite Hkeep. reflexivity.
  - intros now Hnow. cbn [cleanupOldRequests requests]. rewrite Hreq.
    assert (Hin : exists req, req ∈ r :: rs /\ timestamp req = oldest).
    { destruct (fold_min_in (List.map timestamp rs) (timestamp r)) as [H|H].
      - exists r. split; [left|symmetry; exact H].
      - fold oldest in H. apply list_elem_of_fmap in H as (req & Ht & Hin).
        exists req. split; [right; exact Hin|symmetry; exact Ht]. }
    destruct Hin as (req & Hin & Ht).
    apply (length_filter_lt _ _ req Hin). lia.
Qed.

Lemma getResetTime_frees_first_slot_witness :
  let s :=
    run [(1000, RecordRequest None); (500, RecordRequest None);
         (2000, RecordRequest None)] create in
  (forall now, now < getResetTime 0 s ->
               requests (cleanupOldRequests now s) = requests s
               /\ (canMakeRequest now s).1
                  = (Z.of_nat (length (requests s)) <? maxRequests (config s)))
  /\ (forall now, getResetTime 0 s <= now ->
                  (length (requests (cleanupOldRequests now s))
                   < length (requests s))%nat).
Proof.
  apply (getResetTime_frees_first_slot
           (run [(1000, RecordRequest None); (500, RecordRequest None);
                 (2000, RecordRequest None)] create) 0).
  discriminate.
Defined.

End RateLimiterSpec.

(** ** CircuitBreakerService *)

Module CircuitBreakerSpec.
Import CircuitBreaker.

Section Operations.
Context {W T E : Type}.

Lemma executeAll_app (operation : W -> (T + E) * W) (clks1 clks2 : list Clock)
      (b : CircuitBreakerService) (w : W) :
  executeAll operation (clks1 ++ clks2) b w =
  let '(rs1, b1, w1) := executeAll operation clks1 b w in
  let '(rs2, b2, w2) := executeAll operation clks2 b1 w1 in
  (rs1 ++ rs2, b2, w2).
Proof.
  revert b w. induction clks1 as [|clk clks1 IH]; intros b w; cbn [executeAll app].
  - destruct (executeAll operation clks2 b w) as [[rs2 b2] w2]. reflexivity.
  - destruct (execute operation clk b w) as [[r b1] w1]. rewrite IH.
    destruct (executeAll operation clks1 b1 w1) as [[rs1 b1'] w1'].
    destruct (executeAll operation clks2 b1' w1') as [[rs2 b2] w2]. reflexivity.
Qed.

Lemma execute_closed_failure (operation : W -> (T + E) * W) (clk : Clock)
      (b : CircuitBreakerService) (w w' : W) (e : E) :
  state b = CLOSED ->
  operation w = (inr e, w') ->
  execute operation clk b w =
  (OperationError e, onFailure (nowFailure clk) (nowTrip clk) b, w').
Proof.
  intros Hst Hop. unfold execute, isCallAllowed. rewrite Hst. cbn. rewrite Hop.
  reflexivity.
Qed.

Lemma onFailure_reaches_threshold (nowFailure nowTrip : Z)
      (b : CircuitBreakerService) :
  state b = CLOSED ->
  failureThreshold (config b) <= failureCount b + 1 ->
  state (onFailure nowFailure nowTrip b) = OPEN /\
  nextRetryTime (onFailure nowFailure nowTrip b)
  = Some (nowTrip + timeout (config b)).
Proof.
  intros Hst Hge. unfold onFailure. cbn. rewrite Hst.
  destruct (Z.geb_spec (failureCount b + 1) (failureThreshold (config b)));
    [|lia]. cbn. auto.
Qed.

(** Failures that stay below the threshold leave the circuit closed and
    are counted. *)
Lemma failures_below_threshold (failing : W -> (T + E) * W)
      (clks : list Clock) (b : CircuitBreakerService) (w : W) :
  (forall w, exists e w', failing w = (inr e, w')) ->
  state b = CLOSED ->
  failureCount b + Z.of_nat (length clks) < failureThreshold (config b) ->
  let b' := (executeAll failing clks b w).1.2 in
  state b' = CLOSED /\
  failureCount b' = failureCount b + Z.of_nat (length clks) /\
  config b' = config b.
Proof.
  intros Hfail. revert b w.
  induction clks as [|clk clks IH]; intros b w Hst Hlt; cbn [executeAll].
  - cbn. repeat split; [exact Hst|lia].
  - destruct (Hfail w) as (e & w' & Hop).
    rewrite (execute_closed_failure failing clk b w w' e Hst Hop).
    set (b1 := onFailure (nowFailure clk) (nowTrip clk) b).
    cbn [length] in Hlt.
    assert (H1 : state b1 = CLOSED /\ failureCount b1 = failureCount b + 1
                 /\ config b1 = config b).
    { unfold b1, onFailure. cbn. rewrite Hst.
      destruct (Z.geb_spec (failureCount b + 1) (failureThreshold (config b)));
        [lia|]. cbn. auto. }
    destruct H1 as (Hst1 & Hc1 & Hcfg1).
    specialize (IH b1 w' Hst1). rewrite Hc1, Hcfg1 in IH.
    specialize (IH ltac:(lia)). cbn zeta in IH.
    destruct (executeAll failing clks b1 w') as [[rs b2] w2]. cbn in *.
    destruct IH as (? & ? & ?). repeat split; [assumption|lia|assumption].
Qed.

(** One failing call leaves the configuration alone and either leaves
    the circuit open or counts one more failure below the threshold. *)
Lemma failing_call (failing : W -> (T + E) * W) (clk : Clock)
      (b : CircuitBreakerService) (w : W) :
  (forall w, exists e w', failing w = (inr e, w')) ->
  state b <> HALF_OPEN ->
  let b' := (execute failing clk b w).1.2 in
  config b' = config b /\
  (state b' = OPEN \/
   (state b = CLOSED /\ state b' = CLOSED
    /\ failureCount b' = failureCount b + 1
    /\ failureCount b' < failureThreshold (config b))).
Proof.
  intros Hfail Hst. destruct (Hfail w) as (e & w' & Hop).
  unfold execute, isCallAllowed. destruct (state b) eqn:Hs; [| |congruence].
  - cbn. rewrite Hop. cbn. unfold onFailure. cbn. rewrite Hs.
    destruct (Z.geb_spec (failureCount b + 1) (failureThreshold (config b)));
      cbn; auto 10.
  - destruct (nextRetryTime b) as [t|]; [|cbn; auto].
    destruct (negb (t =? 0) && (now clk >=? t)); [|cbn; auto].
    cbn. rewrite Hop. cbn. auto.
Qed.

(** From a closed circuit with a failure count that is not negative,
    as many failing calls as the threshold says leave the circuit open,
    whatever the clock reads. *)
Lemma closed_breaker_opens (failing : W -> (T + E) * W) (clks : list Clock)
      (b : CircuitBreakerService) (w : W) :
  (forall w, exists e w', failing w = (inr e, w')) ->
  state b = CLOSED ->
  0 <= failureCount b ->
  1 <= failureThreshold (config b) ->
  Z.of_nat (length clks) = failureThreshold (config b) ->
  state (executeAll failing clks b w).1.2 = OPEN.
Proof.
  intros Hfail Hst Hpos Hthr Hlen.
  assert (Hgen : forall clks b w,
             state b <> HALF_OPEN ->
             let b' := (executeAll failing clks b w).1.2 in
             config b' = config b /\
             (state b' = OPEN \/
              (state b = CLOSED /\ state b' = CLOSED
               /\ failureCount b' = failureCount b + Z.of_nat (length clks)
               /\ (clks = [] \/
                   failureCount b' < failureThreshold (config b))))).
  { clear -Hfail. intros l. induction l as [|clk l IH]; intros c v Hc.
    - cbn. split; [reflexivity|]. destruct (state c) eqn:Hs; try congruence;
        [right; repeat split; auto; lia|left; reflexivity].
    - cbn [executeAll].
      pose proof (failing_call failing clk c v Hfail Hc) as Hstep.
      cbn zeta in Hstep.
      destruct (execute failing clk c v) as [[r c1] v1]. cbn [fst snd] in Hstep.
      destruct Hstep as [Hcfg Hstep].
      assert (Hc1 : state c1 <> HALF_OPEN)
        by (destruct Hstep as [H|(_ & H & _)]; rewrite H; discriminate).
      specialize (IH c1 v1 Hc1). cbn zeta in IH.
      destruct (executeAll failing l c1 v1) as [[rs c2] v2].
      cbn [fst snd] in *. destruct IH as [Hcfg2 IH].
      split; [congruence|].
      destruct IH as [H|(Hs1 & Hs2 & Hcount & Hbelow)]; [left; exact H|].
      destruct Hstep as [H|(Hs & _ & Hcount1 & Hbelow1)]; [congruence|].
      right. repeat split; [exact Hs|exact Hs2|cbn [length]; lia|].
      right. destruct Hbelow as [->|Hbelow].
      + cbn in Hcount. rewrite Hcfg in *. lia.
      + rewrite Hcfg in Hbelow. exact Hbelow. }
  destruct (Hgen clks b w ltac:(rewrite Hst; discriminate)) as [_ H].
  destruct H as [H|(_ & _ & Hcount & Hbelow)]; [exact H|].
  destruct Hbelow as [->|Hbelow]; [cbn in Hlen; lia|lia].
Qed.

(** In the open state, before the retry time, every call is rejected by
    the breaker: the operation is not applied, the world and the breaker
    stay as they are. *)
Lemma open_rejects (operation : W -> (T + E) * W) (later : list Clock)
      (b : CircuitBreakerService) (w : W) (retryAt : Z) :
  state b = OPEN ->
  nextRetryTime b = Some retryAt ->
  Forall (fun clk => now clk < retryAt) later ->
  executeAll operation later b w =
  (List.map (fun _ => CircuitOpenError circuitOpenMessage) later, b, w).
Proof.
  intros Hst Hnext. induction 1 as [|clk later Hlt _ IH]; [reflexivity|].
  cbn [executeAll List.map]. unfold execute, isCallAllowed.
  rewrite Hst, Hnext. destruct (Z.geb_spec (now clk) retryAt); [lia|].
  rewrite andb_false_r. cbn [negb]. cbv iota. rewrite IH. reflexivity.
Qed.

(** C3.  From a closed circuit with no failure counted, after
    [failureThreshold] calls of [execute] that all fail, the circuit is
    open; until [timeout] ms have passed since the trip every call is
    rejected with the error of the breaker and the operation is not
    invoked; from then on the next call is let through in the half-open
    state, and when it succeeds the circuit is closed again with both
    counters at zero. *)
Theorem breaker_trips_rejects_and_recovers (b0 : CircuitBreakerService)
        (failing : W -> (T + E) * W) (clks : list Clock) (tripClk : Clock)
        (w0 : W) :
  state b0 = CLOSED ->
  failureCount b0 = 0 ->
  (forall w, exists e w', failing w = (inr e, w')) ->
  Z.of_nat (length clks) + 1 = failureThreshold (config b0) ->
  let retryAt := nowTrip tripClk + timeout (config b0) in
  retryAt <> 0 ->
  let b := (executeAll failing (clks ++ [tripClk]) b0 w0).1.2 in
  state b = OPEN
  /\ (forall (operation : W -> (T + E) * W) (later : list Clock) (w : W),
         Forall (fun clk => now clk < retryAt) later ->
         executeAll operation later b w =
         (List.map (fun _ => CircuitOpenError circuitOpenMessage) later, b, w))
  /\ (forall (operation : W -> (T + E) * W) (clk : Clock) (w : W),
         retryAt <= now clk ->
         isCallAllowed (now clk) b = (true, setState HALF_OPEN b)
         /\ forall v w',
             operation w = (inl v, w') ->
             let r := execute operation clk b w in
             r.1.1 = Value v /\ r.2 = w' /\ state r.1.2 = CLOSED
             /\ failureCount r.1.2 = 0 /\ successCount r.1.2 = 0).
Proof.
  intros Hst Hc Hfail Hlen retryAt Hnz b.
  assert (Hb : state b = OPEN /\ nextRetryTime b = Some retryAt).
  { unfold b. rewrite executeAll_app.
    pose proof (failures_below_threshold failing clks b0 w0 Hfail Hst
                  ltac:(lia)) as Hbelow. cbn zeta in Hbelow.
    destruct (executeAll failing clks b0 w0) as [[rs1 b1] w1]. cbn in Hbelow.
    destruct Hbelow as (Hst1 & Hc1 & Hcfg1). cbn [executeAll].
    destruct (Hfail w1) as (e & w' & Hop).
    rewrite (execute_closed_failure failing tripClk b1 w1 w' e Hst1 Hop).
    cbn [fst snd]. unfold retryAt. rewrite <- Hcfg1.
    apply onFailure_reaches_threshold; [exact Hst1|]. rewrite Hcfg1. lia. }
  destruct Hb as [Hopen Hnext].
  split; [exact Hopen|split].
  - intros operation later w Hlater.
    apply (open_rejects operation later b w retryAt Hopen Hnext Hlater).
  - intros operation clk w Hge.
    assert (Hallowed : isCallAllowed (now clk) b = (true, setState HALF_OPEN b)).
    { unfold isCallAllowed. rewrite Hopen, Hnext.
      destruct (Z.eqb_spec retryAt 0); [contradiction|].
      destruct (Z.geb_spec (now clk) retryAt); [reflexivity|lia]. }
    split; [exact Hallowed|].
    intros v w' Hop r. unfold r, execute. rewrite Hallowed. cbn [negb].
    cbv iota. rewrite Hop. cbn. auto.
Qed.
End Operations.

Lemma breaker_trips_rejects_and_recovers_witness :
  let b :=
    (executeAll alwaysFails (List.map tick [1000; 2000; 3000; 4000; 5000])
       (create defaultConfig) 0%nat).1.2 in
  state b = OPEN
  /\ executeAll succeeds [tick 6000; tick 35009] b 5%nat
     = ([CircuitOpenError circuitOpenMessage;
         CircuitOpenError circuitOpenMessage], b, 5%nat)
  /\ (let r := execute succeeds (tick 35010) b 5%nat in
      r.1.1 = Value 1 /\ r.2 = 6%nat /\ state r.1.2 = CLOSED
      /\ failureCount r.1.2 = 0 /\ successCount r.1.2 = 0).
Proof.
  assert (Hfail : forall w, exists e w', alwaysFails w = (inr e, w')).
  { intros w. eexists _, _. reflexivity. }
  assert (Hnz : nowTrip (tick 5000) + timeout (config (create defaultConfig)) <> 0)
    by discriminate.
  pose proof (breaker_trips_rejects_and_recovers (create defaultConfig)
                alwaysFails (List.map tick [1000; 2000; 3000; 4000]) (tick 5000)
                0%nat eq_refl eq_refl Hfail eq_refl Hnz) as H.
  cbv zeta in H. destruct H as (A & B & C).
  split; [exact A|split].
  - apply (B succeeds [tick 6000; tick 35009] 5%nat).
    repeat constructor.
  - apply (proj2 (C succeeds (tick 35010) 5%nat ltac:(discriminate)) 1 6%nat).
    reflexivity.
Defined.


(** *** Failures are counted, not streaks of failures *)

Section Counting.
Context {W T E : Type}.
Variable operation : W -> (T + E) * W.

Lemma failures_cons (r : Result T E) (rs : list (Result T E)) :
  failures (r :: rs) = (if isFailure r then 1 else 0) + failures rs.
Proof.
  unfold failures. cbn [List.filter]. destruct (isFailure r); cbn [length]; lia.
Qed.

Lemma successes_cons (r : Result T E) (rs : list (Result T E)) :
  successes (r :: rs) = (if isSuccess r then 1 else 0) + successes rs.
Proof.
  unfold successes. cbn [List.filter]. destruct (isSuccess r); cbn [length]; lia.
Qed.

Lemma failures_nonneg (rs : list (Result T E)) : 0 <= failures rs.
Proof. unfold failures. lia. Qed.

Lemma execute_closed (clk : Clock) (b : CircuitBreakerService) (w : W) :
  state b = CLOSED ->
  execute operation clk b w
  = match operation w with
    | (inl v, w1) => (Value v, onSuccess b, w1)
    | (inr e, w1) =>
        (OperationError e, onFailure (nowFailure clk) (nowTrip clk) b, w1)
    end.
Proof.
  intros Hst. unfold execute, isCallAllowed. rewrite Hst. reflexivity.
Qed.

(** A closed breaker stays closed, and keeps count, as long as the
    failures do not reach the threshold. *)
Lemma closed_run (clks : list Clock) (b b' : CircuitBreakerService)
      (w w' : W) (rs : list (Result T E)) :
  state b = CLOSED ->
  executeAll operation clks b w = (rs, b', w') ->
  failureCount b + failures rs < failureThreshold (config b) ->
  state b' = CLOSED
  /\ config b' = config b
  /\ failureCount b' = failureCount b + failures rs
  /\ successCount b' = successCount b + successes rs
  /\ Forall (fun x => isRejection x = false) rs.
Proof.
  revert b w rs. induction clks as [|clk clks IH]; intros b w rs Hst Hrun;
    cbn [executeAll] in Hrun.
  - injection Hrun as <- <- <-. unfold failures, successes. cbn. intros _.
    repeat split; try lia; try assumption. constructor.
  - rewrite (execute_closed clk b w Hst) in Hrun.
    destruct (operation w) as [[v|e] w1].
    + destruct (executeAll operation clks (onSuccess b) w1)
        as [[rs' b2] w2] eqn:Hrest.
      injection Hrun as <- <- <-. rewrite failures_cons, successes_cons.
      cbn [isFailure isSuccess]. intros Hlt.
      assert (Hb : onSuccess b
                   = {| config := config b; state := CLOSED;
                        failureCount := failureCount b;
                        successCount := successCount b + 1;
                        lastFailureTime := lastFailureTime b;
                        nextRetryTime := nextRetryTime b |}).
      { unfold onSuccess. cbn [state]. rewrite Hst. reflexivity. }
      rewrite Hb in Hrest.
      apply IH in Hrest as (H1 & H2 & H3 & H4 & H5);
        [|reflexivity|cbn; lia].
      cbn [config failureCount successCount] in *.
      repeat split; try assumption; try lia.
      constructor; [reflexivity|exact H5].
    + destruct (executeAll operation clks
                  (onFailure (nowFailure clk) (nowTrip clk) b) w1)
        as [[rs' b2] w2] eqn:Hrest.
      injection Hrun as <- <- <-. rewrite failures_cons, successes_cons.
      cbn [isFailure isSuccess]. intros Hlt.
      pose proof (failures_nonneg rs') as Hpos.
      assert (Hb : onFailure (nowFailure clk) (nowTrip clk) b
                   = {| config := config b; state := CLOSED;
                        failureCount := failureCount b + 1;
                        successCount := successCount b;
                        lastFailureTime := Some (nowFailure clk);
                        nextRetryTime := nextRetryTime b |}).
      { unfold onFailure. cbn [state config failureCount]. rewrite Hst.
        destruct (Z.geb_spec (failureCount b + 1)
                    (failureThreshold (config b))); [lia|reflexivity]. }
      rewrite Hb in Hrest.
      apply IH in Hrest as (H1 & H2 & H3 & H4 & H5);
        [|reflexivity|cbn; lia].
      cbn [config failureCount successCount] in *.
      repeat split; try assumption; try lia.
      constructor; [reflexivity|exact H5].
Qed.

(** X6.  On a breaker that starts closed with its counters at 0, while
    the failed calls are fewer than [failureThreshold], however many
    calls succeeded among them: the breaker is closed, it has rejected
    no call, and its two counters hold the numbers of failed and of
    successful calls.  A success does not clear the count of failures:
    the failure that brings the count to the threshold opens the
    breaker, with the retry time a [timeout] after the trip, whether or
    not the failures came in a row. *)
Theorem breaker_counts_failures_not_streaks (c : CircuitBreakerConfig)
        (clks : list Clock) (w : W) :
  let r := executeAll operation clks (create c) w in
  let rs := r.1.1 in
  let b := r.1.2 in
  failures rs < failureThreshold c ->
  (state b = CLOSED
   /\ failureCount b = failures rs
   /\ successCount b = successes rs
   /\ Forall (fun x => isRejection x = false) rs)
  /\ (failures rs + 1 = failureThreshold c ->
      forall (clk : Clock) (e : E) (w' : W),
        operation r.2 = (inr e, w') ->
        let b' := (execute operation clk b r.2).1.2 in
        state b' = OPEN
        /\ nextRetryTime b' = Some (nowTrip clk + timeout c)).
Proof.
  intros r rs b Hlt.
  destruct (closed_run clks (create c) b w r.2 rs eq_refl)
    as (H1 & H2 & H3 & H4 & H5).
  { subst rs b r.
    destruct (executeAll operation clks (create c) w) as [[? ?] ?].
    reflexivity. }
  { cbn [create failureCount config]. lia. }
  cbn [create failureCount successCount config] in *.
  split; [repeat split; try assumption; lia|].
  intros Hthr clk e w' Hop.
  rewrite (execute_closed_failure operation clk b r.2 w' e H1 Hop).
  cbn [fst snd].
  destruct (onFailure_reaches_threshold (nowFailure clk) (nowTrip clk) b H1)
    as [Ho Hn]; [rewrite H2; lia|].
  rewrite H2 in Hn. split; assumption.
Qed.
End Counting.

Lemma breaker_counts_failures_not_streaks_witness :
  let script := [inr (js "HTTP 500: a"); inl 1; inr (js "HTTP 500: b"); inl 2;
                 inr (js "HTTP 500: c"); inl 3; inr (js "HTTP 500: d")] in
  let r :=
    executeAll (replay script)
      (List.map tick [1000; 2000; 3000; 4000; 5000; 6000; 7000])
      (create defaultConfig) 0%nat in
  (state r.1.2 = CLOSED
   /\ failureCount r.1.2 = failures r.1.1
   /\ successCount r.1.2 = successes r.1.1
   /\ Forall (fun x => isRejection x = false) r.1.1)
  /\ (let b' := (execute (replay script) (tick 8000) r.1.2 r.2).1.2 in
      state b' = OPEN
      /\ nextRetryTime b' = Some (nowTrip (tick 8000) + timeout defaultConfig)).
Proof.
  intros script r.
  pose proof (breaker_counts_failures_not_streaks (replay script) defaultConfig
                (List.map tick [1000; 2000; 3000; 4000; 5000; 6000; 7000])
                0%nat) as H.
  cbv zeta in H. fold r in H.
  destruct H as [Hclosed Hopen]; [vm_compute; reflexivity|].
  split; [exact Hclosed|].
  apply (Hopen eq_refl (tick 8000) (js "HTTP 500: Internal Server Error")
           8%nat).
  reflexivity.
Defined.

(** *** The trial call *)

Section Trial.
Context {W T E : Type}.

(** X7.  On an open breaker whose retry time has come, a call is let
    through as the trial call.  When it fails, the breaker is open
    again, the failure is counted, the retry time is a [timeout] after
    the new trip, and every call before that time is rejected without
    the operation being invoked. *)
Theorem failed_trial_reopens (operation : W -> (T + E) * W) (clk : Clock)
        (b : CircuitBreakerService) (w w' : W) (e : E) (retryAt : Z) :
  state b = OPEN ->
  nextRetryTime b = Some retryAt ->
  retryAt <> 0 ->
  retryAt <= now clk ->
  operation w = (inr e, w') ->
  let r := execute operation clk b w in
  let again := nowTrip clk + timeout (config b) in
  r.1.1 = OperationError e
  /\ r.2 = w'
  /\ state r.1.2 = OPEN
  /\ failureCount r.1.2 = failureCount b + 1
  /\ nextRetryTime r.1.2 = Some again
  /\ (forall (other : W -> (T + E) * W) (later : list Clock) (w1 : W),
         Forall (fun k => now k < again) later ->
         executeAll other later r.1.2 w1
         = (List.map (fun _ => CircuitOpenError circuitOpenMessage) later,
            r.1.2, w1)).
Proof.
  intros Hst Hnext Hne Hdue Hop r again.
  assert (Hr : r = (OperationError e,
                    tripCircuit (nowTrip clk)
                      {| config := config b; state := HALF_OPEN;
                         failureCount := failureCount b + 1;
                         successCount := successCount b;
                         lastFailureTime := Some (nowFailure clk);
                         nextRetryTime := nextRetryTime b |}, w')).
  { subst r. unfold execute, isCallAllowed. rewrite Hst, Hnext.
    destruct (Z.eqb_spec retryAt 0) as [?|_]; [congruence|].
    destruct (Z.geb_spec (now clk) retryAt) as [_|?]; [|lia].
    cbn [negb andb]. cbv iota. rewrite Hop. reflexivity. }
  rewrite Hr. cbn [fst snd tripCircuit state failureCount nextRetryTime config].
  repeat split.
  intros other later w1 Hlater.
  apply (open_rejects other later _ w1 again); [reflexivity|reflexivity|].
  exact Hlater.
Qed.
End Trial.

Lemma failed_trial_reopens_witness :
  let b := forceOpen 1000 (create defaultConfig) in
  let r := execute alwaysFails (tick 31000) b 0%nat in
  let again := nowTrip (tick 31000) + timeout (config b) in
  r.1.1 = OperationError (js "HTTP 503: Service Unavailable")
  /\ r.2 = 1%nat
  /\ state r.1.2 = OPEN
  /\ failureCount r.1.2 = failureCount b + 1
  /\ nextRetryTime r.1.2 = Some again
  /\ (forall (other : nat -> (Z + jsstring) * nat) (later : list Clock)
             (w1 : nat),
         Forall (fun k => now k < again) later ->
         executeAll other later r.1.2 w1
         = (List.map (fun _ => CircuitOpenError circuitOpenMessage) later,
            r.1.2, w1)).
Proof.
  apply (failed_trial_reopens alwaysFails (tick 31000)
           (forceOpen 1000 (create defaultConfig)) 0%nat 1%nat
           (js "HTTP 503: Service Unavailable") 31000);
    try reflexivity; cbn; lia.
Defined.

(** *** Queries *)

(** X8.  On a breaker that, when open, has a retry time other than 0:
    [isCircuitOpen] answers true exactly when [getTimeUntilRetry] is
    positive.  The query is not free of effects: when it answers false
    on an open breaker, it has moved the breaker to [HALF_OPEN]. *)
Theorem isCircuitOpen_iff_time_until_retry (b : CircuitBreakerService)
        (now : Z) :
  (state b = OPEN -> exists t, nextRetryTime b = Some t /\ t <> 0) ->
  ((isCircuitOpen now b).1 = true <-> 0 < getTimeUntilRetry now b)
  /\ (state b = OPEN -> (isCircuitOpen now b).1 = false ->
      state (isCircuitOpen now b).2 = HALF_OPEN)
  /\ (state b <> OPEN -> isCircuitOpen now b = (false, b)).
Proof.
  intros Hwf. unfold isCircuitOpen, getTimeUntilRetry, isCallAllowed.
  destruct (state b) eqn:Hst.
  - cbn. repeat split; try congruence; try lia.
  - destruct (Hwf eq_refl) as (t & Ht & Hne). rewrite Ht.
    destruct (Z.eqb_spec t 0) as [?|_]; [congruence|]. cbn [negb andb].
    destruct (Z.geb_spec now t); cbn [negb fst snd setState state].
    + repeat split; try congruence; try lia.
    + repeat split; try congruence; try lia.
  - cbn. repeat split; try congruence; try lia.
Qed.

Lemma isCircuitOpen_iff_time_until_retry_witness :
  let b := forceOpen 1000 (create defaultConfig) in
  ((isCircuitOpen 31000 b).1 = true <-> 0 < getTimeUntilRetry 31000 b)
  /\ (state b = OPEN -> (isCircuitOpen 31000 b).1 = false ->
      state (isCircuitOpen 31000 b).2 = HALF_OPEN)
  /\ (state b <> OPEN -> isCircuitOpen 31000 b = (false, b)).
Proof.
  apply (isCircuitOpen_iff_time_until_retry
           (forceOpen 1000 (create defaultConfig)) 31000).
  intros _. exists 31000. split; [reflexivity|discriminate].
Defined.

Section Rate.
Context {W T E : Type}.
Variable operation : W -> (T + E) * W.

Lemma execute_counts (clk : Clock) (b : CircuitBreakerService) (w : W) :
  0 <= failureCount b -> 0 <= successCount b ->
  0 <= failureCount (execute operation clk b w).1.2
  /\ 0 <= successCount (execute operation clk b w).1.2.
Proof.
  intros Hf Hs. unfold execute.
  destruct (isCallAllowed (now clk) b) as [allowed b1] eqn:Hallow.
  assert (H1 : failureCount b1 = failureCount b
               /\ successCount b1 = successCount b).
  { unfold isCallAllowed in Hallow.
    destruct (state b); [injection Hallow as <- <-; auto| |
                         injection Hallow as <- <-; auto].
    destruct (nextRetryTime b) as [t|]; [|injection Hallow as <- <-; auto].
    destruct (negb (t =? 0) && (now clk >=? t));
      injection Hallow as <- <-; auto. }
  destruct H1 as [H1 H2].
  destruct allowed; cbn [negb]; cbv iota; [|cbn; lia].
  destruct (operation w) as [[v|e] w1]; cbn [fst snd].
  - unfold onSuccess. cbn [state].
    destruct (state b1); cbn; lia.
  - unfold onFailure. cbn [state config failureCount].
    destruct (state b1); cbn;
      try (destruct (failureCount b1 + 1 >=? failureThreshold (config b1));
           cbn); lia.
Qed.

(** X9.  After any calls on a breaker that starts with its counters at
    0, [getFailureRate] is a proportion: it lies between 0 and 1.  With
    no call counted it is 0, without a division. *)
Theorem getFailureRate_is_a_proportion (c : CircuitBreakerConfig)
        (clks : list Clock) (w : W) :
  let b := (executeAll operation clks (create c) w).1.2 in
  (0 <= getFailureRate b)%Q /\ (getFailureRate b <= 1)%Q
  /\ (getFailureRate (create c) == 0)%Q.
Proof.
  assert (Hinv : forall clks b w,
             0 <= failureCount b -> 0 <= successCount b ->
             0 <= failureCount (executeAll operation clks b w).1.2
             /\ 0 <= successCount (executeAll operation clks b w).1.2).
  { clear. intros clks. induction clks as [|clk clks IH]; intros b w Hf Hs;
      cbn [executeAll]; [cbn; auto|].
    destruct (execute_counts clk b w Hf Hs) as [Hf1 Hs1].
    destruct (execute operation clk b w) as [[r b1] w1]. cbn [fst snd] in *.
    specialize (IH b1 w1 Hf1 Hs1).
    destruct (executeAll operation clks b1 w1) as [[rs b2] w2]. exact IH. }
  intros b. destruct (Hinv clks (create c) w) as [Hf Hs]; try (cbn; lia).
  fold b in Hf, Hs. unfold getFailureRate.
  split; [|split; [|reflexivity]].
  - destruct (successCount b + failureCount b >? 0) eqn:Hpos; [|discriminate].
    destruct (successCount b + failureCount b) as [|p|p] eqn:Ht;
      try discriminate Hpos.
    unfold Qle, Qdiv, Qmult, Qinv, inject_Z. cbn. lia.
  - destruct (successCount b + failureCount b >? 0) eqn:Hpos; [|discriminate].
    destruct (successCount b + failureCount b) as [|p|p] eqn:Ht;
      try discriminate Hpos.
    unfold Qle, Qdiv, Qmult, Qinv, inject_Z. cbn. lia.
Qed.
End Rate.

(** *** Manual override *)

Section Override.
Context {W T E : Type}.

(** X10.  After [forceOpen], whatever the state was, every call before
    the retry time, a [timeout] after the forcing, is rejected without
    the operation being invoked.  After [forceClose] the counters are
    at 0 and the next call invokes the operation and hands on what it
    gives. *)
Theorem manual_override (b : CircuitBreakerService) (forcedAt : Z)
        (operation : W -> (T + E) * W) (w : W) :
  (forall later : list Clock,
      Forall (fun k => now k < forcedAt + timeout (config b)) later ->
      executeAll operation later (forceOpen forcedAt b) w
      = (List.map (fun _ => CircuitOpenError circuitOpenMessage) later,
         forceOpen forcedAt b, w))
  /\ failureCount (forceClose b) = 0
  /\ successCount (forceClose b) = 0
  /\ (forall clk : Clock,
         let r := execute operation clk (forceClose b) w in
         r.1.1 = match (operation w).1 with
                 | inl v => Value v
                 | inr e => OperationError e
                 end
         /\ r.2 = (operation w).2).
Proof.
  split; [|split; [reflexivity|split; [reflexivity|]]].
  - intros later Hlater.
    apply (open_rejects operation later _ w (forcedAt + timeout (config b)));
      [reflexivity|reflexivity|exact Hlater].
  - intros clk r. subst r. unfold execute, forceClose, reset, isCallAllowed.
    cbn [state negb]. cbv iota.
    destruct (operation w) as [[v|e] w1]; split; reflexivity.
Qed.
End Override.

Lemma manual_override_witness :
  executeAll succeeds [tick 2000; tick 30999]
    (forceOpen 1000 (create defaultConfig)) 0%nat
  = ([CircuitOpenError circuitOpenMessage; CircuitOpenError circuitOpenMessage],
     forceOpen 1000 (create defaultConfig), 0%nat).
Proof.
  apply (proj1 (manual_override (create defaultConfig) 1000 succeeds 0%nat)
           [tick 2000; tick 30999]).
  repeat constructor.
Defined.

End CircuitBreakerSpec.

(** ** QuotaManagerService *)

Module QuotaManagerSpec.
Import QuotaManager.

Section Calendar.
Variable getNextDayReset : Z -> Z.
Variable getNextMonthReset : Z -> Z.

Abbreviation checkAndResetQuotas' :=
  (checkAndResetQuotas getNextDayReset getNextMonthReset).
Abbreviation canSendError' :=
  (canSendError getNextDayReset getNextMonthReset).
Abbreviation recordErrorSent' :=
  (recordErrorSent getNextDayReset getNextMonthReset).
Abbreviation recordAll' := (recordAll getNextDayReset getNextMonthReset).

Lemma checkAndResetQuotas_burst_kept (now : Z) (s : QuotaManagerService) :
  now < resetTime (burst (state s)) ->
  burst (state (checkAndResetQuotas' now s)) = burst (state s).
Proof.
  intros Hlt. unfold checkAndResetQuotas. cbn.
  destruct (Z.geb_spec now (resetTime (burst (state s)))); [lia|reflexivity].
Qed.

Lemma recordErrorSent_config (now size : Z) (s : QuotaManagerService) :
  config (recordErrorSent' now size s) = config s.
Proof. reflexivity. Qed.

(** Inside one burst window every recorded send adds one to the burst
    counter and leaves its reset time alone. *)
Lemma recordAll_burst (calls : list (Z * Z)) (s : QuotaManagerService) :
  withinBurstWindow s (List.map fst calls) ->
  used (burst (state (recordAll' calls s)))
  = used (burst (state s)) + Z.of_nat (length calls)
  /\ resetTime (burst (state (recordAll' calls s)))
     = resetTime (burst (state s))
  /\ config (recordAll' calls s) = config s.
Proof.
  revert s. induction calls as [|[now size] calls IH]; intros s Hin.
  - cbn. repeat split. lia.
  - apply Forall_cons in Hin as [Hnow Hin]. cbn [fst] in Hnow.
    unfold recordAll in *. cbn [fold_left fst snd].
    set (s1 := recordErrorSent' now size s).
    assert (Hb : burst (state s1) = increment (burst (state s))).
    { unfold s1, recordErrorSent. cbn [state burst].
      rewrite checkAndResetQuotas_burst_kept by exact Hnow. reflexivity. }
    destruct (IH s1) as (Hu & Hr & Hc).
    { unfold withinBurstWindow in *. rewrite Hb. exact Hin. }
    rewrite Hu, Hr, Hc, Hb. cbn [used resetTime increment length].
    repeat split. lia.
Qed.

(** C4.  [canSendError] tests the burst counter, then the daily counter,
    then the monthly counter, then the payload size, each against its
    limit and after the lazy resets, and the first test that fails gives
    the reason.  After [burstLimit] calls of [recordErrorSent] within
    one burst window [canSendError] answers with the burst reason
    whatever the other counters and the size are.  One call of
    [recordErrorSent] adds one to each of the three counters. *)
Theorem canSendError_priority_and_burst :
  (forall (now size : Z) (s : QuotaManagerService),
      let st := state (checkAndResetQuotas' now s) in
      let cfg := config s in
      let verdict := (canSendError' now size s).1 in
      (burstLimit cfg <= used (burst st) ->
       verdict = deny "Burst limit exceeded")
      /\ (used (burst st) < burstLimit cfg ->
          dailyLimit cfg <= used (daily st) ->
          verdict = deny "Daily limit exceeded")
      /\ (used (burst st) < burstLimit cfg ->
          used (daily st) < dailyLimit cfg ->
          monthlyLimit cfg <= used (monthly st) ->
          verdict = deny "Monthly limit exceeded")
      /\ (used (burst st) < burstLimit cfg ->
          used (daily st) < dailyLimit cfg ->
          used (monthly st) < monthlyLimit cfg ->
          payloadSizeLimit cfg < size ->
          verdict = deny "Payload size limit exceeded")
      /\ (used (burst st) < burstLimit cfg ->
          used (daily st) < dailyLimit cfg ->
          used (monthly st) < monthlyLimit cfg ->
          size <= payloadSizeLimit cfg ->
          verdict = allow))
  /\ (forall (s : QuotaManagerService) (calls : list (Z * Z)) (now size : Z),
         0 <= used (burst (state s)) ->
         Z.of_nat (length calls) = burstLimit (config s) ->
         withinBurstWindow s (List.map fst calls ++ [now]) ->
         (canSendError' now size (recordAll' calls s)).1
         = deny "Burst limit exceeded")
  /\ (forall (now size : Z) (s : QuotaManagerService),
         let before := state (checkAndResetQuotas' now s) in
         let after := state (recordErrorSent' now size s) in
         used (daily after) = used (daily before) + 1
         /\ used (monthly after) = used (monthly before) + 1
         /\ used (burst after) = used (burst before) + 1).
Proof.
  split; [|split].
  - intros now size s st cfg verdict. subst verdict. unfold canSendError.
    fold st. change (config (checkAndResetQuotas' now s)) with cfg.
    destruct (Z.geb_spec (used (burst st)) (burstLimit cfg));
      [repeat split; intros; try lia; reflexivity|].
    destruct (Z.geb_spec (used (daily st)) (dailyLimit cfg));
      [repeat split; intros; try lia; reflexivity|].
    destruct (Z.geb_spec (used (monthly st)) (monthlyLimit cfg));
      [repeat split; intros; try lia; reflexivity|].
    rewrite Z.gtb_ltb.
    destruct (Z.ltb_spec (payloadSizeLimit cfg) size);
      repeat split; intros; try lia; reflexivity.
  - intros s calls now size Hpos Hlen Hin.
    apply Forall_app in Hin as [Hcalls Hnow].
    apply Forall_cons in Hnow as [Hnow _].
    destruct (recordAll_burst calls s Hcalls) as (Hu & Hr & Hc).
    unfold canSendError.
    rewrite checkAndResetQuotas_burst_kept by (rewrite Hr; exact Hnow).
    change (config (checkAndResetQuotas' now (recordAll' calls s)))
      with (config (recordAll' calls s)).
    rewrite Hu, Hc.
    destruct (Z.geb_spec (used (burst (state s)) + Z.of_nat (length calls))
                (burstLimit (config s))); [reflexivity|lia].
  - intros now size s. cbn. auto.
Qed.
End Calendar.

Lemma canSendError_priority_and_burst_witness :
  (canSendError sampleNextDay sampleNextMonth 30000 2000000
     (recordAll sampleNextDay sampleNextMonth
        (repeat (1000, 512) 50) sampleService)).1
  = deny "Burst limit exceeded"
  /\ (canSendError sampleNextDay sampleNextMonth 1000 2000000 sampleService).1
     = deny "Payload size limit exceeded"
  /\ (canSendError sampleNextDay sampleNextMonth 1000 512 sampleService).1
     = allow.
Proof.
  pose proof (canSendError_priority_and_burst sampleNextDay sampleNextMonth)
    as (P & B & _).
  split; [|split].
  - apply (B sampleService (repeat (1000, 512) 50) 30000 2000000).
    + discriminate.
    + reflexivity.
    + apply (bool_decide_unpack _). vm_compute. exact I.
  - apply (proj1 (proj2 (proj2 (proj2 (P 1000 2000000 sampleService)))));
      reflexivity.
  - apply (proj2 (proj2 (proj2 (proj2 (P 1000 512 sampleService)))));
      first [reflexivity | discriminate].
Defined.


(** *** What is left of the quota *)

Section Remaining.
Variable getNextDayReset : Z -> Z.
Variable getNextMonthReset : Z -> Z.

Abbreviation checkAndResetQuotas' :=
  (checkAndResetQuotas getNextDayReset getNextMonthReset).
Abbreviation canSendError' :=
  (canSendError getNextDayReset getNextMonthReset).
Abbreviation recordErrorSent' :=
  (recordErrorSent getNextDayReset getNextMonthReset).
Abbreviation getRemainingQuota' :=
  (getRemainingQuota getNextDayReset getNextMonthReset).

(** X11.  [canSendError] and [getRemainingQuota], asked at the same
    time, agree: the send is allowed exactly when something is left of
    each of the three counters and the payload is not over its limit;
    a reason is given exactly when the send is refused; and both leave
    the service in the same state. *)
Theorem canSendError_iff_quota_remains (now size : Z)
        (s : QuotaManagerService) :
  let verdict := (canSendError' now size s).1 in
  let left := (getRemainingQuota' now s).1 in
  (allowed verdict = true <->
   0 < burstAmount left /\ 0 < dailyAmount left /\ 0 < monthlyAmount left
   /\ size <= payloadSizeLimit (config s))
  /\ (allowed verdict = true <-> reason verdict = None)
  /\ (canSendError' now size s).2 = (getRemainingQuota' now s).2.
Proof.
  unfold canSendError, getRemainingQuota. cbn zeta.
  set (s' := checkAndResetQuotas' now s).
  assert (Hcfg : config s' = config s) by reflexivity. rewrite Hcfg.
  clearbody s'.
  destruct (Z.geb_spec (used (burst (state s'))) (burstLimit (config s)));
    [|destruct (Z.geb_spec (used (daily (state s'))) (dailyLimit (config s)));
      [|destruct (Z.geb_spec (used (monthly (state s')))
                   (monthlyLimit (config s)));
        [|rewrite Z.gtb_ltb;
          destruct (Z.ltb_spec (payloadSizeLimit (config s)) size)]]];
    cbn; repeat split; intros;
    repeat match goal with H : _ /\ _ |- _ => destruct H end;
    try reflexivity; try congruence; try lia.
Qed.

(** *** Sends that were asked for *)

Lemma checkAndResetQuotas_withinLimits (now : Z) (s : QuotaManagerService) :
  withinLimits s -> withinLimits (checkAndResetQuotas' now s).
Proof.
  unfold withinLimits, checkAndResetQuotas. cbn.
  intros (Hd & Hm & Hb).
  destruct (now >=? resetTime (burst (state s)));
    destruct (now >=? resetTime (daily (state s)));
    destruct (now >=? resetTime (monthly (state s))); cbn; lia.
Qed.

(** X12.  [recordErrorSent] does not look at the limits; it is the
    question asked before it that keeps the counters within them.  On a
    service whose counters are within their limits: asking
    [canSendError] leaves them so, and when the answer allows the send,
    a [recordErrorSent] that follows, at whatever time, leaves them so
    as well. *)
Theorem asked_sends_stay_within_limits (nowAsked nowSent size : Z)
        (s : QuotaManagerService) :
  withinLimits s ->
  let asked := canSendError' nowAsked size s in
  withinLimits asked.2
  /\ (allowed asked.1 = true ->
      withinLimits (recordErrorSent' nowSent size asked.2)).
Proof.
  intros Hs asked.
  assert (Hs' : withinLimits (checkAndResetQuotas' nowAsked s))
    by (apply checkAndResetQuotas_withinLimits; exact Hs).
  assert (Hst : asked.2 = checkAndResetQuotas' nowAsked s).
  { subst asked. unfold canSendError. cbn zeta.
    repeat match goal with |- context [if ?c then _ else _] => destruct c end;
      reflexivity. }
  split; [rewrite Hst; exact Hs'|].
  intros Hallowed.
  assert (Hroom :
            used (burst (state asked.2)) < burstLimit (config asked.2)
            /\ used (daily (state asked.2)) < dailyLimit (config asked.2)
            /\ used (monthly (state asked.2)) < monthlyLimit (config asked.2)).
  { rewrite Hst. subst asked. unfold canSendError in Hallowed.
    cbn zeta in Hallowed.
    set (s' := checkAndResetQuotas' nowAsked s) in *.
    destruct (Z.geb_spec (used (burst (state s'))) (burstLimit (config s')));
      [discriminate Hallowed|].
    destruct (Z.geb_spec (used (daily (state s'))) (dailyLimit (config s')));
      [discriminate Hallowed|].
    destruct (Z.geb_spec (used (monthly (state s')))
                (monthlyLimit (config s'))); [discriminate Hallowed|].
    auto. }
  rewrite Hst in *. clear Hst Hallowed.
  set (s' := checkAndResetQuotas' nowAsked s) in *. clearbody s'.
  destruct Hroom as (Hb & Hd & Hm). destruct Hs' as (Hd' & Hm' & Hb').
  unfold withinLimits, recordErrorSent, checkAndResetQuotas, increment. cbn.
  destruct (nowSent >=? resetTime (burst (state s')));
    destruct (nowSent >=? resetTime (daily (state s')));
    destruct (nowSent >=? resetTime (monthly (state s'))); cbn; lia.
Qed.

(** X13.  [getTimeUntilReset] tells which counters the next look at the
    clock zeroes: a counter for which it reports 0 at [now] is at 0
    after [checkAndResetQuotas] at [now], and a counter for which it
    reports a positive time is left as it is. *)
Theorem getTimeUntilReset_tells_resets (now : Z) (s : QuotaManagerService) :
  let wait := getTimeUntilReset now s in
  let st := state s in
  let st' := state (checkAndResetQuotas' now s) in
  (0 <= burstAmount wait /\ 0 <= dailyAmount wait /\ 0 <= monthlyAmount wait)
  /\ (burstAmount wait = 0 -> used (burst st') = 0)
  /\ (dailyAmount wait = 0 -> used (daily st') = 0)
  /\ (monthlyAmount wait = 0 -> used (monthly st') = 0)
  /\ (0 < burstAmount wait -> burst st' = burst st)
  /\ (0 < dailyAmount wait -> daily st' = daily st)
  /\ (0 < monthlyAmount wait -> monthly st' = monthly st).
Proof.
  unfold getTimeUntilReset, checkAndResetQuotas. cbn.
  destruct (Z.geb_spec now (resetTime (burst (state s))));
    destruct (Z.geb_spec now (resetTime (daily (state s))));
    destruct (Z.geb_spec now (resetTime (monthly (state s))));
    repeat split; intros; try reflexivity; lia.
Qed.
End Remaining.

Lemma canSendError_iff_quota_remains_witness :
  let s :=
    recordAll sampleNextDay sampleNextMonth (repeat (1000, 512) 50)
      sampleService in
  allowed (canSendError sampleNextDay sampleNextMonth 30000 512 s).1 = false
  /\ burstAmount (getRemainingQuota sampleNextDay sampleNextMonth 30000 s).1
     = 0.
Proof.
  intros s.
  pose proof (canSendError_iff_quota_remains sampleNextDay sampleNextMonth
                30000 512 s) as (Hiff & _ & _).
  assert (Hleft : burstAmount
                    (getRemainingQuota sampleNextDay sampleNextMonth 30000 s).1
                  = 0) by (vm_compute; reflexivity).
  split; [|exact Hleft].
  destruct (allowed (canSendError sampleNextDay sampleNextMonth 30000 512 s).1);
    [|reflexivity].
  destruct (proj1 Hiff eq_refl) as [H _]. rewrite Hleft in H. lia.
Defined.

Lemma asked_sends_stay_within_limits_witness :
  let asked := canSendError sampleNextDay sampleNextMonth 1000 512 sampleService in
  withinLimits asked.2
  /\ withinLimits
       (recordErrorSent sampleNextDay sampleNextMonth 61000 512 asked.2).
Proof.
  intros asked.
  destruct (asked_sends_stay_within_limits sampleNextDay sampleNextMonth
              1000 61000 512 sampleService) as [H1 H2].
  - unfold withinLimits. cbn. lia.
  - split; [exact H1|]. apply H2. reflexivity.
Defined.

Lemma getTimeUntilReset_tells_resets_witness :
  let s := recordErrorSent sampleNextDay sampleNextMonth 1000 512 sampleService in
  let s' := checkAndResetQuotas sampleNextDay sampleNextMonth 70000 s in
  used (burst (state s)) = 1
  /\ used (burst (state s')) = 0
  /\ daily (state s') = daily (state s).
Proof.
  intros s s'.
  destruct (getTimeUntilReset_tells_resets sampleNextDay sampleNextMonth
              70000 s) as (_ & Hburst & _ & _ & _ & Hdaily & _).
  split; [reflexivity|]. split; [apply Hburst|apply Hdaily]; reflexivity.
Defined.

End QuotaManagerSpec.

(** ** OfflineManagerService *)

Module OfflineManagerSpec.
Import OfflineManager.

Section Service.
Context {ErrorReport W : Type}.
Variable send : ErrorReport -> W -> bool * W.

(** One pass of the loop body: a resolved send leaves the queue alone; a
    rejected one puts the record, with its count incremented, at the
    front exactly when the incremented count is below 3. *)
Lemma processOne_spec (q : list (QueuedReport ErrorReport)) (w : W)
      (queuedReport : QueuedReport ErrorReport) :
  processOne send (q, w) queuedReport =
  (if negb (send (report queuedReport) w).1
      && (attempts queuedReport + 1 <? 3)
   then bump queuedReport :: q else q,
   (send (report queuedReport) w).2).
Proof.
  unfold processOne. destruct (send (report queuedReport) w) as [[|] w1];
    cbn [fst snd negb andb]; [reflexivity|].
  change (attempts (bump queuedReport)) with (attempts queuedReport + 1).
  destruct (attempts queuedReport + 1 <? 3); reflexivity.
Qed.

Lemma fold_processOne (batch q : list (QueuedReport ErrorReport)) (w : W) :
  fold_left (processOne send) batch (q, w) =
  (rev (retried send batch w).1 ++ q, (retried send batch w).2).
Proof.
  revert q w. induction batch as [|queuedReport batch IH]; intros q w;
    [reflexivity|].
  cbn [fold_left retried]. rewrite processOne_spec, IH.
  destruct (send (report queuedReport) w) as [ok w1]. cbn [fst snd].
  destruct (retried send batch w1) as [rest w2]. cbn [fst snd].
  destruct (negb ok && (attempts queuedReport + 1 <? 3)); cbn [fst snd rev];
    [|reflexivity].
  rewrite <- app_assoc. reflexivity.
Qed.

(** C8.  When [processQueue] runs (a send function is set, no pass is
    under way, the browser is online), it takes the first five records
    off the queue and sends them in order.  A record whose send rejects
    has its count of attempts incremented and is put at the front of
    the queue if and only if the incremented count is below 3; a record
    whose send resolves is not put back.  So a record that has 3
    attempts and fails again is dropped. *)
Theorem processQueue_requeues_below_cap (s : OfflineManagerService ErrorReport W)
        (w : W) (onlineAtEnd : bool) :
  sendReportFunction s = Some send ->
  isProcessing s = false ->
  let r := processQueue true onlineAtEnd s w in
  let batch := take 5 (queue s) in
  queue r.1.1 = rev (retried send batch w).1 ++ drop 5 (queue s)
  /\ r.1.2 = (retried send batch w).2
  /\ (forall (q : list (QueuedReport ErrorReport)) (w0 : W)
             (queuedReport : QueuedReport ErrorReport),
         ((send (report queuedReport) w0).1 = true ->
          (processOne send (q, w0) queuedReport).1 = q)
         /\ ((send (report queuedReport) w0).1 = false ->
             attempts queuedReport + 1 < 3 ->
             (processOne send (q, w0) queuedReport).1
             = bump queuedReport :: q)
         /\ ((send (report queuedReport) w0).1 = false ->
             3 <= attempts queuedReport + 1 ->
             (processOne send (q, w0) queuedReport).1 = q)).
Proof.
  intros Hsend Hproc r batch. subst r. unfold processQueue.
  rewrite Hsend, Hproc. cbn [orb negb]. cbv iota.
  fold batch. rewrite fold_processOne.
  destruct (retried send batch w) as [back w']. cbn [fst snd queue setQueue].
  split; [reflexivity|split; [reflexivity|]].
  intros q w0 queuedReport. rewrite processOne_spec. cbn [fst].
  repeat split.
  - intros ->. reflexivity.
  - intros -> Hlt. apply Z.ltb_lt in Hlt. rewrite Hlt. reflexivity.
  - intros -> Hge. apply Z.ltb_ge in Hge. rewrite Hge. reflexivity.
Qed.
End Service.

Lemma processQueue_requeues_below_cap_witness :
  let r := processQueue true true sampleService 0%nat in
  queue r.1.1 = [sampleQueued 7 2; sampleQueued 1 1; sampleQueued 9 0]
  /\ r.1.2 = 5%nat
  /\ (processOne sampleSend ([], 0%nat) (sampleQueued 5 3)).1 = [].
Proof.
  pose proof (processQueue_requeues_below_cap sampleSend sampleService 0%nat
                true eq_refl eq_refl) as H.
  cbv zeta in H. destruct H as (Hq & Hw & Hone).
  split; [exact Hq|split; [exact Hw|]].
  apply (proj2 (proj2 (Hone [] 0%nat (sampleQueued 5 3))));
    [reflexivity|discriminate].
Defined.


(** *** Queueing *)

Section Queue.
Context {ErrorReport W : Type}.

Lemma last_filter_snoc {A} (P : A -> Prop) `{!forall x, Decision (P x)}
      (l : list A) (x : A) :
  P x -> last (filter P (l ++ [x])) = Some x.
Proof.
  intros Hx. rewrite filter_app, filter_cons_True by exact Hx.
  rewrite filter_nil. apply last_snoc.
Qed.

Lemma length_tail_pred {A} (l : list A) :
  length (tail l) = Nat.pred (length l).
Proof. destruct l; reflexivity. Qed.

(** X14.  [queueReport] on a queue that is within its bound: the queue
    is within its bound afterwards, nothing in it is older than
    [maxAge], and the report just queued is its last entry (provided
    the bound admits an entry at all and the two clock reads of the
    call are less than [maxAge] apart). *)
Theorem queueReport_keeps_queue_bounded
        (s : OfflineManagerService ErrorReport W) (nowQueued nowCleanup : Z)
        (r : ErrorReport) :
  Z.of_nat (length (queue s)) <= maxQueueSize s ->
  let s' := queueReport nowQueued nowCleanup r s in
  Z.of_nat (length (queue s')) <= maxQueueSize s'
  /\ Forall (fun item => nowCleanup - maxAge s < timestamp item) (queue s')
  /\ (1 <= maxQueueSize s -> nowCleanup - maxAge s < nowQueued ->
      last (queue s')
      = Some {| report := r; timestamp := nowQueued; attempts := 0 |}).
Proof.
  intros Hlen s'. subst s'. unfold queueReport, cleanupQueue.
  cbn [queue setQueue maxQueueSize maxAge].
  set (item := {| report := r; timestamp := nowQueued; attempts := 0 |}).
  set (fresh := fun i : QueuedReport ErrorReport =>
                  nowCleanup - maxAge s < timestamp i).
  assert (Hpush : length (queue s ++ [item]) = S (length (queue s)))
    by (rewrite length_app; cbn; lia).
  split; [|split].
  - pose proof (length_filter fresh
                  (if Z.of_nat (length (queue s ++ [item])) >? maxQueueSize s
                   then tail (queue s ++ [item]) else queue s ++ [item]))
      as Hf.
    rewrite Z.gtb_ltb in *.
    destruct (Z.ltb_spec (maxQueueSize s) (Z.of_nat (length (queue s ++ [item]))))
      as [Hover|Hfit].
    + rewrite length_tail_pred in Hf. lia.
    + lia.
  - apply Forall_forall. intros i Hi.
    apply list_elem_of_filter in Hi as [Hi _]. exact Hi.
  - intros Hmax Hfresh. rewrite Z.gtb_ltb.
    destruct (Z.ltb_spec (maxQueueSize s) (Z.of_nat (length (queue s ++ [item]))))
      as [Hover|Hfit].
    + destruct (queue s) as [|q0 q]; [cbn in Hover; lia|].
      cbn [app tail]. apply last_filter_snoc. exact Hfresh.
    + apply last_filter_snoc. exact Hfresh.
Qed.
End Queue.

Lemma queueReport_keeps_queue_bounded_witness :
  let s' := queueReport 5000 5001 11 sampleService in
  Z.of_nat (length (queue s')) <= maxQueueSize s'
  /\ Forall (fun item => 5001 - maxAge sampleService < timestamp item)
       (queue s')
  /\ last (queue s') = Some (Build_QueuedReport 11 5000 0).
Proof.
  destruct (queueReport_keeps_queue_bounded sampleService 5000 5001 11)
    as (H1 & H2 & H3); [cbn; lia|].
  split; [exact H1|split; [exact H2|]].
  apply H3; cbn; lia.
Defined.

(** *** The passes over the queue come to an end *)

Section Drain.
Context {ErrorReport W : Type}.
Variable send : ErrorReport -> W -> bool * W.

Lemma budget_cons (x : QueuedReport ErrorReport)
      (q : list (QueuedReport ErrorReport)) :
  budget (x :: q) = sendsLeft x + budget q.
Proof. reflexivity. Qed.

Lemma budget_app (q1 q2 : list (QueuedReport ErrorReport)) :
  budget (q1 ++ q2) = budget q1 + budget q2.
Proof.
  induction q1 as [|x q1 IH]; [reflexivity|].
  cbn [app]. rewrite !budget_cons, IH. lia.
Qed.

Lemma budget_rev (q : list (QueuedReport ErrorReport)) :
  budget (rev q) = budget q.
Proof.
  induction q as [|x q IH]; [reflexivity|].
  cbn [rev]. rewrite budget_app, IH, !budget_cons. cbn. lia.
Qed.

Lemma budget_length (q : list (QueuedReport ErrorReport)) :
  Z.of_nat (length q) <= budget q.
Proof.
  induction q as [|x q IH]; [cbn; lia|].
  rewrite budget_cons. cbn [length]. unfold sendsLeft. lia.
Qed.

Lemma budget_at_most_three (q : list (QueuedReport ErrorReport)) :
  Forall (fun x => 0 <= attempts x) q ->
  budget q <= 3 * Z.of_nat (length q).
Proof.
  induction 1 as [|x q Hx _ IH]; [cbn; lia|].
  rewrite budget_cons. cbn [length]. unfold sendsLeft. lia.
Qed.

(** Every record of a batch costs the budget one unit at least: it
    leaves the queue, or it comes back with one attempt more. *)
Lemma retried_budget (batch : list (QueuedReport ErrorReport)) (w : W) :
  budget (retried send batch w).1 + Z.of_nat (length batch) <= budget batch.
Proof.
  revert w. induction batch as [|x batch IH]; intros w; [cbn; lia|].
  cbn [retried]. destruct (send (report x) w) as [ok w1].
  specialize (IH w1). destruct (retried send batch w1) as [rest w2].
  cbn [fst] in IH. rewrite (budget_cons x batch). cbn [length].
  destruct (Z.ltb_spec (attempts x + 1) 3); destruct ok;
    cbn [negb andb fst]; rewrite ?budget_cons; unfold sendsLeft;
    cbn [bump attempts]; lia.
Qed.

Lemma processQueue_budget (s : OfflineManagerService ErrorReport W) (w : W)
      (onlineAtEnd : bool) :
  sendReportFunction s = Some send ->
  isProcessing s = false ->
  let r := processQueue true onlineAtEnd s w in
  budget (queue r.1.1) + Z.of_nat (length (take 5 (queue s)))
  <= budget (queue s)
  /\ sendReportFunction r.1.1 = Some send
  /\ isProcessing r.1.1 = false
  /\ r.2 = (0 <? Z.of_nat (length (queue r.1.1))) && onlineAtEnd.
Proof.
  intros Hsend Hproc r. subst r. unfold processQueue.
  rewrite Hsend, Hproc. cbn [orb negb]. cbv iota.
  rewrite fold_processOne.
  pose proof (retried_budget (take 5 (queue s)) w) as Hb.
  destruct (retried send (take 5 (queue s)) w) as [back w'].
  cbn [fst snd queue setQueue sendReportFunction isProcessing] in *.
  repeat split; try assumption.
  rewrite budget_app, budget_rev.
  rewrite <- (take_drop 5 (queue s)) at 3. rewrite budget_app. lia.
Qed.

(** X15.  The passes of [processQueue] that follow one another while
    the browser is online come to an end with an empty queue: each pass
    sends up to five records, and each send either removes its record
    or brings it one attempt closer to the third, after which it is
    dropped.  So a queue is empty after as many passes as its records
    have sends left, which is three per record at most. *)
Theorem passes_drain_queue (s : OfflineManagerService ErrorReport W) (w : W) :
  sendReportFunction s = Some send ->
  isProcessing s = false ->
  (forall n : nat,
      budget (queue s) <= Z.of_nat n -> queue (passes n s w).1 = [])
  /\ (Forall (fun x => 0 <= attempts x) (queue s) ->
      queue (passes (3 * length (queue s)) s w).1 = []).
Proof.
  intros Hsend Hproc.
  assert (Hdrain : forall n s w,
             sendReportFunction s = Some send ->
             isProcessing s = false ->
             budget (queue s) <= Z.of_nat n ->
             queue (passes n s w).1 = []).
  { clear. intros n. induction n as [|n IH]; intros s w Hsend Hproc Hb.
    - cbn [passes fst]. pose proof (budget_length (queue s)) as Hl.
      destruct (queue s); [reflexivity|cbn [length] in Hl; lia].
    - cbn [passes].
      destruct (processQueue_budget s w true Hsend Hproc)
        as (Hless & Hsend' & Hproc' & Hagain).
      destruct (processQueue true true s w) as [[s' w'] again].
      cbn [fst snd] in *. rewrite andb_true_r in Hagain. subst again.
      destruct (Z.ltb_spec 0 (Z.of_nat (length (queue s')))) as [Hmore|Hnone].
      + apply IH; [exact Hsend'|exact Hproc'|].
        pose proof (budget_length (queue s')) as Hl'.
        assert (Hs : (0 < length (queue s))%nat).
        { destruct (queue s) as [|x q] eqn:Hq; [|cbn; lia].
          change (budget []) with 0 in Hless. cbn [take length] in Hless.
          lia. }
        assert (Ht : (0 < length (take 5 (queue s)))%nat).
        { destruct (queue s); [cbn in Hs; lia|cbn; lia]. }
        lia.
      + cbn [fst]. destruct (queue s'); [reflexivity|cbn in Hnone; lia]. }
  split.
  - intros n Hn. apply Hdrain; assumption.
  - intros Hpos. apply Hdrain; [assumption|assumption|].
    pose proof (budget_at_most_three (queue s) Hpos). lia.
Qed.
End Drain.

Lemma passes_drain_queue_witness :
  queue (passes (3 * length (queue sampleService)) sampleService 0%nat).1 = [].
Proof.
  apply (proj2 (passes_drain_queue sampleSend sampleService 0%nat
                  eq_refl eq_refl)).
  repeat constructor; cbn; lia.
Defined.

(** *** Statistics of the queue *)

Section Stats.
Context {ErrorReport W : Type}.

Lemma fold_max_ge (l : list Z) (a : Z) :
  a <= fold_left Z.max l a /\ Forall (fun x => x <= fold_left Z.max l a) l.
Proof.
  revert a. induction l as [|x l IH]; intros a; cbn [fold_left].
  - split; [lia|constructor].
  - destruct (IH (Z.max a x)) as [H1 H2]. split; [lia|].
    constructor; [lia|exact H2].
Qed.

(** X16.  [getQueueStats] on a queue that is not empty gives its
    length and two time stamps between which every time stamp of the
    queue lies; on an empty queue it gives 0 three times. *)
Theorem getQueueStats_bounds (s : OfflineManagerService ErrorReport W) :
  let stats := getQueueStats s in
  size stats = getQueueSize s
  /\ Forall (fun item => oldestTimestamp stats <= timestamp item
                         /\ timestamp item <= newestTimestamp stats)
       (queue s)
  /\ (queue s = [] ->
      stats = {| size := 0; oldestTimestamp := 0; newestTimestamp := 0 |}).
Proof.
  unfold getQueueStats, getQueueSize.
  destruct (queue s) as [|item items]; cbn [size oldestTimestamp newestTimestamp].
  - repeat split. constructor.
  - split; [reflexivity|split; [|discriminate]].
    destruct (RateLimiterSpec.fold_min_le (List.map timestamp items)
                (timestamp item)) as [Hmin Hmins].
    destruct (fold_max_ge (List.map timestamp items) (timestamp item))
      as [Hmax Hmaxs].
    apply RateLimiterSpec.Forall_of_map in Hmins, Hmaxs.
    constructor; [split; assumption|].
    apply Forall_forall. intros i Hi.
    rewrite Forall_forall in Hmins, Hmaxs. split; auto.
Qed.
End Stats.

Lemma getQueueStats_bounds_witness :
  size (getQueueStats sampleService) = 6
  /\ getQueueStats (clearQueue sampleService)
     = {| size := 0; oldestTimestamp := 0; newestTimestamp := 0 |}.
Proof.
  split.
  - rewrite (proj1 (getQueueStats_bounds sampleService)). reflexivity.
  - apply (proj2 (proj2 (getQueueStats_bounds (clearQueue sampleService)))).
    reflexivity.
Defined.

End OfflineManagerSpec.

(** ** BatchManagerService *)

Module BatchManagerSpec.
Import BatchManager.

Section Service.
Context {ErrorData : Type}.
Variable payloadSize : list ErrorData -> Z.

Abbreviation step' := (step payloadSize).
Abbreviation run' := (run payloadSize).

Lemma sendBatch_stats (s : BatchManagerService ErrorData) :
  totalBatches (stats (sendBatch ErrorData s)) = totalBatches (stats s)
  /\ averageBatchSize (stats (sendBatch ErrorData s))
     = averageBatchSize (stats s)
  /\ totalErrors (stats (sendBatch ErrorData s)) = totalErrors (stats s).
Proof. unfold sendBatch. destruct (currentBatch s); cbn; auto. Qed.

(** Only a successful send changes the number of batches and the
    average. *)
Lemma step_other (s : BatchManagerService ErrorData) (e : Event ErrorData) :
  isSuccessfulSend s e = false ->
  totalBatches (stats (step' s e)) = totalBatches (stats s)
  /\ averageBatchSize (stats (step' s e)) = averageBatchSize (stats s).
Proof.
  destruct e as [error | | | i ok now]; cbn [step isSuccessfulSend]; intros He.
  - unfold addToBatch.
    repeat match goal with |- context [if ?b then _ else _] => destruct b end;
      try (cbn; auto; fail).
    match goal with |- context [sendBatch _ ?x] =>
      destruct (sendBatch_stats x) as (-> & -> & _) end.
    cbn. auto.
  - unfold flush. destruct (0 <? _); [|auto].
    destruct (sendBatch_stats s) as (-> & -> & _). auto.
  - unfold timeoutFires. destruct (batchTimeout s); [|auto].
    destruct (0 <? _); [|auto].
    destruct (sendBatch_stats s) as (-> & -> & _). auto.
  - unfold settle. destruct (inFlight s !! i) as [batch|] eqn:Hi; [|auto].
    destruct ok; [|cbn; auto].
    rewrite bool_decide_eq_true_2 in He by eauto. discriminate He.
Qed.

Lemma settle_success (s : BatchManagerService ErrorData) (i : nat) (now : Z) :
  is_Some (inFlight s !! i) ->
  0 <= totalBatches (stats s) ->
  let s' := settle i true now s in
  totalBatches (stats s') = totalBatches (stats s) + 1
  /\ totalErrors (stats s') = totalErrors (stats s)
  /\ averageBatchSize (stats s')
     = (inject_Z (totalErrors (stats s')) / inject_Z (totalBatches (stats s')))%Q.
Proof.
  intros [batch Hi] Hpos s'. subst s'. unfold settle. rewrite Hi.
  unfold updateAverageBatchSize. cbn [totalBatches totalErrors stats].
  rewrite Z.gtb_ltb.
  destruct (Z.ltb_spec 0 (totalBatches (stats s) + 1)); [|lia].
  cbn. auto.
Qed.

Lemma step_totalBatches (s : BatchManagerService ErrorData)
      (e : Event ErrorData) :
  0 <= totalBatches (stats s) ->
  totalBatches (stats (step' s e))
  = totalBatches (stats s) + (if isSuccessfulSend s e then 1 else 0).
Proof.
  intros Hpos. destruct (isSuccessfulSend s e) eqn:He.
  - destruct e as [| | | i [|] now]; try discriminate He.
    cbn [isSuccessfulSend] in He. apply bool_decide_eq_true in He.
    apply (settle_success s i now He Hpos).
  - rewrite (proj1 (step_other s e He)). lia.
Qed.

Lemma successfulSends_nonneg (events : list (Event ErrorData))
      (s : BatchManagerService ErrorData) :
  0 <= successfulSends payloadSize events s.
Proof.
  revert s. induction events as [|e events IH]; intros s; cbn; [lia|].
  specialize (IH (step' s e)). destruct (isSuccessfulSend s e); lia.
Qed.

Lemma run_totalBatches (events : list (Event ErrorData))
      (s : BatchManagerService ErrorData) :
  0 <= totalBatches (stats s) ->
  totalBatches (stats (run' events s))
  = totalBatches (stats s) + successfulSends payloadSize events s.
Proof.
  revert s. induction events as [|e events IH]; intros s Hpos; cbn; [lia|].
  pose proof (step_totalBatches s e Hpos) as Hstep.
  unfold run in IH. rewrite IH; [rewrite Hstep; lia|].
  rewrite Hstep. destruct (isSuccessfulSend s e); lia.
Qed.

(** Every item passed to [addToBatch] is counted in [totalErrors], and
    nothing else is. *)
Lemma step_totalErrors (s : BatchManagerService ErrorData)
      (e : Event ErrorData) :
  totalErrors (stats (step' s e))
  = totalErrors (stats s) + Z.of_nat (length (added [e])).
Proof.
  destruct e as [error | | | i ok now]; cbn [step added flat_map app length].
  - unfold addToBatch.
    repeat match goal with |- context [if ?b then _ else _] => destruct b end;
      try (cbn; lia).
    match goal with |- context [sendBatch _ ?x] =>
      destruct (sendBatch_stats x) as (_ & _ & ->) end.
    cbn. lia.
  - unfold flush. destruct (0 <? _); [|lia].
    destruct (sendBatch_stats s) as (_ & _ & ->). lia.
  - unfold timeoutFires. destruct (batchTimeout s); [|lia].
    destruct (0 <? _); [|lia].
    destruct (sendBatch_stats s) as (_ & _ & ->). lia.
  - unfold settle. destruct (inFlight s !! i) as [batch|]; [|lia].
    destruct ok; [|cbn; lia]. unfold updateAverageBatchSize.
    cbn [totalBatches totalErrors stats].
    destruct (_ >? 0); cbn; lia.
Qed.

Lemma run_totalErrors (events : list (Event ErrorData))
      (s : BatchManagerService ErrorData) :
  totalErrors (stats (run' events s))
  = totalErrors (stats s) + Z.of_nat (length (added events)).
Proof.
  revert s. induction events as [|e events IH]; intros s; [cbn; lia|].
  unfold run in *. cbn [fold_left]. rewrite IH, step_totalErrors.
  unfold added. cbn [flat_map]. rewrite !length_app. cbn [length]. lia.
Qed.

(** C9 (as amended).  In every state that the service reaches,
    [totalErrors] counts the items passed to [addToBatch] and
    [totalBatches] counts the sends that succeeded; right after a send
    succeeds the average is the quotient of the two, the number of
    items ever added divided by the number of batches whose send
    succeeded; every other event (an item added, a flush, a timeout, a
    failed send) leaves the number of batches and the average as they
    are. *)
Theorem averageBatchSize_follows_successful_sends (c : BatchConfig)
        (hasSend : bool) (events : list (Event ErrorData)) :
  let s := run' events (create c hasSend) in
  totalErrors (stats s) = Z.of_nat (length (added events))
  /\ totalBatches (stats s)
     = successfulSends payloadSize events (create c hasSend)
  /\ (forall (i : nat) (now : Z),
         is_Some (inFlight s !! i) ->
         let s' := settle i true now s in
         totalErrors (stats s') = Z.of_nat (length (added events))
         /\ totalBatches (stats s')
            = successfulSends payloadSize events (create c hasSend) + 1
         /\ averageBatchSize (stats s')
            = (inject_Z (totalErrors (stats s'))
               / inject_Z (totalBatches (stats s')))%Q)
  /\ (forall e : Event ErrorData,
         isSuccessfulSend s e = false ->
         totalBatches (stats (step' s e)) = totalBatches (stats s)
         /\ averageBatchSize (stats (step' s e)) = averageBatchSize (stats s)).
Proof.
  intros s.
  assert (Hitems : totalErrors (stats s) = Z.of_nat (length (added events))).
  { unfold s. rewrite run_totalErrors. cbn. lia. }
  assert (Htotal : totalBatches (stats s)
                   = successfulSends payloadSize events (create c hasSend)).
  { unfold s. rewrite run_totalBatches; cbn; lia. }
  split; [exact Hitems|]. split; [exact Htotal|split].
  - intros i now Hi s'.
    assert (Hpos : 0 <= totalBatches (stats s)).
    { rewrite Htotal. apply successfulSends_nonneg. }
    destruct (settle_success s i now Hi Hpos) as (H1 & H2 & H3).
    fold s' in H1, H2, H3.
    split; [congruence|]. split; [congruence|exact H3].
  - intros e He. apply step_other. exact He.
Qed.
End Service.

Lemma averageBatchSize_follows_successful_sends_witness :
  (let s :=
     run sampleSize (repeat (AddToBatch tt) 10) (create defaultConfig true) in
   let s' := settle 0 true 1000 s in
   totalErrors (stats s') = 10
   /\ totalBatches (stats s') = 1
   /\ averageBatchSize (stats s')
      = (inject_Z (totalErrors (stats s'))
         / inject_Z (totalBatches (stats s')))%Q)
  /\ (let s :=
        run sampleSize (repeat (AddToBatch tt) 10 ++ [Settle 0 true 1000])
          (create defaultConfig true) in
      totalBatches (stats (step sampleSize s (AddToBatch tt)))
      = totalBatches (stats s)
      /\ averageBatchSize (stats (step sampleSize s (AddToBatch tt)))
         = averageBatchSize (stats s)).
Proof.
  split.
  - refine (proj1 (proj2 (proj2
              (averageBatchSize_follows_successful_sends sampleSize
                 defaultConfig true (repeat (AddToBatch tt) 10))))
              0%nat 1000 _).
    vm_compute. eauto.
  - refine (proj2 (proj2 (proj2
              (averageBatchSize_follows_successful_sends sampleSize
                 defaultConfig true
                 (repeat (AddToBatch tt) 10 ++ [Settle 0 true 1000]))))
              (AddToBatch tt) _).
    vm_compute. reflexivity.
Defined.

(** C9 (as stated) fails: the average is not kept equal to the quotient
    of the two counters.  After ten items, one successful send and one
    more item, there are 11 items and 1 batch, and the average is still
    10. *)
Lemma averageBatchSize_stale_after_add :
  totalErrors (stats sampleRun) = 11
  /\ totalBatches (stats sampleRun) = 1
  /\ (averageBatchSize (stats sampleRun) == 10)%Q
  /\ ~ (averageBatchSize (stats sampleRun)
        == inject_Z (totalErrors (stats sampleRun))
           / inject_Z (totalBatches (stats sampleRun)))%Q.
Proof.
  vm_compute. split; [reflexivity|]. split; [reflexivity|].
  split; [reflexivity|discriminate].
Qed.


(** *** What holds between two events *)

Section Invariants.
Context {ErrorData : Type}.
Variable payloadSize : list ErrorData -> Z.

Abbreviation step' := (step payloadSize).
Abbreviation run' := (run payloadSize).

Lemma sendBatch_wellFormed (s : BatchManagerService ErrorData) :
  currentBatch s <> [] ->
  wellFormed payloadSize (sendBatch ErrorData s)
  /\ config (sendBatch ErrorData s) = config s.
Proof.
  unfold sendBatch, wellFormed. destruct (currentBatch s) as [|x l] eqn:Hb;
    [congruence|]. intros _. cbn. repeat split; try congruence.
Qed.

Lemma step_keeps_config (s : BatchManagerService ErrorData) (e : Event ErrorData) :
  config (step' s e) = config s.
Proof.
  destruct e as [error | | | i ok now]; cbn [step].
  - unfold addToBatch.
    repeat match goal with |- context [if ?b then _ else _] => destruct b end;
      try reflexivity.
    unfold sendBatch. cbn [currentBatch].
    destruct (currentBatch s ++ [error]); reflexivity.
  - unfold flush, sendBatch. destruct (0 <? _); [|reflexivity].
    destruct (currentBatch s); reflexivity.
  - unfold timeoutFires, sendBatch. destruct (batchTimeout s); [|reflexivity].
    destruct (0 <? _); [|reflexivity]. destruct (currentBatch s); reflexivity.
  - unfold settle. destruct (inFlight s !! i); reflexivity.
Qed.

Lemma step_wellFormed (s : BatchManagerService ErrorData)
      (e : Event ErrorData) :
  wellFormed payloadSize s -> wellFormed payloadSize (step' s e).
Proof.
  intros Hs. pose proof Hs as (Hsize & Htimer & Hroom).
  destruct e as [error | | | i ok now]; cbn [step].
  - unfold addToBatch.
    set (s1 := {| config := config s;
                  currentBatch := currentBatch s ++ [error];
                  batchTimeout := batchTimeout s;
                  stats := _; hasSendFunction := hasSendFunction s;
                  inFlight := inFlight s |}).
    assert (Hne : currentBatch s1 <> [])
      by (cbn; destruct (currentBatch s); discriminate).
    destruct (shouldSendBatch ErrorData payloadSize s1) eqn:Hsend.
    + apply sendBatch_wellFormed. exact Hne.
    + unfold shouldSendBatch in Hsend.
      destruct (Z.geb_spec (Z.of_nat (length (currentBatch s1)))
                  (batchSize (config s1))) as [?|Hlen]; [discriminate|].
      rewrite Z.geb_leb in Hsend. apply Z.leb_gt in Hsend.
      destruct (batchTimeout s1) eqn:Ht; cbn [negb].
      * unfold wellFormed. repeat split; intros; try assumption;
          reflexivity.
      * unfold wellFormed, startBatchTimeout. cbn [currentBatch batchTimeout
          stats config]. repeat split; intros; try assumption; reflexivity.
  - unfold flush. destruct (Z.ltb_spec 0 (Z.of_nat (length (currentBatch s)))).
    + apply sendBatch_wellFormed. destruct (currentBatch s); [cbn in *; lia|].
      discriminate.
    + exact Hs.
  - unfold timeoutFires. destruct (batchTimeout s); [|exact Hs].
    destruct (Z.ltb_spec 0 (Z.of_nat (length (currentBatch s)))).
    + apply sendBatch_wellFormed. destruct (currentBatch s); [cbn in *; lia|].
      discriminate.
    + exact Hs.
  - unfold settle. destruct (inFlight s !! i) as [batch|];
      [|exact Hs].
    unfold wellFormed. cbn [stats currentBatch batchTimeout config].
    assert (Hcur : forall st n, currentSize (updateAverageBatchSize n st)
                                = currentSize st).
    { intros st n. unfold updateAverageBatchSize.
      destruct (totalBatches st >? 0); reflexivity. }
    destruct ok; rewrite ?Hcur; cbn [currentSize]; exact Hs.
Qed.

Lemma run_wellFormed (events : list (Event ErrorData))
      (s : BatchManagerService ErrorData) :
  wellFormed payloadSize s ->
  wellFormed payloadSize (run' events s)
  /\ config (run' events s) = config s.
Proof.
  revert s. induction events as [|e events IH]; intros s Hs; [split; auto|].
  unfold run in *. cbn [fold_left].
  destruct (IH (step' s e) (step_wellFormed s e Hs)) as [H1 H2].
  split; [exact H1|]. rewrite H2. apply step_keeps_config.
Qed.

Lemma reached_wellFormed (c : BatchConfig) (hasSend : bool)
      (events : list (Event ErrorData)) :
  wellFormed payloadSize (run' events (create c hasSend))
  /\ config (run' events (create c hasSend)) = c.
Proof.
  apply (run_wellFormed events (create c hasSend)).
  unfold wellFormed. cbn. repeat split; congruence.
Qed.


(** *** Nothing is lost, unless no send function is set *)

Lemma added_cons (e : Event ErrorData) (events : list (Event ErrorData)) :
  added (e :: events) = added [e] ++ added events.
Proof. unfold added. cbn [flat_map]. rewrite app_nil_r. reflexivity. Qed.

Lemma sendBatch_hands_over (s : BatchManagerService ErrorData) :
  hasSendFunction s = true ->
  concat (inFlight (sendBatch ErrorData s))
  ++ currentBatch (sendBatch ErrorData s)
  = concat (inFlight s) ++ currentBatch s
  /\ hasSendFunction (sendBatch ErrorData s) = true
  /\ (Forall (fun batch => batch <> []) (inFlight s) ->
      Forall (fun batch => batch <> []) (inFlight (sendBatch ErrorData s))).
Proof.
  intros Hsend. unfold sendBatch.
  destruct (currentBatch s) as [|x l] eqn:Hb.
  - rewrite Hb. auto.
  - cbn [inFlight currentBatch hasSendFunction]. rewrite Hsend.
    rewrite concat_app. cbn [concat]. rewrite !app_nil_r.
    repeat split. intros H. apply Forall_app. split; [exact H|].
    constructor; [discriminate|constructor].
Qed.

Lemma step_hands_over (s : BatchManagerService ErrorData)
      (e : Event ErrorData) :
  hasSendFunction s = true ->
  isSettle e = false ->
  concat (inFlight (step' s e)) ++ currentBatch (step' s e)
  = (concat (inFlight s) ++ currentBatch s) ++ added [e]
  /\ hasSendFunction (step' s e) = true
  /\ (Forall (fun batch => batch <> []) (inFlight s) ->
      Forall (fun batch => batch <> []) (inFlight (step' s e))).
Proof.
  intros Hsend He.
  destruct e as [error | | | i ok now]; cbn [step added flat_map app];
    [| | |discriminate He]; rewrite ?app_nil_r.
  - unfold addToBatch.
    set (s1 := {| config := config s;
                  currentBatch := currentBatch s ++ [error];
                  batchTimeout := batchTimeout s;
                  stats := _; hasSendFunction := hasSendFunction s;
                  inFlight := inFlight s |}).
    assert (H1 : concat (inFlight s1) ++ currentBatch s1
                 = (concat (inFlight s) ++ currentBatch s) ++ [error])
      by (cbn; rewrite app_assoc; reflexivity).
    destruct (shouldSendBatch ErrorData payloadSize s1).
    + destruct (sendBatch_hands_over s1 Hsend) as (H2 & H3 & H4).
      rewrite H2, H1. auto.
    + destruct (negb (batchTimeout s1)); cbn; rewrite ?app_assoc; auto.
  - unfold flush. destruct (0 <? _); [|auto].
    apply sendBatch_hands_over. exact Hsend.
  - unfold timeoutFires. destruct (batchTimeout s); [|auto].
    destruct (0 <? _); [|auto]. apply sendBatch_hands_over. exact Hsend.
Qed.

(** X18.  With a send function set and while no send has settled, no
    item is lost, doubled or moved: the batches handed to the send
    function, in the order of the hand-over, followed by the current
    batch, are the items added, in the order in which they were added;
    and no empty batch is handed over. *)
Theorem batches_hold_added_items_in_order (c : BatchConfig)
        (events : list (Event ErrorData)) :
  Forall (fun e => isSettle e = false) events ->
  let s := run' events (create c true) in
  concat (inFlight s) ++ currentBatch s = added events
  /\ Forall (fun batch => batch <> []) (inFlight s).
Proof.
  assert (Hrun : forall events s,
             hasSendFunction s = true ->
             Forall (fun batch => batch <> []) (inFlight s) ->
             Forall (fun e => isSettle e = false) events ->
             concat (inFlight (run' events s)) ++ currentBatch (run' events s)
             = (concat (inFlight s) ++ currentBatch s) ++ added events
             /\ Forall (fun batch => batch <> []) (inFlight (run' events s))).
  { clear. intros events.
    induction events as [|e events IH]; intros s Hsend Hne Hev.
    - cbn. rewrite app_nil_r. auto.
    - apply Forall_cons in Hev as [He Hev]. unfold run in *. cbn [fold_left].
      destruct (step_hands_over s e Hsend He) as (H1 & H2 & H3).
      destruct (IH (step' s e) H2 (H3 Hne) Hev) as [H4 H5].
      split; [|exact H5]. rewrite H4, H1, <- app_assoc.
      rewrite (added_cons e events). reflexivity. }
  intros Hev s. apply (Hrun events (create c true)); [reflexivity| |exact Hev].
  constructor.
Qed.

Lemma step_without_send (s : BatchManagerService ErrorData)
      (e : Event ErrorData) :
  hasSendFunction s = false -> inFlight s = [] ->
  hasSendFunction (step' s e) = false
  /\ inFlight (step' s e) = []
  /\ totalErrors (stats (step' s e))
     = totalErrors (stats s) + Z.of_nat (length (added [e]))
  /\ totalBatches (stats (step' s e)) = totalBatches (stats s).
Proof.
  intros Hsend Hfl.
  assert (Hsb : forall s1, hasSendFunction s1 = false -> inFlight s1 = [] ->
                  hasSendFunction (sendBatch ErrorData s1) = false
                  /\ inFlight (sendBatch ErrorData s1) = []
                  /\ totalErrors (stats (sendBatch ErrorData s1))
                     = totalErrors (stats s1)
                  /\ totalBatches (stats (sendBatch ErrorData s1))
                     = totalBatches (stats s1)).
  { intros s1 H1 H2. unfold sendBatch. destruct (currentBatch s1); [auto|].
    cbn. rewrite H1. auto. }
  destruct e as [error | | | i ok now]; cbn [step added flat_map app length].
  - unfold addToBatch.
    repeat match goal with |- context [if ?b then _ else _] => destruct b end;
      try (cbn; repeat split; try assumption; lia).
    match goal with |- context [sendBatch _ ?x] =>
      destruct (Hsb x Hsend Hfl) as (-> & -> & -> & ->) end.
    cbn. repeat split; lia.
  - unfold flush. destruct (0 <? _); [|repeat split; try assumption; lia].
    destruct (Hsb s Hsend Hfl) as (-> & -> & -> & ->). repeat split; lia.
  - unfold timeoutFires.
    destruct (batchTimeout s); [|repeat split; try assumption; lia].
    destruct (0 <? _); [|repeat split; try assumption; lia].
    destruct (Hsb s Hsend Hfl) as (-> & -> & -> & ->). repeat split; lia.
  - unfold settle. rewrite Hfl, lookup_nil.
    repeat split; try assumption; lia.
Qed.

(** X19.  Without a send function nothing is ever handed over, and yet
    the batch is emptied when it is full, when it is flushed and when
    the timer fires: the items counted in [totalErrors] are all the
    items added, while the current batch, the only place where they
    could be, stays below [batchSize]. *)
Theorem without_send_function_items_are_dropped (c : BatchConfig)
        (events : list (Event ErrorData)) :
  let s := run' events (create c false) in
  inFlight s = []
  /\ totalBatches (stats s) = 0
  /\ totalErrors (stats s) = Z.of_nat (length (added events))
  /\ (1 <= batchSize c -> Z.of_nat (length (currentBatch s)) < batchSize c).
Proof.
  assert (Hrun : forall events s,
             hasSendFunction s = false -> inFlight s = [] ->
             hasSendFunction (run' events s) = false
             /\ inFlight (run' events s) = []
             /\ totalErrors (stats (run' events s))
                = totalErrors (stats s) + Z.of_nat (length (added events))
             /\ totalBatches (stats (run' events s))
                = totalBatches (stats s)).
  { clear. intros events.
    induction events as [|e events IH]; intros s Hsend Hfl.
    - cbn. repeat split; try assumption; lia.
    - unfold run in *. cbn [fold_left].
      destruct (step_without_send s e Hsend Hfl) as (H1 & H2 & H3 & H3').
      destruct (IH (step' s e) H1 H2) as (H4 & H5 & H6 & H7).
      repeat split; try assumption; [|congruence]. rewrite H6, H3.
      rewrite (added_cons e events), length_app. lia. }
  intros s. destruct (Hrun events (create c false) eq_refl eq_refl)
    as (H1 & H2 & H3 & H4).
  fold s in H1, H2, H3, H4. cbn [create stats totalErrors totalBatches] in H3, H4.
  split; [exact H2|]. split; [exact H4|split; [lia|]].
  - intros Hsize.
    destruct (reached_wellFormed c false events) as [(_ & _ & Hroom) Hcfg].
    fold s in Hroom, Hcfg. rewrite Hcfg in Hroom.
    destruct (currentBatch s) as [|x l] eqn:Hb; [cbn; lia|].
    apply Hroom. discriminate.
Qed.
End Invariants.

Lemma batches_hold_added_items_in_order_witness :
  let events := repeat (AddToBatch tt) 12 ++ [Flush; AddToBatch tt] in
  let s := run sampleSize events (create defaultConfig true) in
  concat (inFlight s) ++ currentBatch s = added events
  /\ Forall (fun batch => batch <> []) (inFlight s).
Proof.
  apply (batches_hold_added_items_in_order sampleSize defaultConfig
           (repeat (AddToBatch tt) 12 ++ [Flush; AddToBatch tt])).
  repeat constructor.
Defined.

Lemma without_send_function_items_are_dropped_witness :
  let s :=
    run sampleSize (repeat (AddToBatch tt) 12) (create defaultConfig false) in
  totalErrors (stats s) = 12
  /\ Z.of_nat (length (currentBatch s)) < batchSize defaultConfig
  /\ inFlight s = [].
Proof.
  intros s.
  destruct (without_send_function_items_are_dropped sampleSize defaultConfig
              (repeat (AddToBatch tt) 12)) as (H1 & _ & H3 & H4).
  fold s in H1, H3, H4.
  split; [exact H3|split; [apply H4; cbn; lia|exact H1]].
Defined.


End BatchManagerSpec.

(** ** SDKMonitorService *)

Module SDKMonitorSpec.
Import SDKMonitor.

Lemma recordRequestSuccess_unknown (now : Z) (requestId : jsstring) (size : Z)
      (s : SDKMonitorService) :
  requests s !! requestId = None ->
  recordRequestSuccess now requestId size s = s.
Proof. intros H. unfold recordRequestSuccess. rewrite H. reflexivity. Qed.

Lemma recordRequestFailure_unknown (now : Z) (requestId err : jsstring)
      (s : SDKMonitorService) :
  requests s !! requestId = None ->
  recordRequestFailure now requestId err s = s.
Proof. intros H. unfold recordRequestFailure. rewrite H. reflexivity. Qed.

(** The map of active requests holds exactly the identifiers that were
    issued and not completed since, whatever other methods ran. *)
Lemma perform_requests (s : SDKMonitorService) (m : Method)
      (requestId : jsstring) :
  bool_decide (is_Some (requests (perform s m) !! requestId))
  = pendingStep requestId
      (bool_decide (is_Some (requests s !! requestId))) m.
Proof.
  destruct m as [size | | [now i | now i size | now i err] | size | now];
    cbn [perform step pendingStep]; try reflexivity.
  - unfold recordRequestStart. cbn [requests].
    destruct (decide (i = requestId)) as [->|Hi].
    + rewrite (bool_decide_eq_true_2 (requestId = requestId) eq_refl).
      rewrite lookup_insert_eq. apply bool_decide_eq_true_2. eauto.
    + rewrite (bool_decide_eq_false_2 (i = requestId) Hi).
      rewrite lookup_insert_ne by exact Hi. reflexivity.
  - unfold recordRequestSuccess.
    destruct (decide (i = requestId)) as [->|Hi].
    + rewrite (bool_decide_eq_true_2 (requestId = requestId) eq_refl).
      cbn [negb andb]. destruct (requests s !! requestId) eqn:Hl.
      * cbn [requests]. rewrite lookup_delete_eq.
        apply bool_decide_eq_false_2. intros [? ?]; discriminate.
      * rewrite Hl. apply bool_decide_eq_false_2. intros [? ?]; discriminate.
    + rewrite (bool_decide_eq_false_2 (i = requestId) Hi). cbn [negb andb].
      destruct (requests s !! i); [|reflexivity].
      cbn [requests]. rewrite lookup_delete_ne by exact Hi. reflexivity.
  - unfold recordRequestFailure.
    destruct (decide (i = requestId)) as [->|Hi].
    + rewrite (bool_decide_eq_true_2 (requestId = requestId) eq_refl).
      cbn [negb andb]. destruct (requests s !! requestId) eqn:Hl.
      * cbn [requests]. rewrite lookup_delete_eq.
        apply bool_decide_eq_false_2. intros [? ?]; discriminate.
      * rewrite Hl. apply bool_decide_eq_false_2. intros [? ?]; discriminate.
    + rewrite (bool_decide_eq_false_2 (i = requestId) Hi). cbn [negb andb].
      destruct (requests s !! i); [|reflexivity].
      cbn [requests]. rewrite lookup_delete_ne by exact Hi. reflexivity.
Qed.

Lemma performAll_requests (ms : list Method) (s : SDKMonitorService)
      (requestId : jsstring) :
  bool_decide (is_Some (requests (performAll ms s) !! requestId))
  = pending requestId ms (bool_decide (is_Some (requests s !! requestId))).
Proof.
  revert s. induction ms as [|m ms IH]; intros s; [reflexivity|].
  unfold performAll, pending in *. cbn [fold_left].
  rewrite IH, perform_requests. reflexivity.
Qed.

(** C10.  After any calls of its methods on a new monitor, when
    [requestId] is not pending (it was never issued by
    [recordRequestStart], or it was completed or forgotten by [reset]
    since it was last issued), [recordRequestSuccess] and
    [recordRequestFailure] with that identifier return the service as it
    is: counters, response-time window, average and active requests. *)
Theorem completion_of_unknown_request_is_noop (start : Z) (ms : list Method)
        (requestId : jsstring) :
  pending requestId ms false = false ->
  let s := performAll ms (create start) in
  forall (now size : Z) (err : jsstring),
    recordRequestSuccess now requestId size s = s
    /\ recordRequestFailure now requestId err s = s.
Proof.
  intros Hpending s now size err.
  assert (Hnone : requests s !! requestId = None).
  { pose proof (performAll_requests ms (create start) requestId) as H.
    cbn [create requests] in H. rewrite lookup_empty in H.
    rewrite (bool_decide_eq_false_2 (is_Some (@None RequestMetrics))
               is_Some_None) in H.
    fold s in H. rewrite Hpending in H. apply bool_decide_eq_false in H.
    apply eq_None_not_Some. exact H. }
  split.
  - apply recordRequestSuccess_unknown. exact Hnone.
  - apply recordRequestFailure_unknown. exact Hnone.
Qed.

Lemma completion_of_unknown_request_is_noop_witness :
  let s :=
    performAll
      [RecordErrorReported 512;
       Request (RecordRequestStart 1000 (js "req_1000_ab12"));
       RecordQueueSize 3;
       Request (RecordRequestStart 1005 (js "req_1005_cd34"));
       Request (RecordRequestFailure 1200 (js "req_1000_ab12")
                  (js "Payload size (9 bytes) exceeds maximum allowed (2 bytes)"));
       RecordErrorDropped]
      (create 0) in
  (recordRequestSuccess 1300 (js "req_1000_ab12") 512 s = s
   /\ recordRequestFailure 1300 (js "req_1000_ab12")
        (js "Payload validation failed") s = s)
  /\ (recordRequestSuccess 1300 (js "req_never") 512 s = s
      /\ recordRequestFailure 1300 (js "req_never") (js "HTTP 500: x") s = s)
  /\ (recordRequestSuccess 1300 (js "req_1005_cd34") 512
        (perform s (Reset 1250)) = perform s (Reset 1250)).
Proof.
  intros s.
  pose (ms := [RecordErrorReported 512;
               Request (RecordRequestStart 1000 (js "req_1000_ab12"));
               RecordQueueSize 3;
               Request (RecordRequestStart 1005 (js "req_1005_cd34"));
               Request (RecordRequestFailure 1200 (js "req_1000_ab12")
                          (js "Payload size (9 bytes) exceeds maximum allowed (2 bytes)"));
               RecordErrorDropped]).
  split; [|split].
  - apply (completion_of_unknown_request_is_noop 0 ms (js "req_1000_ab12")).
    vm_compute. reflexivity.
  - apply (completion_of_unknown_request_is_noop 0 ms (js "req_never")).
    vm_compute. reflexivity.
  - apply (completion_of_unknown_request_is_noop 0 (ms ++ [Reset 1250])
             (js "req_1005_cd34") eq_refl 1300 512 (js "x")).
Defined.


(** *** The window of response times *)

Lemma pushResponseTime_length (t : Z) (times : list Z) :
  (length times <= 100)%nat -> (length (pushResponseTime t times) <= 100)%nat.
Proof.
  intros H. unfold pushResponseTime, MAX_RESPONSE_TIMES.
  rewrite Z.gtb_ltb.
  destruct (Z.ltb_spec 100 (Z.of_nat (length (times ++ [t])))) as [Hover|Hfit];
    [|lia].
  rewrite length_app in Hover. cbn [length] in Hover.
  destruct times as [|x times]; cbn [app tail length] in *; [lia|].
  rewrite length_app. cbn [length]. lia.
Qed.

Lemma sum_between (lo hi : Z) (l : list Z) (acc : Z) :
  Forall (fun t => lo <= t <= hi) l ->
  acc + lo * Z.of_nat (length l) <= fold_left Z.add l acc
  /\ fold_left Z.add l acc <= acc + hi * Z.of_nat (length l).
Proof.
  intros H. revert acc. induction H as [|t l Ht _ IH]; intros acc.
  - cbn. lia.
  - cbn [fold_left length]. destruct (IH (acc + t)) as [H1 H2]. split; nia.
Qed.

Lemma roundDiv_between (lo hi sum n : Z) :
  0 < n -> lo * n <= sum -> sum <= hi * n ->
  lo <= roundDiv sum n <= hi.
Proof.
  intros Hn Hlo Hhi. unfold roundDiv. split.
  - apply Z.div_le_lower_bound; nia.
  - apply Z.lt_succ_r. apply Z.div_lt_upper_bound; nia.
Qed.

(** What the window and the average are to each other. *)
Lemma updateAverageResponseTime_average (times : list Z) (m : SDKMetrics) :
  averageResponseTime (updateAverageResponseTime times m)
  = match times with
    | [] => 0
    | _ :: _ => roundDiv (fold_left Z.add times 0) (Z.of_nat (length times))
    end.
Proof. reflexivity. Qed.

Lemma perform_window (s : SDKMonitorService) (m : Method) :
  (length (responseTimes s) <= 100)%nat ->
  averageResponseTime (metrics s)
  = averageResponseTime (updateAverageResponseTime (responseTimes s) (metrics s)) ->
  let s' := perform s m in
  (length (responseTimes s') <= 100)%nat
  /\ averageResponseTime (metrics s')
     = averageResponseTime
         (updateAverageResponseTime (responseTimes s') (metrics s')).
Proof.
  intros Hlen Havg.
  destruct m as [size | | [now i | now i size | now i err] | size | now];
    cbn [perform step]; cbv zeta.
  - split; [exact Hlen|exact Havg].
  - split; [exact Hlen|exact Havg].
  - split; [exact Hlen|exact Havg].
  - unfold recordRequestSuccess. destruct (requests s !! i);
      [|split; [exact Hlen|exact Havg]].
    cbn [responseTimes metrics].
    split; [apply pushResponseTime_length; exact Hlen|reflexivity].
  - unfold recordRequestFailure. destruct (requests s !! i);
      [|split; [exact Hlen|exact Havg]].
    cbn [responseTimes metrics].
    split; [apply pushResponseTime_length; exact Hlen|reflexivity].
  - split; [exact Hlen|exact Havg].
  - cbn. split; [lia|reflexivity].
Qed.

(** X20.  After any calls on a new monitor, resets included: the
    window of response times holds 100 entries at most; with an empty
    window the average shown is 0; otherwise the average shown lies
    between any two bounds between which all the response times of the
    window lie. *)
Theorem averageResponseTime_within_window (start : Z) (ms : list Method) :
  let s := performAll ms (create start) in
  (length (responseTimes s) <= 100)%nat
  /\ (responseTimes s = [] -> averageResponseTime (metrics s) = 0)
  /\ (forall lo hi : Z,
         responseTimes s <> [] ->
         Forall (fun t => lo <= t <= hi) (responseTimes s) ->
         lo <= averageResponseTime (metrics s) <= hi).
Proof.
  assert (Hrun : forall ms s,
             (length (responseTimes s) <= 100)%nat ->
             averageResponseTime (metrics s)
             = averageResponseTime
                 (updateAverageResponseTime (responseTimes s) (metrics s)) ->
             (length (responseTimes (performAll ms s)) <= 100)%nat
             /\ averageResponseTime (metrics (performAll ms s))
                = averageResponseTime
                    (updateAverageResponseTime
                       (responseTimes (performAll ms s))
                       (metrics (performAll ms s)))).
  { clear. intros ms. induction ms as [|m ms IH]; intros s Hlen Havg;
      [split; assumption|].
    unfold performAll in *. cbn [fold_left].
    destruct (perform_window s m Hlen Havg) as [H1 H2]. apply IH; assumption. }
  intros s. destruct (Hrun ms (create start)) as [Hlen Havg];
    [cbn; lia|reflexivity|].
  fold s in Hlen, Havg. rewrite updateAverageResponseTime_average in Havg.
  split; [exact Hlen|split].
  - intros Hnil. rewrite Havg, Hnil. reflexivity.
  - intros lo hi Hne Hall. rewrite Havg.
    destruct (responseTimes s) as [|t times] eqn:Ht; [congruence|].
    destruct (sum_between lo hi (t :: times) 0 Hall) as [H1 H2].
    apply roundDiv_between; cbn [length] in *; lia.
Qed.

(** *** Health *)

Lemma averageResponseTime_within_window_witness :
  let s :=
    performAll
      [Request (RecordRequestStart 0 (js "a"));
       Request (RecordRequestFailure 6000 (js "a") (js "HTTP 500: x"));
       Request (RecordRequestStart 6000 (js "b"));
       Request (RecordRequestSuccess 6100 (js "b") 10)]
      (create 0) in
  100 <= averageResponseTime (metrics s) <= 6000.
Proof.
  intros s.
  destruct (averageResponseTime_within_window 0
              [Request (RecordRequestStart 0 (js "a"));
               Request (RecordRequestFailure 6000 (js "a") (js "HTTP 500: x"));
               Request (RecordRequestStart 6000 (js "b"));
               Request (RecordRequestSuccess 6100 (js "b") 10)])
    as (_ & _ & Hbetween).
  apply Hbetween; [vm_compute; discriminate|].
  vm_compute. repeat constructor; discriminate.
Defined.

Lemma Qgtb_quotient (n d : Z) (p : Z) (q : positive) :
  0 < d ->
  Qgtb (inject_Z n / inject_Z d) (p # q) = (p * d <? n * Z.pos q).
Proof.
  intros Hd. unfold Qgtb, Qle_bool, Qdiv, Qmult, Qinv, inject_Z.
  destruct d as [|d|d]; try lia. cbn [Qnum Qden].
  destruct (Z.leb_spec (n * 1 * Z.pos q) (p * Z.pos (1 * d)));
    destruct (Z.ltb_spec (p * Z.pos d) (n * Z.pos q)); cbn [negb];
    try reflexivity; lia.
Qed.

(** X21.  The status that [getHealthStatus] reports is the severity of
    the worst issue that it lists, [healthy] when it lists none: a
    later check never lowers what an earlier one found.  With counters
    that are not negative, the status is [unhealthy] exactly when more
    requests failed than succeeded, or the average response time is
    over 10000 ms, or the queue holds more than 100 reports, or more
    than three in ten errors were dropped. *)
Theorem getHealthStatus_reports_worst_issue (now : Z) (s : SDKMonitorService) :
  let h := getHealthStatus now s in
  let m := metrics s in
  status h = worst (issues h)
  /\ (status h = healthy <-> issues h = [])
  /\ (0 <= requestsSuccessful m -> 0 <= requestsFailed m ->
      0 <= errorsReported m -> 0 <= errorsDropped m ->
      (status h = unhealthy <->
       requestsSuccessful m < requestsFailed m
       \/ 10000 < averageResponseTime m
       \/ 100 < queueSize m
       \/ 3 * errorsReported m < 7 * errorsDropped m)).
Proof.
  cbv zeta. unfold getHealthStatus.
  set (m := metrics s).
  set (total := requestsSuccessful m + requestsFailed m).
  set (all := errorsReported m + errorsDropped m).
  rewrite !Z.gtb_ltb.
  split; [|split].
  - destruct (0 <? total);
      [destruct (Qgtb _ (1 # 2)); [|destruct (Qgtb _ (1 # 5))]|];
      (destruct (10000 <? averageResponseTime m);
       [|destruct (5000 <? averageResponseTime m)]);
      (destruct (100 <? queueSize m); [|destruct (50 <? queueSize m)]);
      (destruct (0 <? errorsDropped m);
       [destruct (Qgtb _ (3 # 10)); [|destruct (Qgtb _ (1 # 10))]|]);
      reflexivity.
  - destruct (0 <? total);
      [destruct (Qgtb _ (1 # 2)); [|destruct (Qgtb _ (1 # 5))]|];
      (destruct (10000 <? averageResponseTime m);
       [|destruct (5000 <? averageResponseTime m)]);
      (destruct (100 <? queueSize m); [|destruct (50 <? queueSize m)]);
      (destruct (0 <? errorsDropped m);
       [destruct (Qgtb _ (3 # 10)); [|destruct (Qgtb _ (1 # 10))]|]);
      cbn; split; intros H; try reflexivity; discriminate H.
  - intros Hs Hf Hr Hd.
    destruct (Z.ltb_spec 0 total) as [Ht|Ht];
      [rewrite !(Qgtb_quotient _ total) by exact Ht;
       destruct (Z.ltb_spec (1 * total) (requestsFailed m * 2));
       [|destruct (Z.ltb_spec (1 * total) (requestsFailed m * 5))]|];
      (destruct (Z.ltb_spec 10000 (averageResponseTime m));
       [|destruct (Z.ltb_spec 5000 (averageResponseTime m))]);
      (destruct (Z.ltb_spec 100 (queueSize m));
       [|destruct (Z.ltb_spec 50 (queueSize m))]);
      (destruct (Z.ltb_spec 0 (errorsDropped m)) as [Hp|Hp];
       [rewrite !(Qgtb_quotient _ all) by (unfold all; lia);
        destruct (Z.ltb_spec (3 * all) (errorsDropped m * 10));
        [|destruct (Z.ltb_spec (1 * all) (errorsDropped m * 10))]|]);
      cbn [status degrade]; unfold total, all in *;
      (split; [intros Hyes; try discriminate Hyes; lia
              |intros Hyes; try reflexivity; lia]).
Qed.

Lemma getHealthStatus_reports_worst_issue_witness :
  let s :=
    performAll
      [Request (RecordRequestStart 0 (js "a"));
       Request (RecordRequestFailure 6000 (js "a") (js "HTTP 500: x"));
       Request (RecordRequestStart 6000 (js "b"));
       Request (RecordRequestSuccess 6100 (js "b") 10);
       RecordErrorDropped; RecordErrorReported 10; RecordQueueSize 60]
      (create 0) in
  status (getHealthStatus 7000 s) = unhealthy
  /\ issues (getHealthStatus 7000 s)
     = [ElevatedErrorRate; QueueBackingUp; HighDropRate].
Proof.
  intros s.
  destruct (getHealthStatus_reports_worst_issue 7000 s) as (Hworst & _ & _).
  assert (Hissues : issues (getHealthStatus 7000 s)
                    = [ElevatedErrorRate; QueueBackingUp; HighDropRate])
    by (vm_compute; reflexivity).
  split; [|exact Hissues]. rewrite Hworst, Hissues. reflexivity.
Defined.

End SDKMonitorSpec.

(** ** SecurityValidatorService: scanning and replacing *)

Module ScanFacts.
Import SecurityValidator Scan.

Section Replace.
Variable at_head : jsstring -> option nat.
Variable replacement : jsstring.

Abbreviation R := (replaceAll at_head replacement).

Lemma replace_from_skip (k : nat) (s : jsstring) :
  replace_from at_head replacement k s = R (drop k s).
Proof.
  revert k. induction s as [|c s IH]; intros [|k]; try reflexivity.
  cbn [replace_from drop]. apply IH.
Qed.

Lemma replaceAll_nil : R [] = [].
Proof. reflexivity. Qed.

Lemma replaceAll_copy (c : N) (s : jsstring) :
  hit (at_head (c :: s)) = false -> R (c :: s) = c :: R s.
Proof.
  intros H. unfold replaceAll. cbn [replace_from].
  destruct (at_head (c :: s)) as [[|n]|]; try reflexivity. discriminate H.
Qed.

Lemma replaceAll_hit (c : N) (s : jsstring) (n : nat) :
  at_head (c :: s) = Some (S n) ->
  R (c :: s) = replacement ++ R (drop n s).
Proof.
  intros H. unfold replaceAll at 1. cbn [replace_from]. rewrite H.
  rewrite replace_from_skip. reflexivity.
Qed.

(** Induction along the scan. *)
Lemma scan_ind (Q : jsstring -> jsstring -> Prop) :
  Q [] [] ->
  (forall c s, hit (at_head (c :: s)) = false ->
               Q s (R s) -> Q (c :: s) (c :: R s)) ->
  (forall c s n, at_head (c :: s) = Some (S n) ->
                 Q (drop n s) (R (drop n s)) ->
                 Q (c :: s) (replacement ++ R (drop n s))) ->
  forall s, Q s (R s).
Proof.
  intros Hnil Hcopy Hhit s.
  induction s as [s IH] using (induction_ltof1 _ (@length N)).
  unfold ltof in IH. destruct s as [|c s]; [exact Hnil|].
  destruct (at_head (c :: s)) as [[|n]|] eqn:Hm.
  - rewrite replaceAll_copy by (rewrite Hm; reflexivity).
    apply Hcopy; [rewrite Hm; reflexivity|]. apply IH. cbn. lia.
  - rewrite (replaceAll_hit c s n Hm). apply (Hhit c s n Hm).
    apply IH. cbn. rewrite length_drop. lia.
  - rewrite replaceAll_copy by (rewrite Hm; reflexivity).
    apply Hcopy; [rewrite Hm; reflexivity|]. apply IH. cbn. lia.
Qed.

Lemma replaceAll_free (s : jsstring) :
  free at_head s = true -> R s = s.
Proof.
  induction s as [|c s IH]; [reflexivity|]. unfold free. cbn [everywhere].
  intros H. apply andb_true_iff in H as [Hc Hs].
  rewrite replaceAll_copy by (apply negb_true_iff, Hc).
  f_equal. apply IH. exact Hs.
Qed.
End Replace.

Lemma everywhere_cons (Q : jsstring -> bool) (c : N) (s : jsstring) :
  everywhere Q (c :: s) = Q (c :: s) && everywhere Q s.
Proof. reflexivity. Qed.

Lemma everywhere_drop (Q : jsstring -> bool) (n : nat) (s : jsstring) :
  everywhere Q s = true -> everywhere Q (drop n s) = true.
Proof.
  revert n. induction s as [|c s IH]; intros [|n] H; try assumption.
  cbn [drop]. apply IH. cbn in H. apply andb_true_iff in H. tauto.
Qed.

Lemma everywhere_app (Q : jsstring -> bool) (s t : jsstring) :
  forallb (fun x => Q (x ++ t)) (tails s) = true ->
  everywhere Q t = true ->
  everywhere Q (s ++ t) = true.
Proof.
  induction s as [|c s IH]; intros Hs Ht; [exact Ht|].
  cbn [tails forallb] in Hs. apply andb_true_iff in Hs as [Hc Hs].
  cbn [app everywhere]. change (c :: s ++ t) with ((c :: s) ++ t).
  rewrite Hc, IH; auto.
Qed.

Lemma everywhere_impl (Q Q' : jsstring -> bool) (s : jsstring) :
  (forall x, Q x = true -> Q' x = true) ->
  everywhere Q s = true -> everywhere Q' s = true.
Proof.
  intros HQ. induction s as [|c s IH]; [reflexivity|]. cbn.
  intros H. apply andb_true_iff in H as [Hc Hs]. rewrite HQ, IH; auto.
Qed.


(** *** Literal patterns *)

Lemma starts_with_ci_app (p s t : jsstring) :
  starts_with_ci p s = true -> starts_with_ci p (s ++ t) = true.
Proof.
  revert s. induction p as [|a p IH]; intros [|b s] H; try reflexivity;
    try discriminate H.
  cbn in *. apply andb_true_iff in H as [Hab Hs]. rewrite Hab, IH; auto.
Qed.

Lemma starts_with_ci_length (p s : jsstring) :
  starts_with_ci p s = true -> (length p <= length s)%nat.
Proof.
  revert s. induction p as [|a p IH]; intros [|b s] H; cbn in *;
    try lia; try discriminate H.
  apply andb_true_iff in H as [_ Hs]. apply IH in Hs. lia.
Qed.

Lemma mismatch_sound (p t y : jsstring) :
  mismatch p t = true -> starts_with_ci p (t ++ y) = false.
Proof.
  revert t. induction p as [|a p IH]; intros [|b t] H; try discriminate H.
  cbn in *. destruct (ci_eqb a b); cbn in *; [apply IH; exact H|reflexivity].
Qed.

Lemma hit_literal_at (p s : jsstring) :
  p <> [] -> hit (literal_at p s) = starts_with_ci p s.
Proof.
  intros Hp. unfold literal_at. destruct (starts_with_ci p s); [|reflexivity].
  destruct p; [congruence|reflexivity].
Qed.

Section Literal.
Variable at_head : jsstring -> option nat.
Variable replacement : jsstring.

Abbreviation R := (replaceAll at_head replacement).

(** A literal text that cannot run into the replacement is read, in the
    result, from units that the scan copied. *)
Lemma starts_through (p s : jsstring) :
  forallb (fun q => mismatch q replacement) (tails p) = true ->
  starts_with_ci p (R s) = true ->
  starts_with_ci p s = true /\
  R s = take (length p) s ++ R (drop (length p) s).
Proof.
  revert s. induction p as [|a p IH]; intros s Hp Hs; [split; reflexivity|].
  cbn [tails forallb] in Hp. apply andb_true_iff in Hp as [Ha Hp].
  destruct s as [|c s]; [discriminate Hs|].
  destruct (at_head (c :: s)) as [[|n]|] eqn:Hm.
  - rewrite replaceAll_copy in * by (rewrite Hm; reflexivity).
    cbn in Hs. apply andb_true_iff in Hs as [Hac Hs].
    destruct (IH s Hp Hs) as [H1 H2]. cbn. rewrite Hac, H1. split; [reflexivity|].
    f_equal. exact H2.
  - rewrite (replaceAll_hit _ _ c s n Hm) in Hs.
    rewrite (mismatch_sound _ _ _ Ha) in Hs. discriminate Hs.
  - rewrite replaceAll_copy in * by (rewrite Hm; reflexivity).
    cbn in Hs. apply andb_true_iff in Hs as [Hac Hs].
    destruct (IH s Hp Hs) as [H1 H2]. cbn. rewrite Hac, H1. split; [reflexivity|].
    f_equal. exact H2.
Qed.

(** A literal pattern that is compatible with the replacement text
    occurs in the result only where it occurs in the scanned string at a
    unit that the scan copies. *)
Lemma literal_free_replaceAll (p s : jsstring) :
  p <> [] ->
  compatible p replacement = true ->
  everywhere (fun x => hit (at_head x) || negb (hit (literal_at p x))) s = true ->
  free (literal_at p) (R s) = true.
Proof.
  intros Hp Hc. apply andb_true_iff in Hc as [Hrep Hpat].
  pattern s, (R s). apply scan_ind; clear s.
  - reflexivity.
  - intros c s Hm IH H. cbn [everywhere] in H.
    apply andb_true_iff in H as [Hcs Hs]. rewrite Hm in Hcs. cbn [orb] in Hcs.
    unfold free. cbn [everywhere]. fold (free (literal_at p) (R s)).
    rewrite (IH Hs), andb_true_r.
    rewrite hit_literal_at in * by exact Hp.
    destruct (starts_with_ci p (c :: R s)) eqn:Hst; [|reflexivity].
    exfalso. destruct p as [|a p]; [congruence|].
    cbn in Hst. apply andb_true_iff in Hst as [Hac Hst].
    cbn [tails forallb] in Hpat. apply andb_true_iff in Hpat as [_ Hpat].
    destruct (starts_through p s Hpat Hst) as [H1 _].
    cbn in Hcs. rewrite Hac, H1 in Hcs. discriminate Hcs.
  - intros c s n Hm IH H. cbn [everywhere] in H.
    apply andb_true_iff in H as [_ Hs].
    apply everywhere_app; [|apply IH, everywhere_drop, Hs].
    clear -Hrep Hp. induction (tails replacement) as [|t ts IHt]; [reflexivity|].
    cbn [forallb] in *. apply andb_true_iff in Hrep as [Ht Hts].
    rewrite IHt by exact Hts. rewrite hit_literal_at by exact Hp.
    rewrite (mismatch_sound _ _ _ Ht). reflexivity.
Qed.

Lemma literal_free_kept (p s : jsstring) :
  p <> [] ->
  compatible p replacement = true ->
  free (literal_at p) s = true ->
  free (literal_at p) (R s) = true.
Proof.
  intros Hp Hc Hs. apply literal_free_replaceAll; [exact Hp|exact Hc|].
  revert Hs. apply everywhere_impl. intros x ->. apply orb_true_r.
Qed.
End Literal.

Lemma literal_free_made (p replacement s : jsstring) :
  p <> [] ->
  compatible p replacement = true ->
  free (literal_at p) (replaceAll (literal_at p) replacement s) = true.
Proof.
  intros Hp Hc. apply literal_free_replaceAll; [exact Hp|exact Hc|].
  induction s as [|c s IH]; [reflexivity|]. cbn [everywhere]. rewrite IH.
  destruct (hit (literal_at p (c :: s))); reflexivity.
Qed.

(** *** Matches survive when text is appended *)

Lemma span_app_stop (p : N -> bool) (u v a b : jsstring) (c : N) :
  span p u = (a, c :: b) -> span p (u ++ v) = (a, (c :: b) ++ v).
Proof.
  revert a. induction u as [|x u IH]; intros a H; [discriminate H|].
  cbn [span app] in *. destruct (p x).
  - destruct (span p u) as [a' b'] eqn:Hu. injection H as <- ->.
    rewrite (IH a' eq_refl). reflexivity.
  - injection H as <- <- <-. reflexivity.
Qed.

Lemma span_concat (p : N -> bool) (s : jsstring) :
  (span p s).1 ++ (span p s).2 = s.
Proof.
  induction s as [|c s IH]; [reflexivity|]. cbn [span].
  destruct (p c); [|reflexivity]. destruct (span p s) as [a b]. cbn in *.
  f_equal. exact IH.
Qed.

Lemma span_all (p : N -> bool) (s : jsstring) :
  forallb p (span p s).1 = true.
Proof.
  induction s as [|c s IH]; [reflexivity|]. cbn [span].
  destruct (p c) eqn:Hc; [|reflexivity]. destruct (span p s) as [a b].
  cbn in *. rewrite Hc. exact IH.
Qed.

Lemma hit_event_at (s : jsstring) :
  hit (event_at s) = starts_with_ci (js "on") s && event_rest (drop 2 s).
Proof.
  unfold event_at, event_rest. destruct (starts_with_ci (js "on") s); [|reflexivity].
  cbn [andb]. destruct (span is_word (drop 2 s)) as [name r1].
  destruct (span is_space r1) as [blank r2].
  destruct name as [|w name]; [reflexivity|]. destruct r2 as [|c r2]; [reflexivity|].
  destruct (c =? 61)%N; reflexivity.
Qed.

Lemma event_rest_app (u v : jsstring) :
  event_rest u = true -> event_rest (u ++ v) = true.
Proof.
  unfold event_rest. destruct (span is_word u) as [name r1] eqn:H1.
  destruct (span is_space r1) as [blank r2] eqn:H2.
  destruct name as [|w name]; [discriminate|].
  destruct r2 as [|c r2]; [discriminate|]. intros Hc.
  destruct r1 as [|c1 r1]; [discriminate H2|].
  rewrite (span_app_stop _ _ v _ _ _ H1), (span_app_stop _ _ v _ _ _ H2).
  exact Hc.
Qed.

Lemma drop_app_starts (p u v : jsstring) :
  starts_with_ci p u = true ->
  drop (length p) (u ++ v) = drop (length p) u ++ v.
Proof.
  intros H. apply starts_with_ci_length in H. apply drop_app_le. exact H.
Qed.

Lemma event_at_app (u v : jsstring) :
  hit (event_at u) = true -> hit (event_at (u ++ v)) = true.
Proof.
  rewrite !hit_event_at. intros H. apply andb_true_iff in H as [Hs Hr].
  rewrite (starts_with_ci_app _ _ v Hs).
  change (drop 2 (u ++ v)) with (drop (length (js "on")) (u ++ v)).
  rewrite (drop_app_starts (js "on") u v Hs). apply event_rest_app. exact Hr.
Qed.

Lemma literal_at_app (p u v : jsstring) :
  hit (literal_at p u) = true -> hit (literal_at p (u ++ v)) = true.
Proof.
  unfold literal_at. destruct (starts_with_ci p u) eqn:H; [|discriminate].
  rewrite (starts_with_ci_app _ _ v H). auto.
Qed.

Lemma lazy_close_app (u v : jsstring) :
  is_Some (lazy_close u) -> is_Some (lazy_close (u ++ v)).
Proof.
  induction u as [|c u IH]; intros H.
  - cbn in H. destruct H as [? H]. discriminate H.
  - cbn [lazy_close app] in *.
    destruct (starts_with_ci (js "</script>") (c :: u)) eqn:Hs.
    + change (c :: u ++ v) with ((c :: u) ++ v).
      rewrite (starts_with_ci_app _ _ v Hs). eauto.
    + destruct (starts_with_ci (js "</script>") (c :: u ++ v)); [eauto|].
      destruct (is_line_terminator c); [exact H|].
      destruct (lazy_close u) as [n|]; [|destruct H as [? H]; discriminate H].
      destruct (IH ltac:(eauto)) as [m ->]. eauto.
Qed.

Lemma hit_script_at (s : jsstring) :
  hit (script_at s)
  = starts_with_ci opener s
    && match (span not_gt (drop (length opener) s)).2 with
       | [] => false
       | _ :: r2 => bool_decide (is_Some (lazy_close r2))
       end.
Proof.
  unfold script_at. change (js "<script") with opener.
  change (drop 7 s) with (drop (length opener) s).
  destruct (starts_with_ci opener s); [|reflexivity]. cbn [andb].
  destruct (span not_gt (drop (length opener) s)) as [attrs r1]. cbn [snd].
  destruct r1 as [|c r2]; [reflexivity|].
  destruct (lazy_close r2) as [n|].
  - rewrite bool_decide_eq_true_2 by eauto. reflexivity.
  - rewrite bool_decide_eq_false_2 by (intros [? H]; discriminate H). reflexivity.
Qed.

Lemma script_at_app (u v : jsstring) :
  hit (script_at u) = true -> hit (script_at (u ++ v)) = true.
Proof.
  rewrite !hit_script_at. intros H. apply andb_true_iff in H as [Hs Hr].
  rewrite (starts_with_ci_app _ _ v Hs). cbn [andb].
  rewrite (drop_app_starts opener u v Hs).
  destruct (span not_gt (drop (length opener) u)) as [attrs r1] eqn:H1.
  cbn [snd] in Hr. destruct r1 as [|c r2]; cbv iota in Hr; [discriminate Hr|].
  rewrite (span_app_stop _ _ v _ _ _ H1). cbn [snd app].
  apply bool_decide_eq_true in Hr. apply bool_decide_eq_true_2.
  apply lazy_close_app. exact Hr.
Qed.

(** A pattern whose matches survive appending is absent from every
    prefix of a string from which it is absent. *)
Lemma free_take (at_head : jsstring -> option nat) (n : nat) (s : jsstring) :
  (forall u v, hit (at_head u) = true -> hit (at_head (u ++ v)) = true) ->
  free at_head s = true -> free at_head (take n s) = true.
Proof.
  intros Happ. revert n. induction s as [|c s IH]; intros [|n] H; try reflexivity.
  unfold free in *. cbn [take everywhere] in *.
  apply andb_true_iff in H as [Hc Hs]. rewrite (IH n Hs), andb_true_r.
  destruct (hit (at_head (c :: take n s))) eqn:Hh; [|reflexivity].
  apply (Happ _ (drop n s)) in Hh. cbn [app] in Hh. rewrite take_drop in Hh.
  rewrite Hh in Hc. discriminate Hc.
Qed.

(** *** Line terminators *)

Lemma noLineTerminator_app (s t : jsstring) :
  noLineTerminator (s ++ t) = noLineTerminator s && noLineTerminator t.
Proof. apply forallb_app. Qed.

Lemma noLineTerminator_drop (n : nat) (s : jsstring) :
  noLineTerminator s = true -> noLineTerminator (drop n s) = true.
Proof.
  revert n. induction s as [|c s IH]; intros [|n] H; try assumption.
  cbn [drop]. apply IH. cbn in H. apply andb_true_iff in H. tauto.
Qed.

Lemma noLineTerminator_take (n : nat) (s : jsstring) :
  noLineTerminator s = true -> noLineTerminator (take n s) = true.
Proof.
  revert n. induction s as [|c s IH]; intros [|n] H; try reflexivity.
  cbn in *. apply andb_true_iff in H as [-> H]. apply IH. exact H.
Qed.

Lemma noLineTerminator_replaceAll (at_head : jsstring -> option nat)
      (replacement s : jsstring) :
  noLineTerminator replacement = true ->
  noLineTerminator s = true ->
  noLineTerminator (replaceAll at_head replacement s) = true.
Proof.
  intros Hrep. pattern s, (replaceAll at_head replacement s).
  apply scan_ind; clear s.
  - reflexivity.
  - intros c s _ IH H. cbn in *. apply andb_true_iff in H as [-> H].
    apply IH. exact H.
  - intros c s n _ IH H. rewrite noLineTerminator_app, Hrep. cbn [andb].
    apply IH, noLineTerminator_drop. cbn in H. apply andb_true_iff in H. tauto.
Qed.

(** *** The event-handler pattern *)

Lemma ci_eqb_cases (a c : N) :
  ci_eqb a c = true ->
  c = upper a \/ (c = (upper a + 32)%N /\ (97 <= c)%N).
Proof.
  unfold ci_eqb. intros H. apply N.eqb_eq in H. rewrite H. unfold upper.
  destruct ((97 <=? c)%N && (c <=? 122)%N) eqn:E; [|left; reflexivity].
  apply andb_true_iff in E as [E1 E2]. apply N.leb_le in E1.
  right. lia.
Qed.

Abbreviation R4 := (replaceAll event_at eventReplacement).

(** A match of the event pattern starts with a word character. *)
Lemma event_at_head (c : N) (s : jsstring) :
  hit (event_at (c :: s)) = true ->
  is_word c = true /\ is_space c = false /\ (c =? 61)%N = false.
Proof.
  rewrite hit_event_at. intros H. apply andb_true_iff in H as [H _].
  cbn in H. apply andb_true_iff in H as [H _].
  apply ci_eqb_cases in H as [-> | [-> _]]; repeat split; reflexivity.
Qed.

Lemma event_rest_word_cons (c : N) (s : jsstring) :
  is_word c = true -> event_rest s = true -> event_rest (c :: s) = true.
Proof.
  unfold event_rest. cbn [span]. intros ->.
  destruct (span is_word s) as [name r1]. destruct (span is_space r1) as [blank r2].
  destruct name; [discriminate|]. auto.
Qed.

Lemma event_rest_word_cons_false (c : N) (s : jsstring) :
  is_word c = true -> event_rest (c :: s) = false -> event_rest s = false.
Proof.
  intros Hc H. destruct (event_rest s) eqn:Hs; [|reflexivity].
  rewrite (event_rest_word_cons c s Hc Hs) in H. discriminate H.
Qed.

Lemma event_at_rest (s : jsstring) :
  hit (event_at s) = true -> event_rest s = true.
Proof.
  rewrite hit_event_at. intros H. apply andb_true_iff in H as [Hs Hr].
  destruct s as [|c [|d s]]; cbn in Hs; try discriminate Hs;
    [rewrite andb_false_r in Hs; discriminate Hs|].
  cbn [drop] in Hr. apply andb_true_iff in Hs as [Hc Hd].
  apply andb_true_iff in Hd as [Hd _].
  apply event_rest_word_cons;
    [apply ci_eqb_cases in Hc as [-> | [-> _]]; reflexivity|].
  apply event_rest_word_cons;
    [apply ci_eqb_cases in Hd as [-> | [-> _]]; reflexivity|].
  exact Hr.
Qed.

Lemma span_word_R4 (s : jsstring) :
  event_rest s = false ->
  span is_word (R4 s) = ((span is_word s).1, R4 (span is_word s).2).
Proof.
  induction s as [|c s IH]; intros Hr; [reflexivity|].
  assert (Hm : hit (event_at (c :: s)) = false).
  { destruct (hit (event_at (c :: s))) eqn:Hm; [|reflexivity].
    apply event_at_rest in Hm. congruence. }
  rewrite (replaceAll_copy _ _ c s Hm). cbn [span].
  destruct (is_word c) eqn:Hc.
  - rewrite (IH (event_rest_word_cons_false c s Hc Hr)).
    destruct (span is_word s) as [a b]. reflexivity.
  - cbn [fst snd]. rewrite (replaceAll_copy _ _ c s Hm). reflexivity.
Qed.

Lemma span_space_R4 (s : jsstring) :
  span is_space (R4 s) = ((span is_space s).1, R4 (span is_space s).2).
Proof.
  induction s as [|c s IH]; [reflexivity|]. cbn [span].
  destruct (is_space c) eqn:Hc.
  - assert (Hm : hit (event_at (c :: s)) = false).
    { destruct (hit (event_at (c :: s))) eqn:Hm; [|reflexivity].
      apply event_at_head in Hm as (_ & Hm & _). congruence. }
    rewrite (replaceAll_copy _ _ c s Hm). cbn [span]. rewrite Hc, IH.
    destruct (span is_space s) as [a b]. reflexivity.
  - cbn [fst snd]. destruct (event_at (c :: s)) as [[|n]|] eqn:Hm.
    + rewrite replaceAll_copy by (rewrite Hm; reflexivity).
      cbn [span]. rewrite Hc. reflexivity.
    + rewrite (replaceAll_hit _ _ c s n Hm). reflexivity.
    + rewrite replaceAll_copy by (rewrite Hm; reflexivity).
      cbn [span]. rewrite Hc. reflexivity.
Qed.

Lemma equals_R4 (s : jsstring) :
  starts_with_equals (R4 s) = starts_with_equals s.
Proof.
  destruct s as [|c s]; [reflexivity|].
  destruct (event_at (c :: s)) as [[|n]|] eqn:Hm.
  - rewrite replaceAll_copy by (rewrite Hm; reflexivity). reflexivity.
  - rewrite (replaceAll_hit _ _ c s n Hm).
    assert (H : hit (event_at (c :: s)) = true) by (rewrite Hm; reflexivity).
    apply event_at_head in H as (_ & _ & H). cbn. rewrite H. reflexivity.
  - rewrite replaceAll_copy by (rewrite Hm; reflexivity). reflexivity.
Qed.

Lemma event_rest_equals (s : jsstring) :
  event_rest s
  = match (span is_word s).1 with
    | [] => false
    | _ :: _ =>
        starts_with_equals (span is_space (span is_word s).2).2
    end.
Proof.
  unfold event_rest. destruct (span is_word s) as [name r1]. cbn [fst snd].
  destruct (span is_space r1) as [blank r2]. cbn [snd].
  destruct name; [reflexivity|]. destruct r2; reflexivity.
Qed.

Lemma event_rest_R4 (s : jsstring) :
  event_rest s = false -> event_rest (R4 s) = false.
Proof.
  intros Hr. rewrite event_rest_equals in *. rewrite (span_word_R4 s).
  - cbn [fst snd]. rewrite span_space_R4. cbn [snd]. rewrite equals_R4.
    exact Hr.
  - rewrite event_rest_equals. exact Hr.
Qed.

(** The result of replacing the event pattern holds no match of it. *)
Lemma event_free_made (s : jsstring) : free event_at (R4 s) = true.
Proof.
  pattern s, (R4 s). apply scan_ind; clear s.
  - reflexivity.
  - intros c s Hm IH. unfold free. cbn [everywhere].
    fold (free event_at (R4 s)). rewrite IH, andb_true_r.
    rewrite hit_event_at in *.
    destruct (starts_with_ci (js "on") (c :: R4 s)) eqn:Hs; [|reflexivity].
    cbn [andb drop]. apply negb_true_iff.
    cbn in Hs. apply andb_true_iff in Hs as [Hc Hn].
    destruct (starts_through event_at eventReplacement (js "n") s eq_refl Hn)
      as [Hn' Hcopy].
    destruct s as [|d s]; [discriminate Hn'|].
    change (R4 (d :: s) = d :: R4 s) in Hcopy. rewrite Hcopy. cbn [drop].
    apply event_rest_R4. cbn in Hn'. cbn in Hm. rewrite Hc, Hn' in Hm.
    exact Hm.
  - intros c s n Hm IH. apply everywhere_app; [|exact IH].
    assert (H : forallb (mismatch (js "on")) (tails eventReplacement) = true)
      by reflexivity.
    induction (tails eventReplacement) as [|t ts IHt]; [reflexivity|].
    cbn [forallb] in *. apply andb_true_iff in H as [Ht Hts].
    rewrite IHt by exact Hts. rewrite hit_event_at.
    rewrite (mismatch_sound _ _ _ Ht). reflexivity.
Qed.

(** *** The script pattern *)

Lemma free_cons (at_head : jsstring -> option nat) (c : N) (s : jsstring) :
  free at_head (c :: s) = negb (hit (at_head (c :: s))) && free at_head s.
Proof. reflexivity. Qed.

Lemma free_drop (at_head : jsstring -> option nat) (n : nat) (s : jsstring) :
  free at_head s = true -> free at_head (drop n s) = true.
Proof. apply everywhere_drop. Qed.

Lemma free_span_rest (at_head : jsstring -> option nat) (p : N -> bool)
      (s : jsstring) :
  free at_head s = true -> free at_head (span p s).2 = true.
Proof.
  intros H. rewrite <- (span_concat p s) in H.
  apply (free_drop _ (length (span p s).1)) in H.
  rewrite drop_app_length in H. exact H.
Qed.

Lemma free_after_first_gt (at_head : jsstring -> option nat) (s : jsstring) :
  free at_head s = true -> free at_head (after_first_gt s) = true.
Proof.
  intros H. apply (free_span_rest _ not_gt) in H. unfold after_first_gt.
  destruct (span not_gt s).2 as [|c r]; [reflexivity|].
  rewrite free_cons in H. apply andb_true_iff in H. tauto.
Qed.

Lemma after_first_gt_cons (c : N) (s : jsstring) :
  after_first_gt (c :: s) = if not_gt c then after_first_gt s else s.
Proof.
  unfold after_first_gt. cbn [span]. destruct (not_gt c); [|reflexivity].
  destruct (span not_gt s) as [a b]. reflexivity.
Qed.

Lemma after_first_gt_app (a s : jsstring) :
  forallb not_gt a = true -> after_first_gt (a ++ s) = after_first_gt s.
Proof.
  induction a as [|c a IH]; intros H; [reflexivity|]. cbn in H.
  apply andb_true_iff in H as [Hc Ha]. cbn [app].
  rewrite after_first_gt_cons, Hc. apply IH. exact Ha.
Qed.

Lemma not_gt_ci (a c : N) :
  ci_eqb a c = true -> not_gt a = true -> not_gt c = true.
Proof.
  unfold not_gt. intros H Ha. apply negb_true_iff, N.eqb_neq in Ha.
  apply negb_true_iff, N.eqb_neq. intros ->.
  apply ci_eqb_cases in H. unfold upper in H.
  destruct ((97 <=? a)%N && (a <=? 122)%N) eqn:E.
  - apply andb_true_iff in E as [E1 E2]. apply N.leb_le in E1, E2.
    destruct H as [H|[H _]]; lia.
  - destruct H as [H|[_ H]]; [congruence|lia].
Qed.

Lemma starts_with_ci_not_gt (p s : jsstring) :
  forallb not_gt p = true ->
  starts_with_ci p s = true ->
  forallb not_gt (take (length p) s) = true.
Proof.
  revert s. induction p as [|a p IH]; intros [|c s] Hp Hs; try reflexivity;
    try discriminate Hs.
  cbn in *. apply andb_true_iff in Hp as [Ha Hp].
  apply andb_true_iff in Hs as [Hac Hs].
  rewrite (not_gt_ci a c Hac Ha). apply IH; assumption.
Qed.

Lemma lazy_close_has_closer (s : jsstring) :
  is_Some (lazy_close s) -> has_closer s = true.
Proof.
  unfold has_closer. induction s as [|c s IH]; intros H.
  - destruct H as [? H]. discriminate H.
  - rewrite free_cons. rewrite hit_literal_at by discriminate.
    cbn [lazy_close] in H. change (js "</script>") with closer in H.
    destruct (starts_with_ci closer (c :: s)); [reflexivity|].
    cbn [negb andb]. destruct (is_line_terminator c);
      [destruct H as [? H]; discriminate H|].
    apply IH. destruct (lazy_close s); [eauto|destruct H as [? H]; discriminate H].
Qed.

Lemma has_closer_lazy_close (s : jsstring) :
  noLineTerminator s = true -> has_closer s = true -> is_Some (lazy_close s).
Proof.
  unfold has_closer. induction s as [|c s IH]; intros Hlt H; [discriminate H|].
  rewrite free_cons in H. rewrite hit_literal_at in H by discriminate.
  cbn [lazy_close]. change (js "</script>") with closer.
  destruct (starts_with_ci closer (c :: s)); [eauto|].
  cbn in Hlt. apply andb_true_iff in Hlt as [Hc Hlt].
  apply negb_true_iff in Hc. rewrite Hc.
  destruct (IH Hlt H) as [n ->]. eauto.
Qed.

Lemma hit_script_at_closer (s : jsstring) :
  hit (script_at s) = true ->
  starts_with_ci opener s = true /\
  has_closer (after_first_gt (drop (length opener) s)) = true.
Proof.
  rewrite hit_script_at. intros H. apply andb_true_iff in H as [Hs Hr].
  split; [exact Hs|]. unfold after_first_gt.
  destruct (span not_gt (drop (length opener) s)).2 as [|c r2];
    [discriminate Hr|].
  apply lazy_close_has_closer. apply bool_decide_eq_true in Hr. exact Hr.
Qed.

Lemma closer_hit_script_at (s : jsstring) :
  noLineTerminator s = true ->
  starts_with_ci opener s = true ->
  has_closer (after_first_gt (drop (length opener) s)) = true ->
  hit (script_at s) = true.
Proof.
  intros Hlt Hs Hc. rewrite hit_script_at, Hs. cbn [andb].
  apply (noLineTerminator_drop (length opener)) in Hlt.
  rewrite <- (span_concat not_gt (drop (length opener) s)) in Hlt.
  rewrite noLineTerminator_app in Hlt. apply andb_true_iff in Hlt as [_ Hlt].
  unfold after_first_gt in Hc.
  destruct (span not_gt (drop (length opener) s)).2 as [|c r2];
    [discriminate Hc|].
  cbn in Hlt. apply andb_true_iff in Hlt as [_ Hlt].
  apply bool_decide_eq_true_2. apply has_closer_lazy_close; assumption.
Qed.

(** Without a closing tag behind the first [>], nothing matches. *)
Lemma script_free_quiet (s : jsstring) :
  has_closer (after_first_gt s) = false -> free script_at s = true.
Proof.
  induction s as [|c s IH]; intros H; [reflexivity|].
  rewrite free_cons. apply andb_true_iff. split.
  - apply negb_true_iff. destruct (hit (script_at (c :: s))) eqn:Hh; [|reflexivity].
    apply hit_script_at_closer in Hh as [Hs Hc].
    rewrite <- (take_drop (length opener) (c :: s)) in H.
    rewrite after_first_gt_app in H
      by (apply starts_with_ci_not_gt; [reflexivity|exact Hs]).
    congruence.
  - apply IH. rewrite after_first_gt_cons in H.
    destruct (not_gt c); [exact H|].
    unfold has_closer in *. apply negb_false_iff in H. apply negb_false_iff.
    apply free_after_first_gt. exact H.
Qed.

Abbreviation R1 := (replaceAll script_at scriptReplacement).

Lemma mismatch_everywhere (at_head : jsstring -> option nat)
      (p replacement t : jsstring) :
  (forall x, hit (at_head x) = true -> starts_with_ci p x = true) ->
  forallb (mismatch p) (tails replacement) = true ->
  forallb (fun x => negb (hit (at_head (x ++ t)))) (tails replacement) = true.
Proof.
  intros Hp H. induction (tails replacement) as [|x xs IH]; [reflexivity|].
  cbn [forallb] in *. apply andb_true_iff in H as [Hx Hxs].
  rewrite IH by exact Hxs. rewrite andb_true_r. apply negb_true_iff.
  destruct (hit (at_head (x ++ t))) eqn:Hh; [|reflexivity].
  apply Hp in Hh. rewrite (mismatch_sound _ _ _ Hx) in Hh. discriminate Hh.
Qed.

Lemma script_at_opener (s : jsstring) :
  hit (script_at s) = true -> starts_with_ci opener s = true.
Proof. intros H. apply hit_script_at_closer in H. tauto. Qed.

(** Where the opening tag is read in the result, it was copied, and what
    follows it is the result for what followed it. *)
Lemma opener_through (at_head : jsstring -> option nat)
      (replacement : jsstring) (c : N) (s : jsstring) :
  forallb (fun q => mismatch q replacement) (tails opener) = true ->
  starts_with_ci opener (c :: replaceAll at_head replacement s) = true ->
  starts_with_ci opener (c :: s) = true /\
  drop (length opener) (c :: replaceAll at_head replacement s)
  = replaceAll at_head replacement (drop (length opener) (c :: s)).
Proof.
  intros Hq Hs. cbn [tails forallb] in Hq. apply andb_true_iff in Hq as [_ Hq].
  change opener with (60%N :: js "script") in *.
  cbn [starts_with_ci] in *. apply andb_true_iff in Hs as [Hc Hs].
  destruct (starts_through at_head replacement (js "script") s Hq Hs)
    as [Hs' Hcopy].
  rewrite Hc, Hs'. split; [reflexivity|].
  cbn [length drop]. rewrite Hcopy.
  change (length (js "script")) with 6%nat.
  rewrite drop_app_length'; [reflexivity|].
  apply starts_with_ci_length in Hs'. rewrite length_take.
  change (length (js "script")) with 6%nat in Hs'. lia.
Qed.

(** The result of replacing the script pattern in a string without line
    terminators holds no match of it. *)
Lemma script_free_made (s : jsstring) :
  noLineTerminator s = true -> free script_at (R1 s) = true.
Proof.
  pattern s, (R1 s). apply scan_ind; clear s.
  - reflexivity.
  - intros c s Hm IH Hlt. rewrite free_cons.
    assert (Hlt' : noLineTerminator s = true).
    { cbn in Hlt. apply andb_true_iff in Hlt. tauto. }
    rewrite (IH Hlt'), andb_true_r. apply negb_true_iff.
    destruct (hit (script_at (c :: R1 s))) eqn:Hh; [|reflexivity].
    exfalso. pose proof (script_at_opener _ Hh) as Hs.
    destruct (opener_through script_at scriptReplacement c s eq_refl Hs)
      as [Hs' Hdrop].
    assert (Hq : has_closer (after_first_gt (drop (length opener) (c :: s)))
                 = false).
    { destruct (has_closer _) eqn:Hc; [|reflexivity].
      rewrite (closer_hit_script_at (c :: s) Hlt Hs' Hc) in Hm. discriminate Hm. }
    apply script_free_quiet in Hq.
    apply (replaceAll_free script_at scriptReplacement) in Hq.
    apply hit_script_at_closer in Hh as [_ Hh].
    rewrite Hdrop, Hq in Hh.
    rewrite (closer_hit_script_at (c :: s) Hlt Hs' Hh) in Hm. discriminate Hm.
  - intros c s n Hm IH Hlt. apply everywhere_app.
    + apply mismatch_everywhere with (p := opener);
        [apply script_at_opener|reflexivity].
    + apply IH, noLineTerminator_drop. cbn in Hlt.
      apply andb_true_iff in Hlt. tauto.
Qed.

Section ScriptKept.
Variable at_head : jsstring -> option nat.
Variable replacement : jsstring.
Hypothesis replacement_no_gt : forallb not_gt replacement = true.
Hypothesis match_no_gt :
  forall x n, at_head x = Some (S n) -> forallb not_gt (take (S n) x) = true.
Hypothesis closer_compatible : compatible closer replacement = true.
Hypothesis opener_compatible : compatible opener replacement = true.

Abbreviation R := (replaceAll at_head replacement).

(** The scan neither consumes nor produces a [>]. *)
Lemma after_first_gt_replaceAll (s : jsstring) :
  after_first_gt (R s) = R (after_first_gt s).
Proof.
  pattern s, (R s). apply scan_ind; clear s.
  - reflexivity.
  - intros c s Hm IH. rewrite !after_first_gt_cons.
    destruct (not_gt c); [exact IH|reflexivity].
  - intros c s n Hm IH.
    rewrite after_first_gt_app by exact replacement_no_gt. rewrite IH.
    f_equal. symmetry. rewrite <- (take_drop (S n) (c :: s)) at 1.
    rewrite after_first_gt_app by (apply match_no_gt; exact Hm). reflexivity.
Qed.

Lemma script_free_kept (s : jsstring) :
  noLineTerminator s = true ->
  free script_at s = true ->
  free script_at (R s) = true.
Proof.
  pose proof opener_compatible as Hop.
  apply andb_true_iff in Hop as [Hop1 Hop2].
  pattern s, (R s). apply scan_ind; clear s.
  - reflexivity.
  - intros c s Hm IH Hlt Hf. rewrite free_cons in Hf.
    apply andb_true_iff in Hf as [Hc Hf]. apply negb_true_iff in Hc.
    assert (Hlt' : noLineTerminator s = true).
    { cbn in Hlt. apply andb_true_iff in Hlt. tauto. }
    rewrite free_cons, (IH Hlt' Hf), andb_true_r. apply negb_true_iff.
    destruct (hit (script_at (c :: R s))) eqn:Hh; [|reflexivity].
    exfalso. pose proof (script_at_opener _ Hh) as Hs.
    destruct (opener_through at_head replacement c s Hop2 Hs) as [Hs' Hdrop].
    apply hit_script_at_closer in Hh as [_ Hh].
    rewrite Hdrop, after_first_gt_replaceAll in Hh.
    assert (Hq : has_closer (after_first_gt (drop (length opener) (c :: s)))
                 = true).
    { destruct (has_closer (after_first_gt _)) eqn:Hq; [reflexivity|].
      unfold has_closer in Hq, Hh. apply negb_false_iff in Hq.
      apply (literal_free_kept at_head replacement closer _ ltac:(discriminate)
               closer_compatible) in Hq.
      rewrite Hq in Hh. discriminate Hh. }
    rewrite (closer_hit_script_at (c :: s) Hlt Hs' Hq) in Hc. discriminate Hc.
  - intros c s n Hm IH Hlt Hf. apply everywhere_app.
    + apply mismatch_everywhere with (p := opener);
        [apply script_at_opener|exact Hop1].
    + apply IH.
      * apply noLineTerminator_drop. cbn in Hlt.
        apply andb_true_iff in Hlt. tauto.
      * apply free_drop. rewrite free_cons in Hf.
        apply andb_true_iff in Hf. tauto.
Qed.
End ScriptKept.

(** *** The four replacements of [sanitizeString] in a row *)

Lemma is_word_not_gt (c : N) : is_word c = true -> not_gt c = true.
Proof.
  unfold not_gt. destruct (N.eqb_spec c 62) as [->|_]; [discriminate|reflexivity].
Qed.

Lemma is_space_not_gt (c : N) : is_space c = true -> not_gt c = true.
Proof.
  unfold not_gt. destruct (N.eqb_spec c 62) as [->|_]; [discriminate|reflexivity].
Qed.

Lemma forallb_weaken (p q : N -> bool) (s : jsstring) :
  (forall c, p c = true -> q c = true) ->
  forallb p s = true -> forallb q s = true.
Proof.
  intros Hpq. induction s as [|c s IH]; [reflexivity|]. cbn.
  intros H. apply andb_true_iff in H as [Hc Hs]. rewrite (Hpq c Hc). auto.
Qed.

Lemma literal_at_no_gt (p x : jsstring) (n : nat) :
  forallb not_gt p = true ->
  literal_at p x = Some (S n) ->
  forallb not_gt (take (S n) x) = true.
Proof.
  unfold literal_at. intros Hp H.
  destruct (starts_with_ci p x) eqn:Hs; [|discriminate H].
  injection H as <-. apply starts_with_ci_not_gt; assumption.
Qed.

Lemma event_at_no_gt (x : jsstring) (n : nat) :
  event_at x = Some (S n) -> forallb not_gt (take (S n) x) = true.
Proof.
  unfold event_at. destruct (starts_with_ci (js "on") x) eqn:Hs; [|discriminate].
  destruct x as [|c [|d x]]; cbn in Hs; try discriminate Hs;
    [rewrite andb_false_r in Hs; discriminate Hs|].
  apply andb_true_iff in Hs as [Hc Hd]. apply andb_true_iff in Hd as [Hd _].
  change (drop 2 (c :: d :: x)) with x.
  pose proof (span_concat is_word x) as Hx.
  pose proof (span_all is_word x) as Hname.
  destruct (span is_word x) as [name r1]. cbn [fst snd] in *.
  pose proof (span_concat is_space r1) as Hr1.
  pose proof (span_all is_space r1) as Hblank.
  destruct (span is_space r1) as [blank r2]. cbn [fst snd] in *.
  destruct name as [|w name]; [intros H; discriminate H|].
  destruct r2 as [|e r2]; [intros H; discriminate H|].
  destruct (N.eqb_spec e 61) as [->|_]; [|intros H; discriminate H].
  intros H. injection H as Hn. rewrite <- Hn. subst x r1.
  assert (Htake : take (2 + length (w :: name) + length blank + 1)
                    (c :: d :: (w :: name) ++ blank ++ 61%N :: r2)
                  = [c; d] ++ (w :: name) ++ blank ++ [61%N]).
  { replace (c :: d :: (w :: name) ++ blank ++ 61%N :: r2)
      with (([c; d] ++ (w :: name) ++ blank ++ [61%N]) ++ r2)
      by (rewrite <- !app_assoc; reflexivity).
    apply take_app_length'. rewrite !length_app. cbn [length]. lia. }
  change (S (S (S (length name + length blank + 1))))
    with (2 + length (w :: name) + length blank + 1)%nat.
  rewrite Htake. rewrite !forallb_app.
  change (forallb not_gt [c; d]) with (not_gt c && (not_gt d && true)).
  rewrite (not_gt_ci _ _ Hc eq_refl), (not_gt_ci _ _ Hd eq_refl).
  rewrite (forallb_weaken _ _ _ is_word_not_gt Hname).
  rewrite (forallb_weaken _ _ _ is_space_not_gt Hblank). reflexivity.
Qed.

Abbreviation R2 :=
  (replaceAll (literal_at javascriptPattern) javascriptReplacement).
Abbreviation R3 :=
  (replaceAll (literal_at vbscriptPattern) vbscriptReplacement).

Lemma sanitizeString_unfold (s : jsstring) :
  sanitizeString s = take MAX_STRING_LENGTH (R4 (R3 (R2 (R1 s)))).
Proof. reflexivity. Qed.

(** After the four replacements none of the four patterns matches, when
    the string held no line terminator. *)
Lemma replaced_free (s : jsstring) :
  noLineTerminator s = true ->
  let r := R4 (R3 (R2 (R1 s))) in
  free script_at r = true
  /\ free (literal_at javascriptPattern) r = true
  /\ free (literal_at vbscriptPattern) r = true
  /\ free event_at r = true.
Proof.
  intros Hlt r. subst r.
  assert (Hlt1 : noLineTerminator (R1 s) = true)
    by (apply noLineTerminator_replaceAll; [reflexivity|exact Hlt]).
  assert (Hlt2 : noLineTerminator (R2 (R1 s)) = true)
    by (apply noLineTerminator_replaceAll; [reflexivity|exact Hlt1]).
  assert (Hlt3 : noLineTerminator (R3 (R2 (R1 s))) = true)
    by (apply noLineTerminator_replaceAll; [reflexivity|exact Hlt2]).
  repeat split.
  - apply script_free_kept;
      [reflexivity|apply event_at_no_gt|reflexivity|reflexivity|exact Hlt3|].
    apply script_free_kept;
      [reflexivity|intros x n; apply literal_at_no_gt; reflexivity
      |reflexivity|reflexivity|exact Hlt2|].
    apply script_free_kept;
      [reflexivity|intros x n; apply literal_at_no_gt; reflexivity
      |reflexivity|reflexivity|exact Hlt1|].
    apply script_free_made. exact Hlt.
  - apply literal_free_kept; [discriminate|reflexivity|].
    apply literal_free_kept; [discriminate|reflexivity|].
    apply literal_free_made; [discriminate|reflexivity].
  - apply literal_free_kept; [discriminate|reflexivity|].
    apply literal_free_made; [discriminate|reflexivity].
  - apply event_free_made.
Qed.

(** On a string without line terminators a second pass of
    [sanitizeString] changes nothing. *)
Lemma sanitizeString_idempotent (s : jsstring) :
  noLineTerminator s = true ->
  sanitizeString (sanitizeString s) = sanitizeString s.
Proof.
  intros Hlt. destruct (replaced_free s Hlt) as (H1 & H2 & H3 & H4).
  rewrite (sanitizeString_unfold s).
  set (r := R4 (R3 (R2 (R1 s)))) in *.
  rewrite sanitizeString_unfold.
  rewrite (replaceAll_free script_at)
    by (apply free_take; [apply script_at_app|exact H1]).
  rewrite (replaceAll_free (literal_at javascriptPattern))
    by (apply free_take; [apply literal_at_app|exact H2]).
  rewrite (replaceAll_free (literal_at vbscriptPattern))
    by (apply free_take; [apply literal_at_app|exact H3]).
  rewrite (replaceAll_free event_at)
    by (apply free_take; [apply event_at_app|exact H4]).
  rewrite take_take, Nat.min_id. reflexivity.
Qed.

Lemma noLineTerminator_sanitizeString (s : jsstring) :
  noLineTerminator s = true -> noLineTerminator (sanitizeString s) = true.
Proof.
  intros Hlt. rewrite sanitizeString_unfold. apply noLineTerminator_take.
  repeat (apply noLineTerminator_replaceAll; [reflexivity|]). exact Hlt.
Qed.

(** The three later patterns are gone after the first pass, whatever
    the string. *)
Lemma later_patterns_free (s : jsstring) :
  let r := sanitizeString s in
  free (literal_at javascriptPattern) r = true
  /\ free (literal_at vbscriptPattern) r = true
  /\ free event_at r = true.
Proof.
  intros r. subst r. rewrite sanitizeString_unfold. repeat split.
  - apply free_take; [apply literal_at_app|].
    apply literal_free_kept; [discriminate|reflexivity|].
    apply literal_free_kept; [discriminate|reflexivity|].
    apply literal_free_made; [discriminate|reflexivity].
  - apply free_take; [apply literal_at_app|].
    apply literal_free_kept; [discriminate|reflexivity|].
    apply literal_free_made; [discriminate|reflexivity].
  - apply free_take; [apply event_at_app|]. apply event_free_made.
Qed.

(** A second pass of [sanitizeString] changes nothing when the first
    one left no match of the script pattern. *)
Lemma sanitizeString_leftClean (s : jsstring) :
  leftClean s = true ->
  sanitizeString (sanitizeString s) = sanitizeString s.
Proof.
  unfold leftClean. intros H1.
  destruct (later_patterns_free s) as (H2 & H3 & H4).
  set (t := sanitizeString s) in *.
  assert (Hlen : (length t <= MAX_STRING_LENGTH)%nat)
    by (subst t; rewrite sanitizeString_unfold, length_take; lia).
  rewrite sanitizeString_unfold.
  rewrite (replaceAll_free script_at) by exact H1.
  rewrite (replaceAll_free (literal_at javascriptPattern)) by exact H2.
  rewrite (replaceAll_free (literal_at vbscriptPattern)) by exact H3.
  rewrite (replaceAll_free event_at) by exact H4.
  apply take_ge. exact Hlen.
Qed.



(** A second pass that finds a script element changes the string: it
    takes a [<] away, and nothing in [sanitizeString] adds one. *)
Lemma opens_app (s t : jsstring) : opens (s ++ t) = (opens s + opens t)%nat.
Proof. unfold opens. rewrite List.filter_app, length_app. reflexivity. Qed.

Lemma opens_drop (n : nat) (s : jsstring) : (opens (drop n s) <= opens s)%nat.
Proof.
  revert n. induction s as [|c s IH]; intros [|n]; try (cbn; lia).
  cbn [drop]. specialize (IH n). unfold opens in *. cbn [List.filter].
  destruct (c =? 60)%N; cbn [length]; lia.
Qed.

Lemma opens_take (n : nat) (s : jsstring) : (opens (take n s) <= opens s)%nat.
Proof.
  rewrite <- (take_drop n s) at 2. rewrite opens_app. lia.
Qed.

Lemma opens_replaceAll (at_head : jsstring -> option nat)
      (replacement s : jsstring) :
  opens replacement = 0%nat ->
  (opens (replaceAll at_head replacement s) <= opens s)%nat.
Proof.
  intros Hrep. pattern s, (replaceAll at_head replacement s).
  apply scan_ind; clear s.
  - lia.
  - intros c s _ IH. change (c :: s) with ([c] ++ s).
    change (c :: replaceAll at_head replacement s)
      with ([c] ++ replaceAll at_head replacement s).
    rewrite !opens_app. lia.
  - intros c s n _ IH. rewrite opens_app, Hrep.
    pose proof (opens_drop n s). change (c :: s) with ([c] ++ s).
    rewrite opens_app. lia.
Qed.

Lemma opens_script (s : jsstring) :
  free script_at s = false -> (opens (R1 s) < opens s)%nat.
Proof.
  pattern s, (R1 s). apply scan_ind; clear s.
  - discriminate.
  - intros c s Hm IH Hf. rewrite free_cons, Hm in Hf. cbn [negb andb] in Hf.
    specialize (IH Hf). change (c :: s) with ([c] ++ s).
    change (c :: R1 s) with ([c] ++ R1 s). rewrite !opens_app. lia.
  - intros c s n Hm _ _. rewrite opens_app.
    change (opens scriptReplacement) with 0%nat.
    pose proof (opens_replaceAll script_at scriptReplacement (drop n s)
                  eq_refl) as H1.
    pose proof (opens_drop n s) as H2.
    assert (Hc : c = 60%N).
    { assert (Hh : hit (script_at (c :: s)) = true) by (rewrite Hm; reflexivity).
      apply script_at_opener in Hh.
      change opener with (60%N :: js "script") in Hh.
      cbn [starts_with_ci] in Hh. apply andb_true_iff in Hh as [Hh _].
      unfold ci_eqb in Hh. change (upper 60) with 60%N in Hh.
      apply N.eqb_eq in Hh. unfold upper in Hh.
      destruct ((97 <=? c)%N && (c <=? 122)%N) eqn:Hr; [|congruence].
      apply andb_true_iff in Hr as [Hr1 Hr2]. apply N.leb_le in Hr1, Hr2.
      lia. }
    subst c. change (60%N :: s) with ([60%N] ++ s). rewrite opens_app.
    change (opens [60%N]) with 1%nat. cbn [Nat.add] in *. lia.
Qed.

(** The condition of [sanitizeString_leftClean] is the weakest: a second
    pass changes nothing exactly when the first left no match of the
    script pattern. *)
Lemma sanitizeString_idempotent_iff (s : jsstring) :
  sanitizeString (sanitizeString s) = sanitizeString s
  <-> leftClean s = true.
Proof.
  split; [|apply sanitizeString_leftClean].
  intros Heq. unfold leftClean.
  destruct (free script_at (sanitizeString s)) eqn:Hf; [reflexivity|].
  exfalso. apply opens_script in Hf.
  set (t := sanitizeString s) in *.
  assert (Hle : (opens (sanitizeString t) <= opens (R1 t))%nat).
  { rewrite sanitizeString_unfold.
    etransitivity; [apply opens_take|].
    etransitivity; [apply opens_replaceAll; reflexivity|].
    etransitivity; [apply opens_replaceAll; reflexivity|].
    apply opens_replaceAll; reflexivity. }
  rewrite Heq in Hle. lia.
Qed.


End ScanFacts.

(** ** SecurityValidatorService: [sanitizeData] *)

Module SecurityValidatorSpec.
Import SecurityValidator Scan ScanFacts.

(** Induction on values, with the hypothesis for every item of an array
    and every value of an object. *)
Lemma Value_nested_ind (P : Value -> Prop) :
  P VNull ->
  P VUndefined ->
  (forall s, P (VString s)) ->
  (forall n, P (VNumber n)) ->
  (forall b, P (VBoolean b)) ->
  (forall items, Forall P items -> P (VArray items)) ->
  (forall entries, Forall (fun entry => P entry.2) entries ->
                   P (VObject entries)) ->
  forall data, P data.
Proof.
  intros Hnull Hundef Hstr Hnum Hbool Harr Hobj.
  fix IH 1. intros [| | s | n | b | items | entries].
  - exact Hnull.
  - exact Hundef.
  - apply Hstr.
  - apply Hnum.
  - apply Hbool.
  - apply Harr. induction items as [|item items IHitems]; constructor;
      [apply IH|exact IHitems].
  - apply Hobj. induction entries as [|[key value] entries IHentries];
      constructor; [apply IH|exact IHentries].
Qed.

Lemma sanitizeData_object (entries : list (jsstring * Value)) :
  sanitizeData (VObject entries) = VObject (fold_left keep entries []).
Proof. reflexivity. Qed.

Lemma elem_of_assign (key : jsstring) (value : Value)
      (entries : list (jsstring * Value)) (e : jsstring * Value) :
  e ∈ assign key value entries -> e = (key, value) \/ e ∈ entries.
Proof.
  induction entries as [|[k v] entries IH]; cbn [assign].
  - intros H. apply list_elem_of_singleton in H. auto.
  - case_bool_decide as Hk.
    + intros H. apply elem_of_cons in H as [H|H]; [auto|].
      right. apply elem_of_cons. auto.
    + intros H. apply elem_of_cons in H as [H|H].
      * right. apply elem_of_cons. auto.
      * destruct (IH H) as [?|?]; [auto|]. right. apply elem_of_cons. auto.
Qed.


Lemma keys_assign (key : jsstring) (value : Value)
      (entries : list (jsstring * Value)) :
  List.map fst (assign key value entries)
  = if bool_decide (key ∈ List.map fst entries) then List.map fst entries
    else List.map fst entries ++ [key].
Proof.
  induction entries as [|[k v] entries IH]; [reflexivity|].
  cbn [assign List.map fst]. destruct (decide (k = key)) as [->|Hk].
  - rewrite bool_decide_eq_true_2 by reflexivity.
    rewrite (bool_decide_eq_true_2 (key ∈ key :: _)) by apply list_elem_of_here.
    reflexivity.
  - rewrite (bool_decide_eq_false_2 (k = key)) by exact Hk.
    cbn [List.map fst]. rewrite IH.
    destruct (decide (key ∈ List.map fst entries)) as [Hin|Hin].
    + rewrite !bool_decide_eq_true_2; [reflexivity| |exact Hin].
      apply list_elem_of_further. exact Hin.
    + rewrite !bool_decide_eq_false_2; [reflexivity| |exact Hin].
      intros H. apply elem_of_cons in H as [H|H]; congruence.
Qed.

Lemma built_keep (source sanitized : list (jsstring * Value))
      (entry : jsstring * Value) :
  entry ∈ source ->
  built source sanitized ->
  built source (keep sanitized entry).
Proof.
  intros Hin (Hnd & Hproto & Hall). destruct entry as [key value].
  unfold keep. destruct (isSensitiveKey key) eqn:Hsens; [repeat split; assumption|].
  unfold setProperty. fold protoKey. case_bool_decide as Hp;
    [repeat split; assumption|].
  repeat split.
  - rewrite keys_assign. case_bool_decide as Hk; [exact Hnd|].
    apply NoDup_app. repeat split; [exact Hnd| |apply NoDup_singleton].
    intros k Hk1 Hk2. apply list_elem_of_singleton in Hk2. congruence.
  - rewrite keys_assign. case_bool_decide as Hk; [exact Hproto|].
    intros H. apply elem_of_app in H as [H|H]; [contradiction|].
    apply list_elem_of_singleton in H. congruence.
  - apply Forall_forall. intros e' He'. apply elem_of_assign in He' as [->|He'].
    + exists (key, value). auto.
    + rewrite Forall_forall in Hall. apply Hall. exact He'.
Qed.

Lemma built_fold (source entries sanitized : list (jsstring * Value)) :
  (forall e, e ∈ entries -> e ∈ source) ->
  built source sanitized ->
  built source (fold_left keep entries sanitized).
Proof.
  revert sanitized. induction entries as [|entry entries IH];
    intros sanitized Hsub Hb; [exact Hb|].
  cbn [fold_left]. apply IH.
  - intros e He. apply Hsub. apply list_elem_of_further. exact He.
  - apply built_keep; [apply Hsub, list_elem_of_here|exact Hb].
Qed.

Lemma built_sanitized (entries : list (jsstring * Value)) :
  built entries (fold_left keep entries []).
Proof.
  apply built_fold; [auto|]. repeat split.
  - apply NoDup_nil_2.
  - apply not_elem_of_nil.
  - constructor.
Qed.


Lemma allKeys_object (entries : list (jsstring * Value)) (k : jsstring) :
  k ∈ allKeys (VObject entries) <->
  exists e, e ∈ entries /\ (k = e.1 \/ k ∈ allKeys e.2).
Proof.
  cbn [allKeys]. rewrite list_elem_of_In, in_flat_map. split.
  - intros (e & He & Hk). exists e. split; [apply list_elem_of_In, He|].
    destruct Hk as [Hk|Hk]; [auto|]. right. apply list_elem_of_In, Hk.
  - intros (e & He & Hk). exists e. split; [apply list_elem_of_In, He|].
    destruct Hk as [Hk|Hk]; [left; auto|]. right. apply list_elem_of_In, Hk.
Qed.

Lemma allKeys_array (items : list Value) (k : jsstring) :
  k ∈ allKeys (VArray items) <->
  exists item, item ∈ items /\ k ∈ allKeys item.
Proof.
  cbn [allKeys]. rewrite list_elem_of_In, in_flat_map. split.
  - intros (e & He & Hk). exists e.
    split; apply list_elem_of_In; assumption.
  - intros (e & He & Hk). exists e.
    split; apply list_elem_of_In; assumption.
Qed.

(** Every key of the result is the sanitized form of a key of the input
    that is not sensitive. *)
Lemma sanitized_keys_origin (data : Value) (k' : jsstring) :
  k' ∈ allKeys (sanitizeData data) ->
  exists k, k ∈ allKeys data /\ isSensitiveKey k = false
            /\ k' = sanitizeString k.
Proof.
  revert k'. induction data as [| | s | n | b | items IH | entries IH]
    using Value_nested_ind; intros k' Hk';
    try (cbn in Hk'; apply elem_of_nil in Hk'; destruct Hk').
  - change (sanitizeData (VArray items))
      with (VArray (List.map sanitizeData items)) in Hk'.
    apply allKeys_array in Hk' as (item' & Hitem' & Hk').
    apply list_elem_of_In, in_map_iff in Hitem' as (item & <- & Hitem).
    apply list_elem_of_In in Hitem. rewrite Forall_forall in IH.
    destruct (IH item Hitem k' Hk') as (k & Hk & Hsens & ->).
    exists k. split; [|auto]. apply allKeys_array. eauto.
  - rewrite sanitizeData_object in Hk'.
    apply allKeys_object in Hk' as (e' & He' & Hk').
    destruct (built_sanitized entries) as (_ & _ & Hall).
    rewrite Forall_forall in Hall, IH.
    destruct (Hall e' He') as (e & He & Hsens & Hkey & Hvalue).
    destruct Hk' as [->|Hk'].
    + exists e.1. split; [|auto]. apply allKeys_object. eauto.
    + rewrite Hvalue in Hk'.
      destruct (IH e He k' Hk') as (k & Hk & Hsens' & ->).
      exists k. split; [|auto]. apply allKeys_object. eauto.
Qed.

Lemma fold_keep_dropSensitive (entries sanitized : list (jsstring * Value)) :
  Forall (fun e => sanitizeData (dropSensitive e.2) = sanitizeData e.2)
         entries ->
  fold_left keep
    (flat_map
       (fun entry : jsstring * Value =>
          if isSensitiveKey entry.1 then []
          else [(entry.1, dropSensitive entry.2)])
       entries)
    sanitized
  = fold_left keep entries sanitized.
Proof.
  revert sanitized. induction entries as [|[key value] entries IH];
    intros sanitized Hall; [reflexivity|].
  apply Forall_cons in Hall as [Hvalue Hall]. cbn [fst snd] in Hvalue.
  cbn [flat_map fst snd fold_left]. rewrite fold_left_app.
  unfold keep at 2 4. destruct (isSensitiveKey key) eqn:Hsens.
  - cbn [fold_left]. apply IH. exact Hall.
  - cbn [fold_left keep]. rewrite Hsens, Hvalue. apply IH. exact Hall.
Qed.

(** The entries with a sensitive key have no part in the result. *)
Lemma sanitizeData_dropSensitive (data : Value) :
  sanitizeData (dropSensitive data) = sanitizeData data.
Proof.
  induction data as [| | s | n | b | items IH | entries IH]
    using Value_nested_ind; try reflexivity.
  - cbn [dropSensitive sanitizeData]. f_equal. rewrite List.map_map.
    apply map_ext_in. intros item Hitem. rewrite Forall_forall in IH.
    apply IH, list_elem_of_In, Hitem.
  - cbn [dropSensitive]. rewrite !sanitizeData_object. f_equal.
    apply fold_keep_dropSensitive. exact IH.
Qed.

(** C5 (as amended).  Every key of every object in the result of
    [sanitizeData] is the sanitized form of a key of the input that does
    not match the list of sensitive keys, and the entries whose key
    matches the list have no part in the result: the result is the same
    when they are removed from the input beforehand. *)
Theorem sensitive_entries_dropped (data : Value) :
  (forall k',
      k' ∈ allKeys (sanitizeData data) ->
      exists k, k ∈ allKeys data /\ isSensitiveKey k = false
                /\ k' = sanitizeString k)
  /\ sanitizeData (dropSensitive data) = sanitizeData data.
Proof.
  split; [apply sanitized_keys_origin|apply sanitizeData_dropSensitive].
Qed.

Lemma sensitive_entries_dropped_witness :
  js "event_removed=" ∈ allKeys (sanitizeData samplePayload)
  /\ (exists k, k ∈ allKeys samplePayload /\ isSensitiveKey k = false
                /\ js "event_removed=" = sanitizeString k)
  /\ sanitizeData (dropSensitive samplePayload) = sanitizeData samplePayload.
Proof.
  assert (Hin : js "event_removed=" ∈ allKeys (sanitizeData samplePayload)).
  { apply list_elem_of_In. vm_compute. auto. }
  split; [exact Hin|split].
  - exact (proj1 (sensitive_entries_dropped samplePayload) _ Hin).
  - exact (proj2 (sensitive_entries_dropped samplePayload)).
Defined.

(** C5 (as stated) fails: the key [cookionx=] matches no entry of the
    list, so its entry is kept, and its sanitized form
    [cookievent_removed=], a key of the result, contains [cookie]. *)
Lemma sanitized_key_matches_denylist :
  isSensitiveKey (js "cookionx=") = false
  /\ sanitizeData cookieLikeKey
     = VObject [(js "cookievent_removed=", VNumber 1)]
  /\ isSensitiveKey (js "cookievent_removed=") = true.
Proof. vm_compute. auto. Qed.






(** *** What [sanitizeString] leaves behind *)

Lemma free_literal_test (p s : jsstring) :
  p <> [] ->
  free (literal_at p) s = true -> test (starts_with_ci p) s = false.
Proof.
  intros Hp. induction s as [|c s IH]; intros H.
  - destruct p; [congruence|reflexivity].
  - rewrite free_cons, hit_literal_at in H by exact Hp.
    apply andb_true_iff in H as [Hc Hs]. cbn [test].
    apply negb_true_iff in Hc. rewrite Hc, (IH Hs). reflexivity.
Qed.

Lemma handler_at_event_at (s : jsstring) :
  handler_at s = true -> hit (event_at s) = true.
Proof.
  unfold handler_at, event_at.
  destruct (starts_with_ci (js "on") s); [|discriminate]. cbn [andb].
  destruct (span is_word (drop 2 s)) as [name r1].
  destruct name as [|w name]; [discriminate|].
  destruct r1 as [|c r1]; [discriminate|]. intros Hc.
  cbn [span]. apply N.eqb_eq in Hc. subst c. cbn. reflexivity.
Qed.

Lemma free_event_test (s : jsstring) :
  free event_at s = true -> test handler_at s = false.
Proof.
  induction s as [|c s IH]; intros H; [reflexivity|].
  rewrite free_cons in H. apply andb_true_iff in H as [Hc Hs].
  cbn [test]. rewrite (IH Hs), orb_false_r.
  destruct (handler_at (c :: s)) eqn:Hh; [|reflexivity].
  apply handler_at_event_at in Hh. rewrite Hh in Hc. discriminate Hc.
Qed.

(** X22.  Whatever the input, the result of [sanitizeString] holds, in
    no mix of capitals and small letters, neither the text
    [javascript:] nor the text [vbscript:] nor an event handler ([on],
    a name, white space or none, and [=]); it has 10000 code units at
    most ([MAX_STRING_LENGTH]); and it passes the three tests of
    [containsSuspiciousPatterns] for these patterns.  When the input
    holds no line terminator, the result holds no script element
    either. *)
Theorem sanitizeString_leaves_no_pattern (s : jsstring) :
  let r := sanitizeString s in
  free (literal_at javascriptPattern) r = true
  /\ free (literal_at vbscriptPattern) r = true
  /\ free event_at r = true
  /\ (length r <= MAX_STRING_LENGTH)%nat
  /\ test (starts_with_ci (js "javascript:")) r = false
  /\ test (starts_with_ci (js "vbscript:")) r = false
  /\ test handler_at r = false
  /\ (noLineTerminator s = true -> free script_at r = true).
Proof.
  intros r.
  assert (H2 : free (literal_at javascriptPattern) r = true).
  { subst r. rewrite sanitizeString_unfold.
    apply free_take; [apply literal_at_app|].
    apply literal_free_kept; [discriminate|reflexivity|].
    apply literal_free_kept; [discriminate|reflexivity|].
    apply literal_free_made; [discriminate|reflexivity]. }
  assert (H3 : free (literal_at vbscriptPattern) r = true).
  { subst r. rewrite sanitizeString_unfold.
    apply free_take; [apply literal_at_app|].
    apply literal_free_kept; [discriminate|reflexivity|].
    apply literal_free_made; [discriminate|reflexivity]. }
  assert (H4 : free event_at r = true).
  { subst r. rewrite sanitizeString_unfold.
    apply free_take; [apply event_at_app|]. apply event_free_made. }
  repeat split; try assumption.
  - subst r. rewrite sanitizeString_unfold, length_take. lia.
  - apply (free_literal_test javascriptPattern); [discriminate|exact H2].
  - apply (free_literal_test vbscriptPattern); [discriminate|exact H3].
  - apply free_event_test. exact H4.
  - intros Hlt. subst r. rewrite sanitizeString_unfold.
    apply free_take; [apply script_at_app|].
    apply (replaced_free s Hlt).
Qed.

Lemma sanitizeString_leaves_no_pattern_witness :
  free script_at
    (sanitizeString (js "<script>x</script> <a onclick =JavaScript:go()>"))
  = true.
Proof.
  apply (sanitizeString_leaves_no_pattern
           (js "<script>x</script> <a onclick =JavaScript:go()>")).
  reflexivity.
Defined.

End SecurityValidatorSpec.

(** ** Numbers as strings *)

Module JsNumberFacts.
Import JsNumber.

Lemma digits_from_acc (fuel : nat) (radix n : N) (acc : jsstring) :
  digits_from fuel radix n acc = digits_from fuel radix n [] ++ acc.
Proof.
  revert n acc. induction fuel as [|fuel IH]; intros n acc; [reflexivity|].
  cbn [digits_from]. destruct (n <? radix)%N; [reflexivity|].
  rewrite IH, (IH _ [_]), <- app_assoc. reflexivity.
Qed.

(** A number below [radix ^ k] has [k] digits at most. *)
Lemma digits_from_length (fuel : nat) (radix n : N) (acc : jsstring)
      (k : nat) :
  (n < radix ^ N.of_nat k)%N -> (1 <= k)%nat ->
  (length (digits_from fuel radix n acc) <= k + length acc)%nat.
Proof.
  revert n acc k. induction fuel as [|fuel IH]; intros n acc k Hn Hk;
    cbn [digits_from]; [lia|].
  destruct (N.ltb_spec n radix) as [Hlt|Hge]; [cbn [length]; lia|].
  destruct k as [|[|k]]; [lia| |].
  - cbn in Hn. rewrite N.pow_1_r in Hn. lia.
  - assert (Hr : (radix <> 0)%N).
    { intros ->. rewrite N.pow_0_l in Hn by lia. lia. }
    specialize (IH (n / radix)%N (digit_unit (n mod radix) :: acc) (S k)).
    cbn [length] in IH.
    assert (Hdiv : (n / radix < radix ^ N.of_nat (S k))%N).
    { apply N.Div0.div_lt_upper_bound.
      replace (N.of_nat (S (S k))) with (N.succ (N.of_nat (S k))) in Hn
        by lia.
      rewrite N.pow_succ_r' in Hn. exact Hn. }
    specialize (IH Hdiv ltac:(lia)). lia.
Qed.

Lemma digits_from_grows (fuel : nat) (radix n : N) (acc : jsstring) :
  (length acc <= length (digits_from fuel radix n acc))%nat.
Proof.
  revert n acc. induction fuel as [|fuel IH]; intros n acc;
    cbn [digits_from]; [lia|].
  destruct (n <? radix)%N; [cbn [length]; lia|].
  specialize (IH (n / radix)%N (digit_unit (n mod radix) :: acc)).
  cbn [length] in IH. lia.
Qed.

Lemma toStringRadix_nonempty (radix n : N) : toStringRadix radix n <> [].
Proof.
  unfold toStringRadix. cbn [digits_from].
  destruct (n <? radix)%N; [discriminate|].
  pose proof (digits_from_grows (N.to_nat (N.log2 n)) radix (n / radix)
                [digit_unit (n mod radix)]) as H.
  destruct (digits_from _ _ _ _); [cbn in H; lia|discriminate].
Qed.

Lemma digits_from_Forall (P : N -> bool) (fuel : nat) (radix n : N)
      (acc : jsstring) :
  (radix <> 0)%N ->
  (forall d, (d < radix)%N -> P (digit_unit d) = true) ->
  forallb P acc = true ->
  forallb P (digits_from fuel radix n acc) = true.
Proof.
  intros Hr HP. revert n acc.
  induction fuel as [|fuel IH]; intros n acc Hacc; cbn [digits_from];
    [exact Hacc|].
  assert (Hd : forallb P (digit_unit (n mod radix) :: acc) = true).
  { cbn [forallb]. rewrite HP by (apply N.mod_lt; exact Hr). exact Hacc. }
  destruct (n <? radix)%N; [exact Hd|]. apply IH. exact Hd.
Qed.

Lemma toString10_digits (n : N) : forallb is_digit (toStringRadix 10 n) = true.
Proof.
  apply digits_from_Forall; [discriminate| |reflexivity].
  intros d Hd. unfold digit_unit, is_digit.
  destruct (N.ltb_spec d 10); [|lia].
  apply andb_true_iff. split; apply N.leb_le; lia.
Qed.

Lemma parseInt10_snoc (ds : jsstring) (d : N) :
  parseInt10 (ds ++ [d]) = 10 * parseInt10 ds + (Z.of_N d - 48).
Proof. unfold parseInt10. rewrite fold_left_app. reflexivity. Qed.

Lemma log2_tenth (n : N) :
  (10 <= n)%N -> (N.log2 (n / 10) < N.log2 n)%N.
Proof.
  intros Hn.
  assert (H2 : (N.log2 (n / 2) < N.log2 n)%N).
  { change 2%N with (2 ^ 1)%N. rewrite <- N.shiftr_div_pow2, N.log2_shiftr.
    assert (0 < N.log2 n)%N by (apply N.log2_pos; lia). lia. }
  assert (Hle : (n / 10 <= n / 2)%N).
  { apply N.div_le_lower_bound; [lia|].
    pose proof (N.Div0.mul_div_le n 10). lia. }
  pose proof (N.log2_le_mono _ _ Hle). lia.
Qed.

Lemma digits_from_value (fuel : nat) (n : N) :
  (N.to_nat (N.log2 n) < fuel)%nat ->
  parseInt10 (digits_from fuel 10 n []) = Z.of_N n.
Proof.
  revert n. induction fuel as [|fuel IH]; intros n Hfuel; [lia|].
  cbn [digits_from]. destruct (N.ltb_spec n 10) as [Hlt|Hge].
  - rewrite N.mod_small by exact Hlt. unfold digit_unit.
    destruct (N.ltb_spec n 10); [|lia]. unfold parseInt10. cbn [fold_left]. lia.
  - rewrite digits_from_acc, parseInt10_snoc, IH.
    + unfold digit_unit.
      pose proof (N.mod_lt n 10 ltac:(lia)) as Hm.
      destruct (N.ltb_spec (n mod 10) 10); [|lia].
      pose proof (N.div_mod' n 10). lia.
    + pose proof (log2_tenth n Hge). lia.
Qed.

(** Reading the decimal digits of a number gives the number back. *)
Lemma parseInt10_toString10 (n : N) :
  parseInt10 (toStringRadix 10 n) = Z.of_N n.
Proof. apply digits_from_value. lia. Qed.

Lemma span_digits (ds rest : jsstring) (c : N) :
  forallb is_digit ds = true -> is_digit c = false ->
  span is_digit (ds ++ c :: rest) = (ds, c :: rest).
Proof.
  intros Hds Hc. induction ds as [|d ds IH]; cbn [app span].
  - rewrite Hc. reflexivity.
  - cbn [forallb] in Hds. apply andb_true_iff in Hds as [Hd Hds].
    rewrite Hd, (IH Hds). reflexivity.
Qed.

End JsNumberFacts.

(** ** ErrorExplorerService: which failures of the transport are retried *)

Module ErrorExplorerSpec.
Import RetryManager ErrorExplorer JsNumber JsNumberFacts.

(** A needle is not found in front of a string when none of the units
    in front is its first unit. *)
Lemma includes_skip (pre s needle : jsstring) (h : N) :
  (forall c, c ∈ pre -> unit_eqb h c = false) ->
  includes (pre ++ s) (h :: needle) = includes s (h :: needle).
Proof.
  intros Hpre. induction pre as [|c pre IH]; [reflexivity|].
  cbn [app includes starts_with].
  rewrite (Hpre c) by (left). cbn [andb orb]. apply IH.
  intros c' Hc'. apply Hpre. right. exact Hc'.
Qed.

Lemma hasRetryablePhrase_skip (pre s : jsstring) :
  (forall c, c ∈ pre -> c <> 82%N /\ c <> 78%N /\ c <> 70%N) ->
  hasRetryablePhrase (pre ++ s) = hasRetryablePhrase s.
Proof.
  intros Hpre. unfold hasRetryablePhrase.
  assert (H : forall h needle, (h = 82 \/ h = 78 \/ h = 70)%N ->
                includes (pre ++ s) (h :: needle) = includes s (h :: needle)).
  { intros h needle Hh. apply includes_skip. intros c Hc.
    destruct (Hpre c Hc) as (H1 & H2 & H3). unfold unit_eqb.
    apply N.eqb_neq. lia. }
  change (js "Rate limit exceeded by server")
    with (82%N :: js "ate limit exceeded by server").
  change (js "Request timeout") with (82%N :: js "equest timeout").
  change (js "Network error") with (78%N :: js "etwork error").
  change (js "Failed to fetch") with (70%N :: js "ailed to fetch").
  rewrite !H by lia. reflexivity.
Qed.

(** The phrases are read before the status: what [shouldRetry] answers
    in terms of the two. *)
Lemma shouldRetry_by_parts (config : RetryConfig) (e : JsError)
      (attempt : Z) :
  attempt < maxRetries config - 1 ->
  shouldRetry config e attempt
  = hasRetryablePhrase (RetryManager.message e)
    || match httpStatus (RetryManager.message e) with
       | Some n =>
           if (n =? 401) || (n =? 403) then false
           else (n >=? 500) || (n =? 429) || (n =? 408)
       | None => false
       end.
Proof.
  intros Hlt. unfold shouldRetry, hasRetryablePhrase, httpStatus.
  destruct (Z.geb_spec attempt (maxRetries config - 1)); [lia|].
  destruct (includes _ (js "Rate limit exceeded by server")); [reflexivity|].
  destruct (includes _ (js "Request timeout")); [reflexivity|].
  destruct (includes _ (js "Network error")); [reflexivity|].
  destruct (includes _ (js "Failed to fetch")); [reflexivity|].
  cbn [orb]. destruct (httpMatch _); reflexivity.
Qed.

Lemma digits_not_letters (ds : jsstring) (c : N) :
  forallb is_digit ds = true -> c ∈ ds ->
  c <> 82%N /\ c <> 78%N /\ c <> 70%N /\ c <> 72%N.
Proof.
  intros Hds Hc. rewrite forallb_forall in Hds.
  apply list_elem_of_In, Hds in Hc. unfold is_digit in Hc.
  apply andb_true_iff in Hc as [H1 H2]. apply N.leb_le in H1, H2. lia.
Qed.

(** The message made from a status that is a positive integer carries
    that status where [shouldRetry] looks for it. *)
Lemma httpStatus_of_status (n : Z) (m : jsstring) :
  0 < n ->
  httpStatus (js "HTTP " ++ numberToString n ++ js ": " ++ m) = Some n.
Proof.
  intros Hn. unfold httpStatus, numberToString.
  destruct (Z.ltb_spec n 0); [lia|].
  set (ds := toStringRadix 10 (Z.to_N n)).
  assert (Hds : forallb is_digit ds = true) by apply toString10_digits.
  assert (Hne : ds <> []) by apply toStringRadix_nonempty.
  assert (Hat : http_at (js "HTTP " ++ ds ++ js ": " ++ m) = Some ds).
  { unfold http_at.
    assert (Hs : starts_with (js "HTTP ") (js "HTTP " ++ ds ++ js ": " ++ m)
                 = true) by reflexivity.
    rewrite Hs.
    change (skipn 5 (js "HTTP " ++ ds ++ js ": " ++ m))
      with (ds ++ 58%N :: 32%N :: m).
    rewrite (span_digits ds (32%N :: m) 58 Hds eq_refl).
    destruct ds; [congruence|]. reflexivity. }
  assert (Hm : httpMatch (js "HTTP " ++ ds ++ js ": " ++ m) = Some ds).
  { destruct (js "HTTP " ++ ds ++ js ": " ++ m) eqn:E;
      cbn [httpMatch]; rewrite Hat; reflexivity. }
  rewrite Hm. unfold ds. rewrite parseInt10_toString10. f_equal. lia.
Qed.

(** X23.  What [executeWithRetry] does with the errors that
    [sendReportDirectly] rethrows, for a caught value whose message
    holds none of the phrases that [shouldRetry] accepts, before the
    last attempt.  With a status that is a positive integer below
    [2^53], which the template literal prints digit by digit, the error
    is retried exactly when the status is 500 or more, 429 or 408: the
    statuses 401, 403 and 413 are not retried.  With no status or the
    status 0, which is how a failure to reach the server is reported,
    the error is not retried (unless the caught message itself holds
    the text [HTTP], digits and a colon). *)
Theorem rethrown_status_decides_retry (config : RetryConfig) (c : Caught)
        (attempt : Z) :
  attempt < maxRetries config - 1 ->
  hasRetryablePhrase (messageText c) = false ->
  (forall n, status c = Some n -> 0 < n -> n < 2 ^ 53 ->
             shouldRetry config (rethrown c) attempt
             = (500 <=? n) || (n =? 429) || (n =? 408))
  /\ (status c = None \/ status c = Some 0 ->
      httpStatus (messageText c) = None ->
      shouldRetry config (rethrown c) attempt = false).
Proof.
  intros Hlt Hphrase. split.
  - intros n Hst Hn _. rewrite shouldRetry_by_parts by exact Hlt.
    unfold rethrown. rewrite Hst.
    destruct (Z.eq_dec n 429) as [->|H429]; [reflexivity|].
    destruct (Z.eq_dec n 413) as [->|H413]; [reflexivity|].
    assert (Hmsg : RetryManager.message
                     match n with
                     | 429 => {| RetryManager.message :=
                                   js "Rate limit exceeded by server" |}
                     | 413 => {| RetryManager.message :=
                                   js "Payload too large" |}
                     | _ => {| RetryManager.message :=
                                 js "HTTP " ++ statusText c ++ js ": "
                                 ++ messageText c |}
                     end
                   = js "HTTP " ++ numberToString n ++ js ": "
                     ++ messageText c).
    { unfold statusText. rewrite Hst.
      destruct (Z.eqb_spec n 0); [lia|].
      destruct n as [|p|p]; try lia.
      repeat (destruct p as [p|p|]; try reflexivity; try lia). }
    rewrite Hmsg, httpStatus_of_status by exact Hn.
    rewrite (app_assoc (js "HTTP ")), (app_assoc _ (js ": ")).
    rewrite hasRetryablePhrase_skip, Hphrase.
    + cbn [orb]. destruct (Z.eqb_spec n 401) as [->|?]; [reflexivity|].
      destruct (Z.eqb_spec n 403) as [->|?]; [reflexivity|].
      cbn [orb]. rewrite Z.geb_leb. reflexivity.
    + intros u Hu. unfold numberToString in Hu.
      destruct (Z.ltb_spec n 0); [lia|].
      rewrite !elem_of_app in Hu. destruct Hu as [[Hu|Hu]|Hu].
      * cbn in Hu. repeat (apply elem_of_cons in Hu as [->|Hu]; [lia|]).
        apply elem_of_nil in Hu. contradiction.
      * pose proof (digits_not_letters _ u (toString10_digits _) Hu). lia.
      * cbn in Hu. repeat (apply elem_of_cons in Hu as [->|Hu]; [lia|]).
        apply elem_of_nil in Hu. contradiction.
  - intros Hst Hnone. rewrite shouldRetry_by_parts by exact Hlt.
    assert (Hmsg : RetryManager.message (rethrown c)
                   = js "HTTP unknown: " ++ messageText c).
    { unfold rethrown, statusText. destruct Hst as [->| ->]; reflexivity. }
    rewrite Hmsg. rewrite hasRetryablePhrase_skip, Hphrase.
    + cbn [orb]. unfold httpStatus in *.
      assert (Hm : httpMatch (js "HTTP unknown: " ++ messageText c)
                   = httpMatch (messageText c)).
      { cbn [js List.map list_ascii_of_string N_of_ascii app httpMatch].
        reflexivity. }
      rewrite Hm. destruct (httpMatch (messageText c)); [discriminate|].
      reflexivity.
    + intros u Hu. cbn in Hu.
      repeat (apply elem_of_cons in Hu as [->|Hu]; [lia|]).
      apply elem_of_nil in Hu. contradiction.
Qed.

Lemma rethrown_status_decides_retry_witness :
  shouldRetry defaultConfig
    (rethrown {| status := Some 503;
                 caughtMessage := Some (js "Service Unavailable") |}) 0
  = true
  /\ shouldRetry defaultConfig
       (rethrown {| status := Some 401;
                    caughtMessage := Some (js "Unauthorized") |}) 0
     = false
  /\ shouldRetry defaultConfig
       (rethrown {| status := Some 0;
                    caughtMessage :=
                      Some (js "Http failure response for /webhook: 0 Unknown Error") |})
       0
     = false.
Proof.
  split; [|split].
  - apply (proj1 (rethrown_status_decides_retry defaultConfig
                    {| status := Some 503;
                       caughtMessage := Some (js "Service Unavailable") |} 0
                    ltac:(cbn; lia) eq_refl) 503 eq_refl ltac:(lia) eq_refl).
  - apply (proj1 (rethrown_status_decides_retry defaultConfig
                    {| status := Some 401;
                       caughtMessage := Some (js "Unauthorized") |} 0
                    ltac:(cbn; lia) eq_refl) 401 eq_refl ltac:(lia) eq_refl).
  - apply (proj2 (rethrown_status_decides_retry defaultConfig
                    {| status := Some 0;
                       caughtMessage :=
                         Some (js "Http failure response for /webhook: 0 Unknown Error") |}
                    0 ltac:(cbn; lia) eq_refl)); [right; reflexivity|].
    reflexivity.
Defined.

End ErrorExplorerSpec.

(** ** RateLimiterService: error fingerprints *)

Module ErrorFingerprintSpec.
Import SecurityValidator Scan ScanFacts ErrorFingerprint JsNumber JsNumberFacts.

(** *** The hash *)

Lemma toInt32_range (z : Z) : - 2 ^ 31 <= toInt32 z < 2 ^ 31.
Proof.
  unfold toInt32. pose proof (Z.mod_pos_bound (z + 2 ^ 31) (2 ^ 32)). lia.
Qed.

Lemma hash_range (combined : jsstring) (h : Z) :
  - 2 ^ 31 <= h < 2 ^ 31 ->
  - 2 ^ 31 <= fold_left hashStep combined h < 2 ^ 31.
Proof.
  revert h. induction combined as [|c combined IH]; intros h Hh; [exact Hh|].
  cbn [fold_left]. apply IH. unfold hashStep. apply toInt32_range.
Qed.

Lemma base36_digit (d : N) : (d < 36)%N -> is_base36 (digit_unit d) = true.
Proof.
  intros Hd. unfold is_base36, is_digit, digit_unit.
  destruct (N.ltb_spec d 10).
  - apply orb_true_iff. left. apply andb_true_iff. split; apply N.leb_le; lia.
  - apply orb_true_iff. right. apply andb_true_iff.
    split; apply N.leb_le; lia.
Qed.

(** X24.  A fingerprint made by [createErrorFingerprint] is a word of
    one to seven digits of radix 36, so that the cut at 32 units never
    cuts; it is never the empty string, which [recordRequest] would not
    store: recording a request under the fingerprint stores the time
    under it. *)
Theorem createErrorFingerprint_is_short_word (error : ErrorObject) :
  let f := createErrorFingerprint error in
  f <> []
  /\ (length f <= 7)%nat
  /\ forallb is_base36 f = true
  /\ (forall (now : Z) (s : RateLimiter.RateLimiterService),
         RateLimiter.errorFingerprints
           (RateLimiter.recordRequest now (Some f) s) !! f = Some now).
Proof.
  intros f. unfold createErrorFingerprint in f.
  set (combined := _ ++ js "|" ++ _ ++ js "|" ++ _) in f.
  set (hash := fold_left hashStep combined 0) in f.
  assert (Hrange : - 2 ^ 31 <= hash < 2 ^ 31)
    by (apply hash_range; cbn; lia).
  set (n := Z.to_N (Z.abs hash)) in f.
  assert (Hn : (n < 36 ^ N.of_nat 7)%N).
  { change (36 ^ N.of_nat 7)%N with 78364164096%N. unfold n.
    change (2 ^ 31) with 2147483648 in Hrange. lia. }
  assert (Hlen : (length (toStringRadix 36 n) <= 7)%nat).
  { pose proof (digits_from_length (S (N.to_nat (N.log2 n))) 36 n [] 7 Hn
                  ltac:(lia)) as H. cbn [length] in H.
    unfold toStringRadix. lia. }
  assert (Hf : f = toStringRadix 36 n).
  { subst f. apply take_ge. lia. }
  assert (Hne : f <> []) by (rewrite Hf; apply toStringRadix_nonempty).
  split; [exact Hne|]. split; [rewrite Hf; exact Hlen|]. split.
  - rewrite Hf. apply digits_from_Forall; [discriminate| |reflexivity].
    apply base36_digit.
  - intros now s. unfold RateLimiter.recordRequest.
    cbn [RateLimiter.errorFingerprints].
    destruct f as [|c f']; [congruence|]. cbn [RateLimiter.truthy].
    apply lookup_insert_eq.
Qed.

(** *** The frames *)

Section Frames.

Abbreviation Rl := (replaceAll line_at (js ":XX")).
Abbreviation Rlc := (replaceAll line_column_at (js ":XX:XX")).

Lemma span_digits_all (ds rest : jsstring) :
  forallb is_digit ds = true -> starts_with_digit rest = false ->
  span is_digit (ds ++ rest) = (ds, rest).
Proof.
  intros Hds Hrest. induction ds as [|d ds IH]; cbn [app].
  - destruct rest as [|c rest]; [reflexivity|]. cbn [span].
    cbn in Hrest. rewrite Hrest. reflexivity.
  - cbn [forallb] in Hds. apply andb_true_iff in Hds as [Hd Hds].
    cbn [span]. rewrite Hd, (IH Hds). reflexivity.
Qed.

Lemma span_digits_stop (s : jsstring) :
  starts_with_digit (span is_digit s).2 = false.
Proof.
  induction s as [|c s IH]; [reflexivity|]. cbn [span].
  destruct (is_digit c) eqn:Hc.
  - destruct (span is_digit s) as [a b]. exact IH.
  - cbn. exact Hc.
Qed.

Lemma span_digits_first (s : jsstring) :
  (span is_digit s).1 = [] <-> starts_with_digit s = false.
Proof.
  destruct s as [|c s]; [split; reflexivity|]. cbn [span starts_with_digit].
  destruct (is_digit c); [|split; reflexivity].
  destruct (span is_digit s). cbn. split; discriminate.
Qed.

Lemma hit_line_at (s : jsstring) :
  hit (line_at s)
  = match s with
    | c :: s1 => (c =? 58)%N && starts_with_digit s1
    | [] => false
    end.
Proof.
  destruct s as [|c s1]; [reflexivity|]. unfold line_at.
  destruct (c =? 58)%N; [|reflexivity]. cbn [andb].
  pose proof (span_digits_first s1) as H.
  destruct (span is_digit s1).1 as [|d line].
  - symmetry. apply H. reflexivity.
  - destruct (starts_with_digit s1); [reflexivity|].
    destruct H as [_ H]. discriminate (H eq_refl).
Qed.

(** The result of the second replacement starts with a digit only where
    its argument does, and it holds no colon followed by a digit. *)
Lemma replaced_line_free (s : jsstring) :
  free line_at (Rl s) = true
  /\ (starts_with_digit (Rl s) = true -> starts_with_digit s = true).
Proof.
  pattern s, (Rl s). apply scan_ind; clear s.
  - split; [reflexivity|discriminate].
  - intros c s Hm [IH1 IH2]. split; [|intros H; exact H].
    rewrite free_cons, IH1, andb_true_r. apply negb_true_iff.
    rewrite hit_line_at in *.
    destruct (c =? 58)%N; [|reflexivity]. cbn [andb] in *.
    destruct (starts_with_digit (Rl s)) eqn:Hd; [|reflexivity].
    rewrite (IH2 eq_refl) in Hm. discriminate Hm.
  - intros c s n Hm [IH1 _]. split; [|discriminate].
    change (js ":XX" ++ Rl (drop n s))
      with (58%N :: 88%N :: 88%N :: Rl (drop n s)).
    rewrite !free_cons, !hit_line_at. exact IH1.
Qed.

Lemma free_line_app (a t : jsstring) :
  free line_at a = true -> starts_with_digit t = false ->
  free line_at t = true -> free line_at (a ++ t) = true.
Proof.
  intros Ha Ht Hft. induction a as [|c a IH]; [exact Hft|].
  rewrite free_cons in Ha. apply andb_true_iff in Ha as [Hc Ha].
  cbn [app]. rewrite free_cons, (IH Ha), andb_true_r.
  rewrite hit_line_at in *. destruct (c =? 58)%N; [|reflexivity].
  cbn [andb] in *. destruct a as [|d a]; [cbn [app]; rewrite Ht|];
    [reflexivity|exact Hc].
Qed.

Lemma free_line_join (parts : list jsstring) :
  Forall (fun part => free line_at part = true) parts ->
  free line_at (join (js "|") parts) = true.
Proof.
  induction 1 as [|part parts Hpart _ IH]; [reflexivity|].
  cbn [join]. destruct parts as [|next parts]; [exact Hpart|].
  apply free_line_app; [exact Hpart|reflexivity|].
  change (js "|" ++ join (js "|") (next :: parts))
    with (124%N :: join (js "|") (next :: parts)).
  rewrite free_cons, hit_line_at. exact IH.
Qed.

(** X25.  The signature that [extractStackSignature] makes of a stack
    trace holds no colon followed by a digit: no line number and no
    column number of a frame is left in it. *)
Theorem extractStackSignature_holds_no_position (stackTrace : jsstring)
        (depth : nat) :
  free line_at (extractStackSignature stackTrace depth) = true.
Proof.
  unfold extractStackSignature. destruct stackTrace as [|c st]; [reflexivity|].
  apply free_line_join. apply Forall_forall. intros part Hpart.
  apply list_elem_of_In, in_map_iff in Hpart as (frame & <- & _).
  apply replaced_line_free.
Qed.

(** *** The two replacements of a frame *)

Lemma line_at_run (ds rest : jsstring) :
  ds <> [] -> forallb is_digit ds = true -> starts_with_digit rest = false ->
  line_at (58%N :: ds ++ rest) = Some (S (length ds)).
Proof.
  intros Hne Hds Hrest. unfold line_at. rewrite N.eqb_refl.
  rewrite (span_digits_all ds rest Hds Hrest). cbn [fst].
  destruct ds; [congruence|reflexivity].
Qed.

Lemma Rl_run (ds rest : jsstring) :
  ds <> [] -> forallb is_digit ds = true -> starts_with_digit rest = false ->
  Rl (58%N :: ds ++ rest) = js ":XX" ++ Rl rest.
Proof.
  intros Hne Hds Hrest.
  rewrite (replaceAll_hit _ _ _ _ _ (line_at_run ds rest Hne Hds Hrest)).
  rewrite drop_app_length. reflexivity.
Qed.

Lemma Rl_other (c : N) (y : jsstring) :
  (c =? 58)%N = false -> Rl (c :: y) = c :: Rl y.
Proof.
  intros Hc. apply replaceAll_copy. rewrite hit_line_at, Hc. reflexivity.
Qed.

Lemma Rlc_other (c : N) (y : jsstring) :
  (c =? 58)%N = false -> Rlc (c :: y) = c :: Rlc y.
Proof.
  intros Hc. apply replaceAll_copy. unfold line_column_at. rewrite Hc.
  reflexivity.
Qed.

Lemma Rl_colon (y : jsstring) :
  starts_with_digit y = false -> Rl (58%N :: y) = 58%N :: Rl y.
Proof.
  intros Hy. apply replaceAll_copy. rewrite hit_line_at, Hy. reflexivity.
Qed.

Lemma digit_not_colon (c : N) : is_digit c = true -> (c =? 58)%N = false.
Proof.
  unfold is_digit. intros H. apply andb_true_iff in H as [_ H].
  apply N.leb_le in H. apply N.eqb_neq. lia.
Qed.

Lemma Rlc_digits (ds y : jsstring) :
  forallb is_digit ds = true -> Rlc (ds ++ y) = ds ++ Rlc y.
Proof.
  induction ds as [|d ds IH]; [reflexivity|]. cbn [forallb app].
  intros H. apply andb_true_iff in H as [Hd Hds].
  rewrite (Rlc_other d _ (digit_not_colon d Hd)), (IH Hds). reflexivity.
Qed.

Lemma Rlc_starts (y : jsstring) :
  starts_with_digit (Rlc y) = starts_with_digit y.
Proof.
  destruct y as [|c y]; [reflexivity|]. destruct (c =? 58)%N eqn:Hc.
  - apply N.eqb_eq in Hc. subst c.
    destruct (line_column_at (58%N :: y)) as [[|n]|] eqn:Hm.
    + rewrite replaceAll_copy by (rewrite Hm; reflexivity). reflexivity.
    + rewrite (replaceAll_hit _ _ _ _ n Hm). reflexivity.
    + rewrite replaceAll_copy by (rewrite Hm; reflexivity). reflexivity.
  - rewrite (Rlc_other c y Hc). reflexivity.
Qed.

Lemma Rl_replacement (y : jsstring) :
  Rl (js ":XX:XX" ++ y) = js ":XX:XX" ++ Rl y.
Proof.
  change (js ":XX:XX" ++ y)
    with (58%N :: 88%N :: 88%N :: 58%N :: 88%N :: 88%N :: y).
  rewrite !replaceAll_copy by (rewrite hit_line_at; reflexivity).
  reflexivity.
Qed.

Lemma starts_with_digit_app_colon (a y : jsstring) :
  starts_with_digit (a ++ 58%N :: y) = starts_with_digit a.
Proof. destruct a; reflexivity. Qed.

(** The first replacement of [normalizeFrame] changes nothing in its
    result: what [/:\d+:\d+/] matches, [/:\d+/] matches in two steps. *)
Lemma second_replacement_suffices (s : jsstring) : Rl (Rlc s) = Rl s.
Proof.
  induction s as [s IH] using (induction_ltof1 _ (@length N)).
  unfold ltof in IH. destruct s as [|c s1]; [reflexivity|].
  destruct (c =? 58)%N eqn:Hc.
  2:{ rewrite (Rlc_other _ _ Hc), !(Rl_other _ _ Hc). f_equal.
      apply IH. cbn. lia. }
  apply N.eqb_eq in Hc. subst c.
  pose proof (span_concat is_digit s1) as Hcat.
  pose proof (span_all is_digit s1) as Hall.
  pose proof (span_digits_stop s1) as Hstop.
  destruct (span is_digit s1) as [line r1] eqn:Hspan. cbn [fst snd] in *.
  subst s1. destruct line as [|d line].
  - cbn [app] in *.
    assert (Hm : line_column_at (58%N :: r1) = None).
    { unfold line_column_at. rewrite N.eqb_refl, Hspan. reflexivity. }
    rewrite replaceAll_copy by (rewrite Hm; reflexivity).
    rewrite !Rl_colon by (rewrite ?Rlc_starts; exact Hstop).
    f_equal. apply IH. cbn. lia.
  - set (ds := d :: line) in *.
    assert (Hne : ds <> []) by discriminate.
    rewrite (Rl_run ds r1 Hne Hall Hstop).
    assert (Hnone : line_column_at (58%N :: ds ++ r1) = None ->
                    Rl (Rlc (58%N :: ds ++ r1)) = js ":XX" ++ Rl r1).
    { intros Hm. rewrite replaceAll_copy by (rewrite Hm; reflexivity).
      rewrite (Rlc_digits ds r1 Hall).
      rewrite (Rl_run ds (Rlc r1) Hne Hall)
        by (rewrite Rlc_starts; exact Hstop).
      f_equal. apply IH. cbn. rewrite length_app. lia. }
    destruct r1 as [|c2 s2].
    { apply Hnone. unfold line_column_at. rewrite N.eqb_refl, Hspan.
      reflexivity. }
    destruct (c2 =? 58)%N eqn:Hc2.
    2:{ apply Hnone. unfold line_column_at. rewrite N.eqb_refl, Hspan.
        subst ds. cbn iota. rewrite Hc2. reflexivity. }
    apply N.eqb_eq in Hc2. subst c2.
    pose proof (span_concat is_digit s2) as Hcat2.
    pose proof (span_all is_digit s2) as Hall2.
    pose proof (span_digits_stop s2) as Hstop2.
    destruct (span is_digit s2) as [column r2] eqn:Hspan2.
    cbn [fst snd] in *. subst s2. destruct column as [|d2 column].
    { apply Hnone. unfold line_column_at. rewrite N.eqb_refl, Hspan.
      subst ds. cbn iota. rewrite N.eqb_refl, Hspan2. reflexivity. }
    set (cs := d2 :: column) in *.
    assert (Hcs : cs <> []) by discriminate.
    assert (Hm : line_column_at (58%N :: ds ++ 58%N :: cs ++ r2)
                 = Some (S (length ds + 1 + length cs))).
    { unfold line_column_at. rewrite N.eqb_refl, Hspan.
      subst ds. cbn iota. rewrite N.eqb_refl, Hspan2. reflexivity. }
    rewrite (replaceAll_hit _ _ _ _ _ Hm).
    replace (drop (length ds + 1 + length cs) (ds ++ 58%N :: cs ++ r2))
      with r2.
    2:{ rewrite <- Nat.add_assoc, drop_app_add. cbn [Nat.add drop].
        rewrite drop_app_length. reflexivity. }
    rewrite Rl_replacement, (IH r2).
    2:{ cbn. rewrite !length_app. cbn. rewrite length_app. lia. }
    rewrite (Rl_run cs r2 Hcs Hall2 Hstop2). reflexivity.
Qed.

Lemma Rl_app_colon (pre y : jsstring) :
  Rl (pre ++ 58%N :: y) = Rl pre ++ Rl (58%N :: y).
Proof.
  induction pre as [pre IH] using (induction_ltof1 _ (@length N)).
  unfold ltof in IH. destruct pre as [|c pre]; [reflexivity|].
  cbn [app]. destruct (c =? 58)%N eqn:Hc.
  2:{ rewrite !(Rl_other _ _ Hc). cbn [app]. f_equal. apply IH. cbn. lia. }
  apply N.eqb_eq in Hc. subst c.
  pose proof (span_concat is_digit pre) as Hcat.
  pose proof (span_all is_digit pre) as Hall.
  pose proof (span_digits_stop pre) as Hstop.
  destruct (span is_digit pre) as [ds r] eqn:Hspan. cbn [fst snd] in *.
  subst pre. destruct ds as [|d ds].
  - cbn [app] in *.
    rewrite !Rl_colon by (rewrite ?starts_with_digit_app_colon; exact Hstop).
    cbn [app]. f_equal. apply IH. cbn. lia.
  - set (run := d :: ds) in *.
    assert (Hne : run <> []) by discriminate.
    rewrite <- app_assoc.
    rewrite (Rl_run run (r ++ 58%N :: y) Hne Hall)
      by (rewrite starts_with_digit_app_colon; exact Hstop).
    rewrite (Rl_run run r Hne Hall Hstop), IH.
    + rewrite <- app_assoc. reflexivity.
    + cbn. rewrite length_app. lia.
Qed.

(** [normalizeFrame] forgets the positions: a colon followed by a run of
    digits becomes [:XX] whatever the digits are, and the text before it
    and after it is normalized on its own. *)
Lemma normalizeFrame_run (pre ds rest : jsstring) :
  ds <> [] -> forallb is_digit ds = true -> starts_with_digit rest = false ->
  normalizeFrame (pre ++ 58%N :: ds ++ rest)
  = normalizeFrame pre ++ js ":XX" ++ normalizeFrame rest.
Proof.
  intros Hne Hds Hrest. unfold normalizeFrame.
  rewrite !second_replacement_suffices, Rl_app_colon.
  rewrite (Rl_run ds rest Hne Hds Hrest). reflexivity.
Qed.

(** *** The filter does not look at positions *)

Lemma starts_with_before_digit (p x y : jsstring) (d : N) :
  forallb (fun c => negb (is_digit c)) p = true -> is_digit d = true ->
  starts_with p (x ++ d :: y) = starts_with p x.
Proof.
  intros Hp Hd. revert p Hp.
  induction x as [|c x IH]; intros [|a p] Hp; try reflexivity.
  - cbn [forallb] in Hp. apply andb_true_iff in Hp as [Ha _].
    cbn [app starts_with]. unfold unit_eqb.
    destruct (N.eqb_spec a d) as [->|_]; [|reflexivity].
    rewrite Hd in Ha. discriminate Ha.
  - cbn [forallb] in Hp. apply andb_true_iff in Hp as [_ Hp].
    cbn [app starts_with]. rewrite (IH p Hp). reflexivity.
Qed.

Lemma includes_after_digits (ds b p : jsstring) :
  p <> [] -> forallb (fun c => negb (is_digit c)) p = true ->
  forallb is_digit ds = true ->
  includes (ds ++ b) p = includes b p.
Proof.
  intros Hne Hp. induction ds as [|d ds IH]; [reflexivity|].
  cbn [forallb]. intros H. apply andb_true_iff in H as [Hd Hds].
  cbn [app includes]. rewrite (IH Hds).
  pose proof (starts_with_before_digit p [] (ds ++ b) d Hp Hd) as Hs.
  cbn [app] in Hs. rewrite Hs.
  destruct p; [congruence|reflexivity].
Qed.

(** A needle without a digit is found around a run of digits where it is
    found before the run or after it. *)
Lemma includes_around_digits (a ds b p : jsstring) :
  p <> [] -> forallb (fun c => negb (is_digit c)) p = true ->
  ds <> [] -> forallb is_digit ds = true ->
  includes (a ++ ds ++ b) p = includes a p || includes b p.
Proof.
  intros Hne Hp Hds Hall. induction a as [|c a IH].
  - cbn [app]. rewrite (includes_after_digits ds b p Hne Hp Hall).
    destruct p; [congruence|reflexivity].
  - cbn [app includes]. rewrite IH, orb_assoc. f_equal. f_equal.
    destruct ds as [|d ds]; [congruence|].
    cbn [forallb] in Hall. apply andb_true_iff in Hall as [Hd _].
    apply (starts_with_before_digit p (c :: a) (ds ++ b) d Hp Hd).
Qed.

Lemma trimStart_app_stop (a y : jsstring) (d : N) :
  is_space d = false -> trimStart (a ++ d :: y) = trimStart a ++ d :: y.
Proof.
  intros Hd. induction a as [|c a IH]; cbn [app trimStart].
  - rewrite Hd. reflexivity.
  - destruct (is_space c); [exact IH|reflexivity].
Qed.

Lemma trimEnd_app_stop (x y : jsstring) (d : N) :
  is_space d = false -> trimEnd (x ++ d :: y) = x ++ d :: trimEnd y.
Proof.
  intros Hd. unfold trimEnd. rewrite rev_app_distr. cbn [rev].
  rewrite <- app_assoc. cbn [app].
  rewrite (trimStart_app_stop (rev y) (rev x) d Hd).
  rewrite rev_app_distr. cbn [rev]. rewrite rev_involutive, <- app_assoc.
  reflexivity.
Qed.

Lemma trim_around_colon (pre y : jsstring) :
  trim (pre ++ 58%N :: y) = trimStart pre ++ 58%N :: trimEnd y.
Proof.
  unfold trim.
  rewrite (trimStart_app_stop pre y 58 eq_refl).
  apply (trimEnd_app_stop (trimStart pre) y 58 eq_refl).
Qed.

Lemma digit_not_space (c : N) : is_digit c = true -> is_space c = false.
Proof.
  unfold is_digit, is_space. intros H. apply andb_true_iff in H as [H1 H2].
  apply N.leb_le in H1, H2.
  repeat match goal with
         | |- context [(c =? ?k)%N] =>
             replace (c =? k)%N with false by (symmetry; apply N.eqb_neq; lia)
         end.
  replace (8192 <=? c)%N with false by (symmetry; apply N.leb_gt; lia).
  reflexivity.
Qed.

Lemma trimEnd_digits (ds y : jsstring) :
  forallb is_digit ds = true -> trimEnd (ds ++ y) = ds ++ trimEnd y.
Proof.
  induction ds as [|d ds IH]; [reflexivity|]. cbn [forallb app].
  intros H. apply andb_true_iff in H as [Hd Hds].
  pose proof (trimEnd_app_stop [] (ds ++ y) d (digit_not_space d Hd)) as Ht.
  cbn [app] in Ht. rewrite Ht, (IH Hds). reflexivity.
Qed.

Lemma isMeaningfulFrame_ext (line1 line2 : jsstring) :
  trim line1 <> [] -> trim line2 <> [] ->
  (forall p, p <> [] -> forallb (fun c => negb (is_digit c)) p = true ->
             includes (trim line1) p = includes (trim line2) p) ->
  isMeaningfulFrame line1 = isMeaningfulFrame line2.
Proof.
  unfold isMeaningfulFrame. cbv zeta.
  destruct (trim line1) as [|c1 t1]; [congruence|].
  destruct (trim line2) as [|c2 t2]; [congruence|].
  intros _ _ H. rewrite !H by (discriminate || reflexivity). reflexivity.
Qed.

Lemma isMeaningfulFrame_run (pre ds1 ds2 rest : jsstring) :
  ds1 <> [] -> ds2 <> [] ->
  forallb is_digit ds1 = true -> forallb is_digit ds2 = true ->
  isMeaningfulFrame (pre ++ 58%N :: ds1 ++ rest)
  = isMeaningfulFrame (pre ++ 58%N :: ds2 ++ rest).
Proof.
  intros Hne1 Hne2 Hds1 Hds2.
  assert (Htrim : forall ds, forallb is_digit ds = true ->
            trim (pre ++ 58%N :: ds ++ rest)
            = (trimStart pre ++ [58%N]) ++ ds ++ trimEnd rest).
  { intros ds Hds. rewrite trim_around_colon, (trimEnd_digits ds rest Hds).
    rewrite <- app_assoc. reflexivity. }
  apply isMeaningfulFrame_ext.
  - rewrite (Htrim ds1 Hds1). destruct (trimStart pre); discriminate.
  - rewrite (Htrim ds2 Hds2). destruct (trimStart pre); discriminate.
  - intros p Hp Hfree. rewrite (Htrim ds1 Hds1), (Htrim ds2 Hds2).
    rewrite !includes_around_digits by assumption. reflexivity.
Qed.

(** *** The lines of a stack around a position *)

Lemma split_lines_first (s : jsstring) :
  exists l1 B, split_lines s = l1 :: B
               /\ (starts_with_digit s = false ->
                   starts_with_digit l1 = false).
Proof.
  destruct s as [|c s]; [exists [], []; split; [reflexivity|auto]|].
  cbn [split_lines]. destruct (c =? 10)%N.
  - exists [], (split_lines s). split; [reflexivity|reflexivity].
  - destruct (split_lines s) as [|line lines].
    + exists [c], []. split; [reflexivity|auto].
    + exists (c :: line), lines. split; [reflexivity|auto].
Qed.

Lemma split_lines_digits (ds s l1 : jsstring) (B : list jsstring) :
  forallb is_digit ds = true -> split_lines s = l1 :: B ->
  split_lines (ds ++ s) = (ds ++ l1) :: B.
Proof.
  intros Hds Hs. induction ds as [|d ds IH]; [exact Hs|].
  cbn [forallb] in Hds. apply andb_true_iff in Hds as [Hd Hds].
  cbn [app split_lines]. rewrite (IH Hds).
  replace (d =? 10)%N with false; [reflexivity|].
  symmetry. apply N.eqb_neq. unfold is_digit in Hd.
  apply andb_true_iff in Hd as [Hd _]. apply N.leb_le in Hd. lia.
Qed.

(** The position lies on one line; the other lines, and that line
    around the digits, do not depend on the digits. *)
Lemma split_lines_around (pre rest : jsstring) :
  exists (A : list jsstring) (p l1 : jsstring) (B : list jsstring),
    (starts_with_digit rest = false -> starts_with_digit l1 = false)
    /\ forall ds, forallb is_digit ds = true ->
         split_lines (pre ++ 58%N :: ds ++ rest)
         = A ++ (p ++ 58%N :: ds ++ l1) :: B.
Proof.
  destruct (split_lines_first rest) as (l1 & B & Hrest & Hl1).
  induction pre as [|c pre IH].
  - exists [], [], l1, B. split; [exact Hl1|]. intros ds Hds.
    cbn [app split_lines]. change (58 =? 10)%N with false.
    rewrite (split_lines_digits ds rest l1 B Hds Hrest). reflexivity.
  - destruct IH as (A & p & l1' & B' & Hl1' & IH).
    destruct (c =? 10)%N eqn:Hc.
    + exists ([] :: A), p, l1', B'. split; [exact Hl1'|]. intros ds Hds.
      cbn [app split_lines]. rewrite Hc, (IH ds Hds). reflexivity.
    + destruct A as [|a A].
      * exists [], (c :: p), l1', B'. split; [exact Hl1'|]. intros ds Hds.
        cbn [app split_lines]. rewrite Hc, (IH ds Hds). reflexivity.
      * exists ((c :: a) :: A), p, l1', B'. split; [exact Hl1'|].
        intros ds Hds. cbn [app split_lines]. rewrite Hc, (IH ds Hds).
        reflexivity.
Qed.

Lemma map_take_ext {X Y : Type} (f : X -> Y) (n : nat) (l1 l2 : list X) :
  List.map f l1 = List.map f l2 ->
  List.map f (take n l1) = List.map f (take n l2).
Proof.
  revert l1 l2. induction n as [|n IH]; intros [|x1 l1] [|x2 l2] H;
    try reflexivity; try discriminate H.
  cbn in *. injection H as Hx Hl. rewrite Hx, (IH l1 l2 Hl). reflexivity.
Qed.

Lemma extractStackSignature_eq (stackTrace : jsstring) (depth : nat) :
  extractStackSignature stackTrace depth
  = join (js "|")
      (List.map normalizeFrame
         (take depth (List.filter isMeaningfulFrame (split_lines stackTrace)))).
Proof.
  destruct stackTrace; [|reflexivity]. destruct depth; reflexivity.
Qed.

Lemma extractStackSignature_run (pre ds1 ds2 rest : jsstring) (depth : nat) :
  ds1 <> [] -> ds2 <> [] ->
  forallb is_digit ds1 = true -> forallb is_digit ds2 = true ->
  starts_with_digit rest = false ->
  extractStackSignature (pre ++ 58%N :: ds1 ++ rest) depth
  = extractStackSignature (pre ++ 58%N :: ds2 ++ rest) depth.
Proof.
  intros Hne1 Hne2 Hds1 Hds2 Hrest. rewrite !extractStackSignature_eq.
  destruct (split_lines_around pre rest) as (A & p & l1 & B & Hl1 & Hsplit).
  rewrite (Hsplit ds1 Hds1), (Hsplit ds2 Hds2). f_equal.
  apply map_take_ext. rewrite !List.filter_app. cbn [List.filter].
  rewrite (isMeaningfulFrame_run p ds1 ds2 l1 Hne1 Hne2 Hds1 Hds2).
  rewrite !map_app. f_equal.
  destruct (isMeaningfulFrame (p ++ 58%N :: ds2 ++ l1)); [|reflexivity].
  cbn [List.map]. f_equal.
  rewrite !normalizeFrame_run by auto. reflexivity.
Qed.

(** X26.  The fingerprint does not depend on the positions in the stack:
    two errors of the same type with the same message, whose stacks
    differ only in the digits of one line or column number, get the same
    fingerprint. *)
Theorem createErrorFingerprint_ignores_position
        (name text pre ds1 ds2 rest : jsstring) :
  ds1 <> [] -> ds2 <> [] ->
  forallb is_digit ds1 = true -> forallb is_digit ds2 = true ->
  starts_with_digit rest = false ->
  createErrorFingerprint
    {| constructorName := name; message := text;
       stack := Some (pre ++ 58%N :: ds1 ++ rest) |}
  = createErrorFingerprint
      {| constructorName := name; message := text;
         stack := Some (pre ++ 58%N :: ds2 ++ rest) |}.
Proof.
  intros Hne1 Hne2 Hds1 Hds2 Hrest. unfold createErrorFingerprint.
  cbn [stack message constructorName]. unfold default, from_option, id.
  rewrite (extractStackSignature_run pre ds1 ds2 rest 3 Hne1 Hne2 Hds1 Hds2
             Hrest).
  reflexivity.
Qed.

Lemma createErrorFingerprint_ignores_position_witness :
  createErrorFingerprint (sampleError "10:5")
  = createErrorFingerprint (sampleError "222:5").
Proof.
  exact (createErrorFingerprint_ignores_position
           (js "TypeError") (js "x is undefined")
           (js "TypeError: x is undefined" ++ [10%N]
            ++ js "    at UserService.load (user.service.ts")
           (js "10") (js "222")
           (js ":5)" ++ [10%N]
            ++ js "    at ZoneDelegate.invoke (node_modules/@angular/core/zone.js:1:2)")
           ltac:(discriminate) ltac:(discriminate) eq_refl eq_refl eq_refl).
Defined.

End Frames.

End ErrorFingerprintSpec.

(** ** BreadcrumbManager *)

Module BreadcrumbManagerSpec.
Import BreadcrumbManager.

Section Service.
Context {Data : Type}.

Lemma addAll_snoc (calls : list (Z * Crumb Data)) (c : Z * Crumb Data)
      (s : BreadcrumbManager Data) :
  addAll (calls ++ [c]) s = addBreadcrumb c.1 c.2 (addAll calls s).
Proof. unfold addAll. rewrite fold_left_app. reflexivity. Qed.

Lemma addAll_maxBreadcrumbs (calls : list (Z * Crumb Data))
      (s : BreadcrumbManager Data) :
  maxBreadcrumbs (addAll calls s) = maxBreadcrumbs s.
Proof.
  revert s. induction calls as [|c calls IH]; intros s; [reflexivity|].
  change (addAll (c :: calls) s) with (addAll calls (addBreadcrumb c.1 c.2 s)).
  rewrite IH. reflexivity.
Qed.

Lemma tail_drop_snoc {X : Type} (k : nat) (l : list X) (b : X) :
  (k < length l)%nat -> tail (drop k l ++ [b]) = drop (S k) (l ++ [b]).
Proof.
  revert l. induction k as [|k IH]; intros [|x l] Hk; cbn in Hk; try lia.
  - reflexivity.
  - cbn [drop app]. apply IH. lia.
Qed.

(** X27.  The manager is a window on the breadcrumbs added: after any
    calls of [addBreadcrumb] on a new manager it holds the last
    [maxBreadcrumbs] of them, oldest first, each with the time of its
    call; with a bound of 0 or less it holds none. *)
Theorem addBreadcrumb_keeps_the_last (max : Z)
        (calls : list (Z * Crumb Data)) :
  getBreadcrumbs (addAll calls (create max))
  = drop (length calls - Z.to_nat max) (stamped calls).
Proof.
  unfold getBreadcrumbs.
  induction calls as [|c calls IH] using rev_ind; [reflexivity|].
  rewrite addAll_snoc. unfold addBreadcrumb. cbn [breadcrumbs].
  rewrite addAll_maxBreadcrumbs, IH. cbn [create maxBreadcrumbs].
  unfold stamped. rewrite map_app. cbn [List.map].
  fold (stamped calls).
  set (b := {| crumb := c.2; timestamp := c.1 |}).
  assert (Hlen : length (stamped calls) = length calls)
    by apply length_map.
  rewrite !length_app, length_drop, Hlen. cbn [length].
  destruct (Z.gtb_spec
              (Z.of_nat (length calls - (length calls - Z.to_nat max) + 1))
              max) as [Hgt|Hle].
  - destruct (Nat.eq_dec (Z.to_nat max) 0%nat) as [H0|Hpos].
    + rewrite H0, !Nat.sub_0_r, !drop_ge by (rewrite ?length_app; cbn; lia).
      reflexivity.
    + rewrite tail_drop_snoc by lia. f_equal. lia.
  - replace (length calls - Z.to_nat max)%nat with 0%nat by lia.
    replace (length calls + 1 - Z.to_nat max)%nat with 0%nat by lia.
    reflexivity.
Qed.

End Service.
End BreadcrumbManagerSpec.

(** ** SecurityValidatorService: validation *)

Module ValidationSpec.
Import SecurityValidator Scan ScanFacts JsNumber JsNumberFacts.

(** *** The size of a payload *)

Lemma utf8Size_bounds (n : nat) (s : jsstring) :
  (length s <= n)%nat ->
  Z.of_nat (length s) <= utf8Size s <= 3 * Z.of_nat (length s).
Proof.
  revert s. induction n as [|n IH]; intros [|c s] Hn; cbn [length] in *;
    try (cbn; lia).
  assert (Hs := IH s ltac:(lia)). cbn [utf8Size].
  destruct (c <? 128)%N; [lia|]. destruct (c <? 2048)%N; [lia|].
  destruct (is_high_surrogate c); [|lia].
  destruct s as [|d s]; [cbn; lia|].
  destruct (is_low_surrogate d); [|lia].
  cbn [length] in *. assert (Hs' := IH s ltac:(lia)). lia.
Qed.

(** X28.  [validatePayloadSize] measures bytes, not units of the string:
    a unit takes one to three bytes.  A payload is accepted when three
    times its length is within [maxPayloadSize], and refused when its
    length alone is above it. *)
Theorem validatePayloadSize_by_length (config : SecurityConfig)
        (payload : jsstring) :
  (3 * Z.of_nat (length payload) <= maxPayloadSize config ->
   validatePayloadSize config payload = valid)
  /\ (maxPayloadSize config < Z.of_nat (length payload) ->
      isValid (validatePayloadSize config payload) = false).
Proof.
  pose proof (utf8Size_bounds (length payload) payload (le_n _)) as Hb.
  unfold validatePayloadSize. cbv zeta.
  destruct (Z.gtb_spec (utf8Size payload) (maxPayloadSize config));
    split; intros Hlen; try reflexivity; lia.
Qed.

Lemma validatePayloadSize_by_length_witness :
  validatePayloadSize
    {| requireHttps := true; validateToken := true; maxPayloadSize := 9 |}
    (js "abc") = valid
  /\ isValid (validatePayloadSize
                {| requireHttps := true; validateToken := true;
                   maxPayloadSize := 2 |}
                (js "abc")) = false.
Proof.
  split.
  - apply (proj1 (validatePayloadSize_by_length _ (js "abc"))). cbn. lia.
  - apply (proj2 (validatePayloadSize_by_length _ (js "abc"))). cbn. lia.
Defined.

(** *** Project tokens *)

Lemma plain_ci (a b : N) :
  is_plain b = true -> ci_eqb a b = true -> is_plain a = true.
Proof.
  unfold is_plain, ci_eqb, upper. intros Hb Hab.
  apply N.eqb_eq in Hab. apply negb_true_iff in Hb. apply negb_true_iff.
  rewrite !orb_false_iff in *. rewrite !N.eqb_neq in *.
  destruct ((97 <=? a)%N && (a <=? 122)%N) eqn:Ha;
    destruct ((97 <=? b)%N && (b <=? 122)%N) eqn:Hb';
    rewrite ?andb_true_iff, ?andb_false_iff, ?N.leb_le, ?N.leb_gt in *; lia.
Qed.

Lemma starts_with_ci_plain (p s : jsstring) :
  forallb is_plain s = true -> starts_with_ci p s = true ->
  forallb is_plain p = true.
Proof.
  revert s. induction p as [|a p IH]; intros [|b s] Hs Hp; try reflexivity;
    try discriminate Hp.
  cbn in *. apply andb_true_iff in Hs as [Hb Hs].
  apply andb_true_iff in Hp as [Hab Hp].
  rewrite (plain_ci a b Hb Hab), (IH s Hs Hp). reflexivity.
Qed.

Lemma literal_plain (p s : jsstring) :
  forallb is_plain p = false -> forallb is_plain s = true ->
  starts_with_ci p s = false.
Proof.
  intros Hp Hs. destruct (starts_with_ci p s) eqn:H; [|reflexivity].
  rewrite (starts_with_ci_plain p s Hs H) in Hp. discriminate Hp.
Qed.

Lemma plain_drop (n : nat) (s : jsstring) :
  forallb is_plain s = true -> forallb is_plain (drop n s) = true.
Proof.
  revert n. induction s as [|c s IH]; intros [|n] H; try assumption.
  cbn [drop]. apply IH. cbn in H. apply andb_true_iff in H. tauto.
Qed.

Lemma handler_plain (s : jsstring) :
  forallb is_plain s = true -> handler_at s = false.
Proof.
  intros Hs. unfold handler_at. apply andb_false_iff. right.
  pose proof (plain_drop 2 s Hs) as Hd.
  rewrite <- (span_concat is_word (drop 2 s)), forallb_app in Hd.
  apply andb_true_iff in Hd as [_ Hd].
  destruct (span is_word (drop 2 s)) as [name r1]. cbn [snd] in Hd.
  destruct name as [|x name]; [reflexivity|].
  destruct r1 as [|c r1]; [reflexivity|].
  cbn [forallb] in Hd. apply andb_true_iff in Hd as [Hc _].
  unfold is_plain in Hc. apply negb_true_iff in Hc.
  rewrite !orb_false_iff in Hc. tauto.
Qed.

Lemma test_plain (at_head : jsstring -> bool) (s : jsstring) :
  (forall x, forallb is_plain x = true -> at_head x = false) ->
  forallb is_plain s = true -> test at_head s = false.
Proof.
  intros Hhead. induction s as [|c s IH]; intros Hs; cbn [test].
  - rewrite (Hhead [] Hs). reflexivity.
  - rewrite (Hhead (c :: s) Hs). cbn in Hs.
    apply andb_true_iff in Hs as [_ Hs]. exact (IH Hs).
Qed.

(** X29.  [validateProjectToken] accepts every token of 10 to 1000 units
    that holds none of the four characters [<], [:], [=] and [(]: each
    of the suspicious patterns needs one of them. *)
Theorem validateProjectToken_accepts_plain (token : jsstring) :
  (10 <= length token <= 1000)%nat ->
  forallb is_plain token = true ->
  validateProjectToken token = valid.
Proof.
  intros Hlen Hplain. unfold validateProjectToken.
  destruct token as [|c token]; [cbn in Hlen; lia|].
  destruct (Z.ltb_spec (Z.of_nat (length (c :: token))) 10); [lia|].
  destruct (Z.gtb_spec (Z.of_nat (length (c :: token))) 1000); [lia|].
  replace (containsSuspiciousPatterns (c :: token)) with false; [reflexivity|].
  symmetry. unfold containsSuspiciousPatterns, suspiciousPatterns.
  cbn [existsb].
  rewrite !(test_plain (starts_with_ci _))
    by first [exact Hplain
             |intros x Hx; apply literal_plain; [reflexivity|exact Hx]].
  rewrite (test_plain handler_at _ handler_plain Hplain). reflexivity.
Qed.

Lemma validateProjectToken_accepts_plain_witness :
  validateProjectToken (js "proj_4f8a2c91d7") = valid.
Proof.
  apply validateProjectToken_accepts_plain; [cbn; lia|reflexivity].
Defined.

(** *** Private addresses *)

Section Addresses.

Abbreviation D := (toStringRadix 10).

Lemma D_inj (a b : N) : D a = D b -> a = b.
Proof.
  intros H. apply (f_equal parseInt10) in H.
  rewrite !parseInt10_toString10 in H. lia.
Qed.

Lemma D_starts_with_digit (a : N) (rest : jsstring) :
  exists c r, D a ++ rest = c :: r /\ is_digit c = true.
Proof.
  pose proof (toStringRadix_nonempty 10 a) as Hne.
  pose proof (toString10_digits a) as Hds.
  destruct (D a) as [|c r]; [congruence|]. exists c, (r ++ rest).
  cbn [forallb] in Hds. apply andb_true_iff in Hds as [Hc _].
  split; [reflexivity|exact Hc].
Qed.

Lemma split_at_dot (ds1 ds2 r1 r2 : jsstring) :
  forallb is_digit ds1 = true -> forallb is_digit ds2 = true ->
  ds1 ++ 46%N :: r1 = ds2 ++ 46%N :: r2 -> ds1 = ds2 /\ r1 = r2.
Proof.
  revert ds2. induction ds1 as [|d1 ds1 IH]; intros [|d2 ds2] H1 H2 H;
    cbn [app forallb] in *.
  - injection H as ->. split; reflexivity.
  - injection H as <- _. discriminate H2.
  - injection H as -> _. discriminate H1.
  - injection H as -> H. apply andb_true_iff in H1 as [_ H1].
    apply andb_true_iff in H2 as [_ H2].
    destruct (IH ds2 H1 H2 H) as [-> ->]. split; reflexivity.
Qed.

Lemma starts_with_spec (p s : jsstring) :
  starts_with p s = true <-> exists r, s = p ++ r.
Proof.
  revert s. induction p as [|a p IH]; intros s.
  - split; [exists s; reflexivity|reflexivity].
  - destruct s as [|b s]; cbn [starts_with app].
    + split; [discriminate|intros [r H]; discriminate H].
    + unfold unit_eqb. rewrite andb_true_iff, N.eqb_eq, IH. split.
      * intros [-> [r ->]]. exists r. reflexivity.
      * intros [r H]. injection H as -> ->. split; [reflexivity|].
        exists r. reflexivity.
Qed.

Lemma starts_with_octet (k a : N) (rest : jsstring) :
  starts_with (D k ++ [46%N]) (D a ++ 46%N :: rest) = (a =? k)%N.
Proof.
  destruct (N.eqb_spec a k) as [->|Hne].
  - apply starts_with_spec. exists rest. rewrite <- app_assoc. reflexivity.
  - destruct (starts_with _ _) eqn:H; [|reflexivity].
    apply starts_with_spec in H as [r H]. rewrite <- app_assoc in H.
    apply split_at_dot in H as [H _]; try apply toString10_digits.
    apply D_inj in H. congruence.
Qed.

Lemma starts_with_two_octets (k1 k2 a b : N) (rest : jsstring) :
  starts_with (D k1 ++ 46%N :: D k2 ++ [46%N])
    (D a ++ 46%N :: D b ++ 46%N :: rest)
  = (a =? k1)%N && (b =? k2)%N.
Proof.
  destruct (N.eqb_spec a k1) as [->|Hne1];
    [destruct (N.eqb_spec b k2) as [->|Hne2]|]; cbn [andb].
  - apply starts_with_spec. exists rest.
    rewrite <- !app_assoc. cbn [app]. rewrite <- app_assoc. reflexivity.
  - destruct (starts_with _ _) eqn:H; [|reflexivity].
    apply starts_with_spec in H as [r H]. rewrite <- !app_assoc in H.
    cbn [app] in H. rewrite <- app_assoc in H. cbn [app] in H.
    apply split_at_dot in H as [_ H]; try apply toString10_digits.
    apply split_at_dot in H as [H _]; try apply toString10_digits.
    apply D_inj in H. congruence.
  - destruct (starts_with _ _) eqn:H; [|reflexivity].
    apply starts_with_spec in H as [r H]. rewrite <- !app_assoc in H.
    cbn [app] in H.
    apply split_at_dot in H as [H _]; try apply toString10_digits.
    apply D_inj in H. congruence.
Qed.

(** The alternatives [1[6-9]|2[0-9]|3[0-1]] followed by a dot read the
    numbers from 16 to 31. *)
Lemma second_octet_of_172 (b : N) (rest : jsstring) :
  match D b ++ 46%N :: rest with
  | c1 :: c2 :: c3 :: _ =>
      ((c1 =? 49)%N && in_range 54 57 c2
       || (c1 =? 50)%N && in_range 48 57 c2
       || (c1 =? 51)%N && in_range 48 49 c2)
      && (c3 =? 46)%N
  | _ => false
  end = (16 <=? b)%N && (b <=? 31)%N.
Proof.
  destruct ((16 <=? b)%N && (b <=? 31)%N) eqn:Hb.
  - apply andb_true_iff in Hb as [H1 H2]. apply N.leb_le in H1, H2.
    assert (H : (b = 16 \/ b = 17 \/ b = 18 \/ b = 19 \/ b = 20 \/ b = 21
                 \/ b = 22 \/ b = 23 \/ b = 24 \/ b = 25 \/ b = 26 \/ b = 27
                 \/ b = 28 \/ b = 29 \/ b = 30 \/ b = 31)%N) by lia.
    repeat destruct H as [->|H]; try subst b; reflexivity.
  - destruct (D b ++ 46%N :: rest) as [|c1 [|c2 [|c3 r]]] eqn:Hl;
      try reflexivity.
    match goal with |- ?t = false => destruct t eqn:Ht end; [|reflexivity].
    exfalso. apply andb_true_iff in Ht as [Ht H3]. apply N.eqb_eq in H3.
    subst c3. unfold in_range in Ht.
    assert (Hc : is_digit c1 = true /\ is_digit c2 = true
                 /\ 16 <= 10 * (Z.of_N c1 - 48) + (Z.of_N c2 - 48) <= 31).
    { unfold is_digit.
      rewrite !orb_true_iff, !andb_true_iff, !N.eqb_eq, !N.leb_le in *.
      lia. }
    destruct Hc as (Hc1 & Hc2 & Hv).
    change (c1 :: c2 :: 46%N :: r) with ([c1; c2] ++ 46%N :: r) in Hl.
    apply split_at_dot in Hl as [Hl _];
      [|apply toString10_digits|cbn; rewrite Hc1, Hc2; reflexivity].
    apply (f_equal parseInt10) in Hl. rewrite parseInt10_toString10 in Hl.
    cbn in Hl. apply andb_false_iff in Hb.
    rewrite N.leb_gt, N.leb_gt in Hb. lia.
Qed.

(** X30.  [isPrivateOrLocalhost] on an address in dotted decimal
    notation: the address is refused exactly when it is 127.0.0.1 or lies
    in 10.0.0.0/8, 172.16.0.0/12, 192.168.0.0/16 or 169.254.0.0/16.
    The other addresses of 127.0.0.0/8 are not held to be local. *)
Theorem isPrivateOrLocalhost_of_address (a b c d : N) :
  isPrivateOrLocalhost (dottedQuad a b c d)
  = (a =? 127)%N && (b =? 0)%N && (c =? 0)%N && (d =? 1)%N
    || (a =? 10)%N
    || (a =? 172)%N && ((16 <=? b)%N && (b <=? 31)%N)
    || (a =? 192)%N && (b =? 168)%N
    || (a =? 169)%N && (b =? 254)%N.
Proof.
  unfold isPrivateOrLocalhost.
  change (dottedQuad a b c d)
    with (D a ++ 46%N :: D b ++ 46%N :: D c ++ 46%N :: D d).
  set (rest := D c ++ 46%N :: D d).
  set (h := D a ++ 46%N :: D b ++ 46%N :: rest).
  assert (H1 : bool_decide (h = js "localhost") = false).
  { apply bool_decide_eq_false. intros H.
    destruct (D_starts_with_digit a (46%N :: D b ++ 46%N :: rest))
      as (x & r & Hx & Hd).
    unfold h in H. rewrite Hx in H. injection H as -> _. discriminate Hd. }
  assert (H3 : bool_decide (h = js "::1") = false).
  { apply bool_decide_eq_false. intros H.
    destruct (D_starts_with_digit a (46%N :: D b ++ 46%N :: rest))
      as (x & r & Hx & Hd).
    unfold h in H. rewrite Hx in H. injection H as -> _. discriminate Hd. }
  assert (H2 : bool_decide (h = js "127.0.0.1")
               = (a =? 127)%N && (b =? 0)%N && (c =? 0)%N && (d =? 1)%N).
  { change (js "127.0.0.1")
      with (D 127 ++ 46%N :: D 0 ++ 46%N :: D 0 ++ 46%N :: D 1).
    destruct ((a =? 127)%N && (b =? 0)%N && (c =? 0)%N && (d =? 1)%N) eqn:Hq.
    - apply bool_decide_eq_true.
      rewrite !andb_true_iff, !N.eqb_eq in Hq.
      destruct Hq as [[[-> ->] ->] ->]. reflexivity.
    - apply bool_decide_eq_false. intros H. unfold h, rest in H.
      apply split_at_dot in H as [Ha H]; try apply toString10_digits.
      apply split_at_dot in H as [Hb H]; try apply toString10_digits.
      apply split_at_dot in H as [Hc Hd]; try apply toString10_digits.
      apply D_inj in Ha, Hb, Hc, Hd. subst a b c d. discriminate Hq. }
  rewrite H1, H2, H3. unfold privateRanges. cbn [existsb].
  change (js "10.") with (D 10 ++ [46%N]).
  change (js "192.168.") with (D 192 ++ 46%N :: D 168 ++ [46%N]).
  change (js "169.254.") with (D 169 ++ 46%N :: D 254 ++ [46%N]).
  unfold h at 1 3 4. rewrite starts_with_octet, !starts_with_two_octets.
  assert (Hr : range172 h
               = (a =? 172)%N && ((16 <=? b)%N && (b <=? 31)%N)).
  { unfold range172. change (js "172.") with (D 172 ++ [46%N]).
    unfold h at 1. rewrite starts_with_octet.
    destruct (N.eqb_spec a 172) as [->|_]; [|reflexivity].
    cbn [andb]. unfold h.
    change (drop 4 (D 172 ++ 46%N :: D b ++ 46%N :: rest))
      with (D b ++ 46%N :: rest).
    apply second_octet_of_172. }
  rewrite Hr.
  destruct ((a =? 127)%N && (b =? 0)%N && (c =? 0)%N && (d =? 1)%N);
    [reflexivity|].
  cbn [orb]. rewrite orb_false_r, !orb_assoc. reflexivity.
Qed.

End Addresses.

End ValidationSpec.
